(** * xrpl-data-mcp: a shallow embedding of the gateway's core logic

    The embedded program is the single server module of the repository
    (the file that registers every tool).  JavaScript strings are modelled
    as sequences of UTF-16 code units, numbers as IEEE-754 binary64
    values, parsed JSON payloads as trees, and the asynchronous handlers
    as computations in a state-and-exception monad over an arbitrary
    upstream world. *)

From Stdlib Require Import List NArith ZArith Bool Lia String Ascii Floats.
From Stdlib Require Import DecimalString SpecFloat Permutation.
Import ListNotations.
Local Open Scope N_scope.
Set Warnings "-register-all,-inexact-float".
Set Default Proof Using "Type".

(* ================================================================= *)
(** ** Strings *)

(** A JavaScript string: its UTF-16 code units, each below [65536]. *)
Definition jsstring := list N.

Definition wf_jsstring (s : jsstring) : Prop := Forall (fun c => c < 65536) s.

(** An ASCII literal as a JavaScript string. *)
Definition lit (s : string) : jsstring :=
  List.map N_of_ascii (list_ascii_of_string s).

Definition cu_eqb (a b : N) : bool := N.eqb a b.

Fixpoint jsstring_eqb (a b : jsstring) : bool :=
  match a, b with
  | [], [] => true
  | x :: a', y :: b' => cu_eqb x y && jsstring_eqb a' b'
  | _, _ => false
  end.

Definition in_range (lo hi c : N) : bool := (lo <=? c) && (c <=? hi).

(** White space and line terminators removed by [String.prototype.trim]. *)
Definition is_js_whitespace (c : N) : bool :=
  in_range 9 13 c || (c =? 32) || (c =? 160) || (c =? 5760)
  || in_range 8192 8202 c || (c =? 8232) || (c =? 8233) || (c =? 8239)
  || (c =? 8287) || (c =? 12288) || (c =? 65279).

Fixpoint trimStart (s : jsstring) : jsstring :=
  match s with
  | c :: s' => if is_js_whitespace c then trimStart s' else s
  | [] => []
  end.

Definition trimEnd (s : jsstring) : jsstring := rev (trimStart (rev s)).

Definition trim (s : jsstring) : jsstring := trimEnd (trimStart s).

(** [toUpperCase] on the ASCII repertoire.  The program applies it only to
    strings that a preceding regular expression restricts to ASCII letters,
    digits and the period, and to hexadecimal renderings; there the
    Unicode case mapping is this one. *)
Definition upper_cu (c : N) : N := if in_range 97 122 c then c - 32 else c.

Definition toUpperCase (s : jsstring) : jsstring := List.map upper_cu s.

Fixpoint startsWith (s prefix : jsstring) {struct prefix} : bool :=
  match prefix, s with
  | [], _ => true
  | p :: prefix', c :: s' => cu_eqb c p && startsWith s' prefix'
  | _ :: _, [] => false
  end.

(** [s.includes(needle)]: [needle] occurs as a contiguous substring. *)
Fixpoint includes (s needle : jsstring) : bool :=
  startsWith s needle ||
  match s with
  | [] => false
  | _ :: s' => includes s' needle
  end.

(* ================================================================= *)
(** ** Regular expressions

    Every pattern of the program is anchored at both ends ([^...$], no
    flags), so [test] is a whole-input match.  Matching is by Brzozowski
    derivatives. *)

Inductive regex : Type :=
| Void
| Eps
| Class (ranges : list (N * N))
| Seq (r s : regex)
| Alt (r s : regex)
| Star (r : regex).

Definition class_mem (ranges : list (N * N)) (c : N) : bool :=
  existsb (fun lh => in_range (fst lh) (snd lh) c) ranges.

Fixpoint nullable (r : regex) : bool :=
  match r with
  | Void => false
  | Eps => true
  | Class _ => false
  | Seq a b => nullable a && nullable b
  | Alt a b => nullable a || nullable b
  | Star _ => true
  end.

Fixpoint deriv (c : N) (r : regex) : regex :=
  match r with
  | Void => Void
  | Eps => Void
  | Class rs => if class_mem rs c then Eps else Void
  | Seq a b =>
      if nullable a then Alt (Seq (deriv c a) b) (deriv c b)
      else Seq (deriv c a) b
  | Alt a b => Alt (deriv c a) (deriv c b)
  | Star a => Seq (deriv c a) (Star a)
  end.

Fixpoint matches (r : regex) (s : jsstring) : bool :=
  match s with
  | [] => nullable r
  | c :: s' => matches (deriv c r) s'
  end.

(** [r{n}] *)
Fixpoint rep (n : nat) (r : regex) : regex :=
  match n with
  | O => Eps
  | S n' => Seq r (rep n' r)
  end.

(** [r{0,n}] *)
Fixpoint upto (n : nat) (r : regex) : regex :=
  match n with
  | O => Eps
  | S n' => Alt Eps (Seq r (upto n' r))
  end.

(** [r{lo,hi}] *)
Definition between (lo hi : nat) (r : regex) : regex :=
  Seq (rep lo r) (upto (hi - lo) r).

(** [r+] *)
Definition plus (r : regex) : regex := Seq r (Star r).

Definition chr (a : ascii) : regex :=
  Class [(N_of_ascii a, N_of_ascii a)].

Definition rng (a b : ascii) : N * N := (N_of_ascii a, N_of_ascii b).

(** [[A-Fa-f0-9]] *)
Definition HEX : regex := Class [rng "A" "F"; rng "a" "f"; rng "0" "9"].
(** [[A-Za-z0-9]] *)
Definition ALNUM : regex := Class [rng "A" "Z"; rng "a" "z"; rng "0" "9"].
(** [[1-9A-HJ-NP-Za-km-z]] *)
Definition BASE58 : regex :=
  Class [rng "1" "9"; rng "A" "H"; rng "J" "N"; rng "P" "Z";
         rng "a" "k"; rng "m" "z"].
(** [[0-9]] *)
Definition DIGIT : regex := Class [rng "0" "9"].

(** [/^[A-Fa-f0-9]{40}$/] *)
Definition RE_HEX40 : regex := rep 40 HEX.
(** [/^[A-Za-z0-9]{3}$/] *)
Definition RE_ALNUM3 : regex := rep 3 ALNUM.
(** [/^[A-Fa-f0-9]{64}$/] *)
Definition RE_HEX64 : regex := rep 64 HEX.
(** [/^r[1-9A-HJ-NP-Za-km-z]{24,34}$/] *)
Definition RE_ACCOUNT : regex := Seq (chr "r") (between 24 34 BASE58).
(** [/^[A-Fa-f0-9]{40}\.r[1-9A-HJ-NP-Za-km-z]{24,34}$/] *)
Definition RE_TOKEN_ID : regex :=
  Seq (rep 40 HEX) (Seq (chr ".") (Seq (chr "r") (between 24 34 BASE58))).
(** [/^[0-9]+$/] *)
Definition RE_DIGITS : regex := plus DIGIT.

Definition test (r : regex) (s : jsstring) : bool := matches r s.

(* ================================================================= *)
(** ** Buffers *)

(** A Node [Buffer]: a sequence of octets. *)
Definition buffer := list N.

(** [Buffer.from(s, "ascii")]: each code unit is truncated to its low
    octet. *)
Definition Buffer_from_ascii (s : jsstring) : buffer :=
  List.map (fun c => N.land c 255) s.

Definition is_high_surrogate (c : N) : bool := in_range 55296 56319 c.
Definition is_low_surrogate (c : N) : bool := in_range 56320 57343 c.

Definition utf8_of_code_point (cp : N) : buffer :=
  if cp <? 128 then [cp]
  else if cp <? 2048 then [192 + cp / 64; 128 + cp mod 64]
  else if cp <? 65536 then
    [224 + cp / 4096; 128 + (cp / 64) mod 64; 128 + cp mod 64]
  else
    [240 + cp / 262144; 128 + (cp / 4096) mod 64;
     128 + (cp / 64) mod 64; 128 + cp mod 64].

(** [Buffer.from(s, "utf8")]: surrogate pairs are combined, an unpaired
    surrogate is encoded as U+FFFD. *)
Fixpoint Buffer_from_utf8 (s : jsstring) : buffer :=
  match s with
  | [] => []
  | c :: rest =>
      if is_high_surrogate c then
        match rest with
        | d :: rest' =>
            if is_low_surrogate d then
              utf8_of_code_point
                (65536 + (c - 55296) * 1024 + (d - 56320))
              ++ Buffer_from_utf8 rest'
            else [239; 191; 189] ++ Buffer_from_utf8 rest
        | [] => [239; 191; 189]
        end
      else if is_low_surrogate c then [239; 191; 189] ++ Buffer_from_utf8 rest
      else utf8_of_code_point c ++ Buffer_from_utf8 rest
  end.

(** [Buffer.alloc(n)] *)
Definition Buffer_alloc (n : nat) : buffer := repeat 0 n.

Definition hex_digit (n : N) : N :=
  if n <? 10 then 48 + n else 87 + n.

(** [buf.toString("hex")]: two lower-case digits per octet. *)
Definition Buffer_toString_hex (b : buffer) : jsstring :=
  flat_map (fun o => [hex_digit (o / 16); hex_digit (o mod 16)]) b.

(* ================================================================= *)
(** ** Identifier normalizer *)

(** The normalizer is only ever given a string (the tool schema's
    [z.string()]), on which [String(currency || "")] is the identity. *)
Definition currencyTo160Hex (currency : jsstring) : option jsstring :=
  let raw := trim currency in
  if test RE_HEX40 raw then Some (toUpperCase raw)
  else if test RE_ALNUM3 raw then
    let hex :=
      toUpperCase (Buffer_toString_hex (Buffer_from_ascii (toUpperCase raw))) in
    Some (hex ++ repeat 48 34)
  else
    let bytes := Buffer_from_utf8 raw in
    if (20 <? List.length bytes)%nat then None
    else
      Some (toUpperCase
              (Buffer_toString_hex
                 (bytes ++ Buffer_alloc (20 - List.length bytes)))).

(** Canonical LOS token key: [<160-bit-currency-hex>.<issuer>]. *)
Definition tokenIdFromIssuerCurrency (issuer currency : jsstring)
  : option jsstring :=
  match currencyTo160Hex currency with
  | None => None
  | Some [] => None
  | Some currencyHex => Some (currencyHex ++ lit "." ++ issuer)
  end.

(* ================================================================= *)
(** ** JavaScript values *)

(** A value as the handlers see it: a parsed JSON tree, or [undefined]
    (the result of reading a missing property).  [JObj] lists the own
    properties of an object in enumeration order. *)
Inductive json : Type :=
| JUndefined
| JNull
| JBool (b : bool)
| JNum (n : float)
| JStr (s : jsstring)
| JArr (items : list json)
| JObj (props : list (jsstring * json)).

Definition num_of_N (n : N) : float :=
  PrimFloat.of_uint63 (Uint63.of_Z (Z.of_N n)).

Definition num_of_nat (n : nat) : float := num_of_N (N.of_nat n).

Definition nullish (v : json) : bool :=
  match v with
  | JUndefined | JNull => true
  | _ => false
  end.

(** [ToBoolean] *)
Definition truthy (v : json) : bool :=
  match v with
  | JUndefined | JNull => false
  | JBool b => b
  | JNum n => negb (PrimFloat.eqb n 0 || PrimFloat.is_nan n)
  | JStr s => match s with [] => false | _ => true end
  | JArr _ | JObj _ => true
  end.

(** [v && typeof v === "object"] *)
Definition is_object (v : json) : bool :=
  match v with
  | JArr _ | JObj _ => true
  | _ => false
  end.

Definition Array_isArray (v : json) : bool :=
  match v with
  | JArr _ => true
  | _ => false
  end.

(** [a ?? b] *)
Definition nullish_or (a b : json) : json := if nullish a then b else a.

(** [a || b] *)
Definition logical_or (a b : json) : json := if truthy a then a else b.

Fixpoint lookup (key : jsstring) (props : list (jsstring * json))
  : option json :=
  match props with
  | [] => None
  | (k, v) :: props' => if jsstring_eqb k key then Some v else lookup key props'
  end.

(** [key in value] for an object value: own properties only (none of the
    keys the program tests is inherited from a prototype). *)
Definition has_key (key : jsstring) (v : json) : bool :=
  match v with
  | JObj props => match lookup key props with Some _ => true | None => false end
  | _ => false
  end.

(** [v?.key], and [v.key] on a receiver known not to be nullish: a missing
    property, or any property of a primitive or an array that the program
    names, reads as [undefined]. *)
Definition prop (v : json) (key : jsstring) : json :=
  match v with
  | JObj props => match lookup key props with Some x => x | None => JUndefined end
  | _ => JUndefined
  end.

(** Assignment [obj[key] = v]: an existing property keeps its place. *)
Fixpoint obj_set (key : jsstring) (v : json) (props : list (jsstring * json))
  : list (jsstring * json) :=
  match props with
  | [] => [(key, v)]
  | (k, x) :: props' =>
      if jsstring_eqb k key then (k, v) :: props'
      else (k, x) :: obj_set key v props'
  end.

Definition json_of_num (n : option float) : json :=
  match n with
  | Some x => JNum x
  | None => JNull
  end.

Definition json_of_ostr (s : option jsstring) : json :=
  match s with
  | Some x => JStr x
  | None => JNull
  end.

(** [a ?? b] on the results of [toNum] ([null] is [None]). *)
Definition num_or (a b : option float) : option float :=
  match a with
  | Some _ => a
  | None => b
  end.

(* ================================================================= *)
(** ** Thrown values and results *)

(** Every value the program throws or catches is an [Error] instance; only
    its message is ever read. *)
Inductive thrown : Type := JsError (message : jsstring).

Inductive result (A : Type) : Type :=
| Ok (a : A)
| Throw (e : thrown).
Arguments Ok {A} a.
Arguments Throw {A} e.

Definition rbind {A B} (r : result A) (f : A -> result B) : result B :=
  match r with
  | Ok a => f a
  | Throw e => Throw e
  end.

Fixpoint rmap {A B} (f : A -> result B) (l : list A) : result (list B) :=
  match l with
  | [] => Ok []
  | x :: l' =>
      rbind (f x) (fun y => rbind (rmap f l') (fun ys => Ok (y :: ys)))
  end.

(** A left fold whose step can throw ([for ... of] and [reduce] bodies). *)
Fixpoint rfold {A B} (f : B -> A -> result B) (l : list A) (acc : B)
  : result B :=
  match l with
  | [] => Ok acc
  | x :: l' => rbind (f acc x) (rfold f l')
  end.

(** What the MCP layer receives from a handler: [toolResult(data)] or
    [toolError(error)].  The text rendering of the payload
    ([JSON.stringify(data, null, 2)]) is applied outside the model. *)
Inductive tool_output : Type :=
| ToolResult (data : json)
| ToolError (message : jsstring).

Definition toolResult (data : json) : tool_output := ToolResult data.

(** [toolError(error)]: [error.message] for an [Error] instance. *)
Definition toolError (error : thrown) : tool_output :=
  match error with
  | JsError message => ToolError message
  end.

(** [toolError(text)] on a string argument: [String(text)]. *)
Definition toolError_str (text : jsstring) : tool_output := ToolError text.

(** Faults raised by the JavaScript engine itself; their message texts are
    the engine's. *)
Inductive fault : Type :=
| InvalidURL (input : jsstring)
| URIMalformed
| NotIterable (value : json)
| ReadOfNullish (receiver : json) (key : jsstring).

(** Whether an upstream call is made where its failure aborts the handler,
    or inside a [try]/[catch] that turns the failure into [null]. *)
Inductive call_site : Type := Mandatory | Optional.

(** One completed upstream call, as the handler observed it. *)
Record event : Type := Event {
  ev_site : call_site;
  ev_outcome : result json
}.

Definition demote (e : event) : event :=
  {| ev_site := Optional; ev_outcome := ev_outcome e |}.

(** An HTTP response as [fetch] resolves it. *)
Record response : Type := Response {
  status : N;
  statusText : jsstring;
  content_type : option jsstring;  (* headers.get("content-type") *)
  text : result jsstring           (* await response.text() *)
}.

(** [response.ok] *)
Definition ok (r : response) : bool := in_range 200 299 (status r).

Inductive fetch_outcome : Type :=
| Rejected (e : thrown)
| Resolved (r : response).

Definition endsWith (s suffix : jsstring) : bool :=
  startsWith (rev s) (rev suffix).

(** Normalize base URLs once so path joins don't produce double slashes. *)
Definition normalizeBaseUrl (url : jsstring) : jsstring :=
  if endsWith url (lit "/") then removelast url else url.

(** [Set.prototype.add] on a set of strings kept in insertion order. *)
Definition set_add (x : jsstring) (l : list jsstring) : list jsstring :=
  if existsb (jsstring_eqb x) l then l else l ++ [x].

(** SameValueZero, the key equality of [Map] and [Set].  Objects and arrays
    are compared by identity, and two nodes of a parsed payload are never
    the same object. *)
Definition same_value_zero (a b : json) : bool :=
  match a, b with
  | JUndefined, JUndefined => true
  | JNull, JNull => true
  | JBool x, JBool y => Bool.eqb x y
  | JNum x, JNum y =>
      PrimFloat.eqb x y || (PrimFloat.is_nan x && PrimFloat.is_nan y)
  | JStr x, JStr y => jsstring_eqb x y
  | _, _ => false
  end.

(** [a !== b] where [b] is a string. *)
Definition strict_neq_str (a : json) (b : jsstring) : bool :=
  match a with
  | JStr x => negb (jsstring_eqb x b)
  | _ => true
  end.

(** [a === b] where [b] is a string. *)
Definition strict_eq_str (a : json) (b : jsstring) : bool :=
  negb (strict_neq_str a b).

(** Stable insertion of [x] in front of a sorted list; [after a b] says
    that the comparator puts [a] strictly after [b]. *)
Fixpoint insert_sorted {A} (after : A -> A -> bool) (x : A) (l : list A)
  : list A :=
  match l with
  | [] => [x]
  | y :: l' => if after x y then y :: insert_sorted after x l' else x :: l
  end.

(** [Array.prototype.sort] with a consistent comparator: the stable
    sorted arrangement. *)
Definition stable_sort {A} (after : A -> A -> bool) (l : list A) : list A :=
  fold_right (insert_sorted after) [] l.

(* ================================================================= *)
(** ** The gateway *)

Section Gateway.

(** *** Platform functions and configuration

    Built-ins of the JavaScript platform are parameters of the model:
    the theorems hold whatever they compute. *)

(** [StringToNumber] of ECMAScript, as applied by [Number(s)]. *)
Variable StringToNumber : jsstring -> float.
(** [Number::toString], as applied by [String(n)] and template literals. *)
Variable NumberToString : float -> jsstring.
(** [JSON.parse]; [None] is a [SyntaxError]. *)
Variable JSON_parse : jsstring -> option json.
Variable JSON_stringify : json -> jsstring.
Variable toLowerCase : jsstring -> jsstring.
(** [encodeURIComponent]; [None] is a [URIError]. *)
Variable encodeURIComponent : jsstring -> option jsstring.
Variable fault_message : fault -> jsstring.

(** WHATWG [URL] objects. [URL_new] is [None] when the constructor throws. *)
Variable URL : Type.
Variable URL_new : jsstring -> option URL.
Variable searchParams_set : URL -> jsstring -> jsstring -> URL.
Variable searchParams_append : URL -> jsstring -> jsstring -> URL.

(** Base addresses, read from the process environment at start-up. *)
Variable LOS_BASE_URL : jsstring.
Variable DATA_XRPL_BASE_URL : jsstring.
Variable XRPL_RPC_URL : jsstring.
Variable XRPLMETA_BASE_URL : jsstring.
(** The path of the MCP endpoint on the HTTP transport. *)
Variable MCP_HTTP_PATH : jsstring.
(** [new URL(url, "http://localhost").pathname]; [None] when the
    constructor throws. *)
Variable URL_pathname : jsstring -> option jsstring.

(** The world outside the process: the upstream services behind [fetch]
    and the wall clock.  Both may answer differently on every call. *)
Variable World : Type.

Inductive target : Type :=
| TargetURL (u : URL)
| TargetString (s : jsstring).

(** The request headers are the same fixed pair on every call. *)
Record request : Type := Request {
  req_target : target;
  req_method : option jsstring;
  req_body : option jsstring
}.

Variable fetch : request -> World -> fetch_outcome * World.
(** [new Date().toISOString()] *)
Variable Date_toISOString : World -> jsstring * World.

(** Drops from a proof context the platform parameters that the statement
    does not mention. *)
Ltac unused :=
  try clear Date_toISOString; try clear fetch; try clear World;
  try clear URL_pathname; try clear MCP_HTTP_PATH;
  try clear XRPLMETA_BASE_URL; try clear XRPL_RPC_URL;
  try clear DATA_XRPL_BASE_URL; try clear LOS_BASE_URL;
  try clear searchParams_append; try clear searchParams_set;
  try clear URL_new; try clear URL; try clear fault_message;
  try clear encodeURIComponent; try clear toLowerCase;
  try clear JSON_stringify; try clear JSON_parse;
  try clear NumberToString; try clear StringToNumber.

Definition throw_fault {A} (f : fault) : result A :=
  Throw (JsError (fault_message f)).

(** *** Coercions *)

Definition join (sep : jsstring) (parts : list jsstring) : jsstring :=
  match parts with
  | [] => []
  | p :: ps => p ++ flat_map (fun q => sep ++ q) ps
  end.

(** [String(v)] and template-literal interpolation, on a value in which
    no object has an own member named [toString] (the [plain] values
    below).  On an object with such a member, which in a parsed JSON
    document is not callable, the language throws a [TypeError] where
    this function returns a string; statements that depend on the
    difference assume plain values. *)
Fixpoint ToString (v : json) : jsstring :=
  match v with
  | JUndefined => lit "undefined"
  | JNull => lit "null"
  | JBool true => lit "true"
  | JBool false => lit "false"
  | JNum n => NumberToString n
  | JStr s => s
  | JArr items =>
      join (lit ",")
        (List.map (fun x => if nullish x then [] else ToString x) items)
  | JObj _ => lit "[object Object]"
  end.

(** [Number(v)], on the same values as [ToString]: the conversion of an
    object with an own member named [toString] throws a [TypeError] in
    the language. *)
Definition Number (v : json) : float :=
  match v with
  | JUndefined => PrimFloat.nan
  | JNull => 0%float
  | JBool b => if b then 1%float else 0%float
  | JNum n => n
  | JStr s => StringToNumber s
  | JArr _ => StringToNumber (ToString v)
  | JObj _ => PrimFloat.nan
  end.

Definition toNum (value : json) : option float :=
  let n := Number value in
  if PrimFloat.is_finite n then Some n else None.

Definition parseXrpDrops (value : json) : option float :=
  match toNum value with
  | None => None
  | Some drops => Some (drops / 1000000)%float
  end.

(** [v.key] on a receiver that may be [null] or [undefined]. *)
Definition member (v : json) (key : jsstring) : result json :=
  if nullish v then throw_fault (ReadOfNullish v key) else Ok (prop v key).

(** The string iterator yields code points: a surrogate pair is one item. *)
Fixpoint code_points (s : jsstring) : list jsstring :=
  match s with
  | [] => []
  | c :: rest =>
      match rest with
      | d :: rest' =>
          if is_high_surrogate c && is_low_surrogate d
          then [c; d] :: code_points rest'
          else [c] :: code_points rest
      | [] => [[c]]
      end
  end.

(** The rows visited by [for (const row of v)]. *)
Definition iterate (v : json) : result (list json) :=
  match v with
  | JArr items => Ok items
  | JStr s => Ok (List.map JStr (code_points s))
  | _ => throw_fault (NotIterable v)
  end.

(** *** Schema-tolerant search *)

Fixpoint first_number (value : json) (keys : list jsstring) : option float :=
  match keys with
  | [] => None
  | key :: keys' =>
      if has_key key value then
        match toNum (prop value key) with
        | Some n => Some n
        | None => first_number value keys'
        end
      else first_number value keys'
  end.

(** [Object.values(value)] of an object or array. *)
Definition Object_values (v : json) : list json :=
  match v with
  | JObj props => List.map snd props
  | JArr items => items
  | _ => []
  end.

Fixpoint pickFirstNumber (value : json) (keys : list jsstring)
  : option float :=
  let nested_loop :=
    fix nested_loop (vs : list json) : option float :=
      match vs with
      | [] => None
      | nested :: vs' =>
          match (if is_object nested then pickFirstNumber nested keys
                 else None) with
          | Some n => Some n
          | None => nested_loop vs'
          end
      end in
  match value with
  | JObj props =>
      match first_number value keys with
      | Some n => Some n
      | None =>
          (fix props_loop (ps : list (jsstring * json)) : option float :=
             match ps with
             | [] => None
             | (_, nested) :: ps' =>
                 match (if is_object nested then pickFirstNumber nested keys
                        else None) with
                 | Some n => Some n
                 | None => props_loop ps'
                 end
             end) props
      end
  | JArr items =>
      match first_number value keys with
      | Some n => Some n
      | None => nested_loop items
      end
  | _ => None
  end.

(** *** Handler computations

    A handler runs against the world and may throw.  The trace of
    completed upstream calls is ghost state: no handler reads it. *)

Record state : Type := State {
  world : World;
  trace : list event
}.

Definition M (A : Type) : Type := state -> result A * state.

Definition ret {A} (a : A) : M A := fun st => (Ok a, st).

Definition bind {A B} (m : M A) (f : A -> M B) : M B :=
  fun st =>
    match m st with
    | (Ok a, st') => f a st'
    | (Throw e, st') => (Throw e, st')
    end.

Definition throw {A} (e : thrown) : M A := fun st => (Throw e, st).

(** A pure step that can throw. *)
Definition lift {A} (r : result A) : M A := fun st => (r, st).

Notation "x <- m ;; k" := (bind m (fun x => k))
  (at level 61, m at next level, right associativity).

Definition nowIso : M jsstring :=
  fun st =>
    let (t, w) := Date_toISOString (world st) in
    (Ok t, {| world := w; trace := trace st |}).

(** [try { return await m } catch { return null }]: every call made inside
    is an optional one. *)
Definition soft (m : M json) : M json :=
  fun st =>
    let (r, st') := m {| world := world st; trace := [] |} in
    (Ok (match r with Ok v => v | Throw _ => JNull end),
     {| world := world st';
        trace := trace st ++ List.map demote (trace st') |}).

(** The [try { ... } catch (error) { return toolError(error); }] that wraps
    every handler body. *)
Definition handler (body : M tool_output) : state -> tool_output * state :=
  fun st =>
    match body st with
    | (Ok out, st') => (out, st')
    | (Throw error, st') => (toolError error, st')
    end.

(** *** Upstream adapter *)

Definition query_entry (url : URL) (kv : jsstring * json) : URL :=
  let (key, value) := kv in
  match value with
  | JUndefined | JNull | JStr [] => url
  | JArr items =>
      fold_left (fun u item => searchParams_append u key (ToString item))
                items url
  | JObj _ => searchParams_set url key (JSON_stringify value)
  | _ => searchParams_set url key (ToString value)
  end.

Definition urlWithPathAndQuery (baseUrl path : jsstring)
    (query : option (list (jsstring * json))) : result URL :=
  let base := normalizeBaseUrl baseUrl in
  let normalizedPath :=
    if startsWith path (lit "/") then path else lit "/" ++ path in
  match URL_new (base ++ normalizedPath) with
  | None => throw_fault (InvalidURL (base ++ normalizedPath))
  | Some url =>
      match query with
      | Some entries => Ok (fold_left query_entry entries url)
      | None => Ok url
      end
  end.

(** The body decoding of [fetchWithParse]. *)
Definition decodeBody (contentType bodyText : jsstring) : json :=
  if includes contentType (lit "application/json")
     || startsWith bodyText (lit "{")
     || startsWith bodyText (lit "[")
  then
    match bodyText with
    | [] => JNull
    | _ =>
        match JSON_parse bodyText with
        | Some parsed => parsed
        | None => JStr bodyText
        end
    end
  else JStr bodyText.

Definition http_error (r : response) (body : json) : thrown :=
  let detail :=
    JObj [(lit "status", JNum (num_of_N (status r)));
          (lit "statusText", JStr (statusText r));
          (lit "body", body)] in
  JsError (lit "HTTP " ++ NumberToString (num_of_N (status r)) ++ lit " "
           ++ statusText r ++ lit ": " ++ JSON_stringify detail).

(** What [fetchWithParse] makes of the outcome of [fetch]. *)
Definition parse_outcome (o : fetch_outcome) : result json :=
  match o with
  | Rejected e => Throw e
  | Resolved r =>
      match text r with
      | Throw e => Throw e
      | Ok bodyText =>
          let contentType :=
            match content_type r with
            | Some ct => ct
            | None => []
            end in
          let body := decodeBody contentType bodyText in
          if negb (ok r) then Throw (http_error r body) else Ok body
      end
  end.

Definition fetchWithParse (req : request) : M json :=
  fun st =>
    let (o, w) := fetch req (world st) in
    let r := parse_outcome o in
    (r, {| world := w;
           trace := trace st ++ [{| ev_site := Mandatory; ev_outcome := r |}] |}).

Definition GET (u : URL) : request :=
  {| req_target := TargetURL u; req_method := None; req_body := None |}.

Definition callAt (baseUrl path : jsstring)
    (query : option (list (jsstring * json))) : M json :=
  url <- lift (urlWithPathAndQuery baseUrl path query) ;;
  fetchWithParse (GET url).

Definition callLos (path : jsstring) (query : option (list (jsstring * json)))
  : M json :=
  callAt LOS_BASE_URL path query.

(** Soft LOS call for optional enrichments. *)
Definition tryLos (path : jsstring) (query : option (list (jsstring * json)))
  : M json :=
  soft (callLos path query).

Definition xrplRpc (method : jsstring) (params : json) : M json :=
  fetchWithParse
    {| req_target := TargetString XRPL_RPC_URL;
       req_method := Some (lit "POST");
       req_body :=
         Some (JSON_stringify
                 (JObj [(lit "method", JStr method);
                        (lit "params", params);
                        (lit "id", JStr (lit "xrpl-mcp"))])) |}.

(** [encodeURIComponent(s)] inside a template literal. *)
Definition encoded (s : jsstring) : M jsstring :=
  match encodeURIComponent s with
  | Some e => ret e
  | None => lift (throw_fault URIMalformed)
  end.

(** *** Envelope *)

Notation "v # k" := (prop v (lit k)) (at level 20, left associativity).

Definition field (k : string) (v : json) : jsstring * json := (lit k, v).

(** [a ?? b ?? ...] *)
Notation "a ?? b" := (nullish_or a b) (at level 45, right associativity).

(** [{ system, method, at: nowIso() }] *)
Definition source (system method : string) : M json :=
  t <- nowIso ;;
  ret (JObj [field "system" (JStr (lit system));
             field "method" (JStr (lit method));
             field "at" (JStr t)]).

Definition src (system method : string) : string * string := (system, method).

Fixpoint sources_of (l : list (string * string)) : M (list json) :=
  match l with
  | [] => ret []
  | (system, method) :: l' =>
      x <- source system method ;;
      xs <- sources_of l' ;;
      ret (x :: xs)
  end.

(** Shared response envelope for agent-oriented tools to report
    provenance and freshness.  Every composite handler supplies
    [freshness.asOfTime]; [asOfLedger] may be left [undefined]. *)
Definition envelope (data : json) (sources : list json)
    (asOfLedger : json) (asOfTime : jsstring) (warnings : list jsstring)
  : json :=
  JObj [field "data" data;
        field "sources" (JArr sources);
        field "freshness"
          (JObj [field "asOfLedger" (asOfLedger ?? JNull);
                 field "asOfTime" (JStr asOfTime)]);
        field "warnings" (JArr (List.map JStr warnings))].

(** [toToolEnvelope({ data, sources: [...], freshness: { asOfLedger,
    asOfTime: nowIso() }, warnings })]: the clock is read once per source
    and once for the freshness, in that order. *)
Definition toToolEnvelope (data : json) (sources : list (string * string))
    (asOfLedger : json) (warnings : list jsstring) : M tool_output :=
  srcs <- sources_of sources ;;
  t <- nowIso ;;
  ret (toolResult (envelope data srcs asOfLedger t warnings)).

Definition xrplResultEnvelope (payload : json) : json :=
  if negb (is_object payload) then JObj []
  else if has_key (lit "result") payload
          && truthy (payload # "result")
          && is_object (payload # "result")
  then payload # "result"
  else payload.

(** [Array.isArray(v) ? v : []] *)
Definition array_or_empty (v : json) : list json :=
  match v with
  | JArr items => items
  | _ => []
  end.

(** *** Freshness probe *)

Record freshness_probe : Type := FreshnessProbe {
  latestIndexedLedger : option float;
  sourcePath : option jsstring;
  raw : json
}.

Definition LEDGER_ALIASES : list jsstring :=
  [lit "latestIndexedLedger"; lit "latest_indexed_ledger";
   lit "indexed_ledger"; lit "ledger_index"; lit "ledger"].

Definition FRESHNESS_CANDIDATES : list jsstring :=
  [lit "/ingestion-watermark"; lit "/ingestion/status"; lit "/status";
   lit "/health"; lit "/meta"].

Fixpoint probe (candidates : list jsstring) : M freshness_probe :=
  match candidates with
  | [] =>
      ret {| latestIndexedLedger := None; sourcePath := None; raw := JNull |}
  | path :: rest =>
      payload <- tryLos path None ;;
      if negb (truthy payload) then probe rest
      else
        match pickFirstNumber payload LEDGER_ALIASES with
        | Some n =>
            ret {| latestIndexedLedger := Some n;
                   sourcePath := Some path;
                   raw := payload |}
        | None => probe rest
        end
  end.

(** LOS ingestion freshness is probed across a few likely status
    endpoints. *)
Definition losFreshnessProbe : M freshness_probe := probe FRESHNESS_CANDIDATES.

(** *** network_overview *)

(** [validatedLedgerIndex && latest !== null ? validatedLedgerIndex - latest
    : null] *)
Definition ledgerLag (validatedLedgerIndex latest : option float)
  : option float :=
  match validatedLedgerIndex, latest with
  | Some v, Some l =>
      if truthy (JNum v) then Some (v - l)%float else None
  | _, _ => None
  end.

Definition network_overview_body : M tool_output :=
  serverInfoRaw <- xrplRpc (lit "server_info") (JArr [JObj []]) ;;
  let serverInfo :=
    xrplResultEnvelope serverInfoRaw # "info"
    ?? xrplResultEnvelope serverInfoRaw in
  let validatedLedger := serverInfo # "validated_ledger" ?? JObj [] in
  let validatedLedgerIndex :=
    num_or (toNum (validatedLedger # "seq"))
      (num_or (toNum (validatedLedger # "ledger_index"))
         (toNum (validatedLedger # "index"))) in
  losFreshness <- losFreshnessProbe ;;
  let lag := ledgerLag validatedLedgerIndex (latestIndexedLedger losFreshness) in
  let warnings :=
    match latestIndexedLedger losFreshness with
    | None =>
        [lit "LOS ingestion watermark endpoint was not detected from known paths."]
    | Some _ => []
    end in
  toToolEnvelope
    (JObj
       [field "network"
          (serverInfo # "network_id" ?? serverInfo # "network"
           ?? JStr (lit "mainnet"));
        field "validatedLedgerIndex" (json_of_num validatedLedgerIndex);
        field "validatedLedgerCloseTime"
          (validatedLedger # "close_time_human"
           ?? validatedLedger # "close_time_iso" ?? JNull);
        field "serverHealthSummary"
          (JObj [field "serverState" (serverInfo # "server_state" ?? JNull);
                 field "completeLedgers"
                   (serverInfo # "complete_ledgers" ?? JNull);
                 field "loadFactor"
                   (json_of_num (toNum (serverInfo # "load_factor")));
                 field "peers" (json_of_num (toNum (serverInfo # "peers")));
                 field "warnings" (serverInfo # "warnings" ?? JArr [])]);
        field "keyRates"
          (JObj [field "ledgerLagVsLos" (json_of_num lag);
                 field "loadFactor"
                   (json_of_num (toNum (serverInfo # "load_factor")));
                 field "peers" (json_of_num (toNum (serverInfo # "peers")))]);
        field "dataFreshness"
          (JObj [field "losLatestIndexedLedger"
                   (json_of_num (latestIndexedLedger losFreshness));
                 field "losSourcePath"
                   (json_of_ostr (sourcePath losFreshness))])])
    [src "rippled" "server_info"; src "LOS" "ingestion watermark probe"]
    (json_of_num validatedLedgerIndex)
    warnings.

Definition network_overview := handler network_overview_body.

(** *** ledger_summary *)

Definition warn_if (c : bool) (w : string) : list jsstring :=
  if c then [lit w] else [].

Definition ledger_summary_body (ledger_index ledger_hash : json)
  : M tool_output :=
  let params0 :=
    [field "transactions" (JBool false); field "expand" (JBool false)] in
  let params1 :=
    match ledger_index with
    | JUndefined => params0
    | _ => obj_set (lit "ledger_index") ledger_index params0
    end in
  let params :=
    if truthy ledger_hash then obj_set (lit "ledger_hash") ledger_hash params1
    else params1 in
  ledgerRaw <- xrplRpc (lit "ledger") (JArr [JObj params]) ;;
  let ledgerResult := xrplResultEnvelope ledgerRaw in
  let ledger := ledgerResult # "ledger" ?? JObj [] in
  let canonicalIndex :=
    num_or (toNum (ledger # "ledger_index"))
      (num_or (toNum (ledger # "ledger_index_min"))
         (toNum (ledgerResult # "ledger_index"))) in
  losArtifacts <-
    match canonicalIndex with
    | Some n => tryLos (lit "/ledger/" ++ NumberToString n) None
    | None =>
        if truthy ledger_hash
        then tryLos (lit "/ledger/" ++ ToString ledger_hash) None
        else ret JNull
    end ;;
  let warnings :=
    warn_if (negb (truthy losArtifacts))
      "No LOS artifact endpoint matched /ledger/{index|hash}." in
  toToolEnvelope
    (JObj
       [field "ledgerIndex" (json_of_num canonicalIndex);
        field "ledgerHash"
          (ledger # "ledger_hash" ?? ledger # "hash" ?? ledger_hash ?? JNull);
        field "closeTime"
          (ledger # "close_time_human" ?? ledger # "close_time_iso"
           ?? ledgerResult # "close_time_human" ?? JNull);
        field "txCount"
          (json_of_num
             (num_or (toNum (ledger # "txn_count"))
                (toNum (ledgerResult # "txn_count"))));
        field "feeMetrics"
          (JObj [field "baseFeeXrp"
                   (json_of_num (parseXrpDrops (ledger # "base_fee")));
                 field "reserveBaseXrp"
                   (json_of_num (parseXrpDrops (ledger # "reserve_base")));
                 field "reserveIncrementXrp"
                   (json_of_num (parseXrpDrops (ledger # "reserve_inc")))]);
        field "representativeTxHashes"
          (JArr (firstn 5 (array_or_empty (ledger # "transactions"))));
        field "losArtifacts" losArtifacts])
    [src "rippled" "ledger"; src "LOS" "GET /ledger/{index|hash} probe"]
    (json_of_num canonicalIndex)
    warnings.

Definition ledger_summary (ledger_index ledger_hash : json) :=
  handler (ledger_summary_body ledger_index ledger_hash).

(** *** tx_explain *)

(** The body of [addCurrency] inside [extractTokensFromTx]. *)
Definition addCurrency (tokens : list jsstring) (amount : json)
  : list jsstring :=
  if negb (truthy amount) then tokens
  else
    match amount with
    | JStr _ => set_add (lit "XRP") tokens
    | _ =>
        if truthy (amount # "currency") && truthy (amount # "issuer")
        then set_add (ToString (amount # "currency") ++ lit "."
                      ++ ToString (amount # "issuer")) tokens
        else tokens
    end.

(** [node.ModifiedNode || node.CreatedNode || node.DeletedNode] *)
Definition node_body (node : json) : result json :=
  rbind (member node (lit "ModifiedNode")) (fun _ =>
    Ok (logical_or (node # "ModifiedNode")
          (logical_or (node # "CreatedNode") (node # "DeletedNode")))).

Definition extractTokensFromTx (tx meta : json) : result (list jsstring) :=
  let t1 := addCurrency [] (tx # "Amount") in
  let t2 := addCurrency t1 (tx # "TakerGets") in
  let t3 := addCurrency t2 (tx # "TakerPays") in
  let t4 := addCurrency t3 (meta # "delivered_amount") in
  let nodes := array_or_empty (meta # "AffectedNodes") in
  rfold
    (fun tokens node =>
       rbind (node_body node) (fun body =>
         let finalFields := logical_or (body # "FinalFields") (JObj []) in
         let newFields := logical_or (body # "NewFields") (JObj []) in
         Ok (addCurrency (addCurrency tokens (finalFields # "Balance"))
                         (newFields # "Balance"))))
    nodes t4.

(** [Set.prototype.add] on a set of arbitrary values. *)
Definition vset_add (x : json) (l : list json) : list json :=
  if existsb (same_value_zero x) l then l else l ++ [x].

Definition add_if_truthy (x : json) (l : list json) : list json :=
  if truthy x then vset_add x l else l.

Definition affected_accounts (meta sender destination : json)
  : result (list json) :=
  let nodes := array_or_empty (meta # "AffectedNodes") in
  rbind
    (rfold
       (fun accounts node =>
          rbind (node_body node) (fun n =>
            let ff := logical_or (n # "FinalFields") (JObj []) in
            let nf := logical_or (n # "NewFields") (JObj []) in
            Ok (add_if_truthy (nf # "Account")
                  (add_if_truthy (ff # "Account") accounts))))
       nodes [])
    (fun accounts =>
       Ok (add_if_truthy destination (add_if_truthy sender accounts))).

Definition tx_explain_body (tx_hash : jsstring) : M tool_output :=
  losTx0 <-
    tryLos (lit "/transactions")
      (Some [field "tx_hash" (JStr tx_hash); field "hash" (JStr tx_hash);
             field "size" (JNum 1)]) ;;
  let losTx :=
    match losTx0 # "transactions" with
    | JArr (first :: _) => first
    | _ => losTx0
    end in
  txRaw <-
    xrplRpc (lit "tx") (JArr [JObj [field "transaction" (JStr tx_hash)]]) ;;
  let txResult := xrplResultEnvelope txRaw in
  let tx := txResult # "tx_json" ?? txResult in
  let meta := txResult # "meta" ?? txResult # "metaData" ?? JNull in
  let transactionType := tx # "TransactionType" ?? JNull in
  tokensInvolved <- lift (extractTokensFromTx tx meta) ;;
  let sender := tx # "Account" ?? JNull in
  let destination := tx # "Destination" ?? JNull in
  let amountIn := tx # "SendMax" ?? tx # "Amount" ?? JNull in
  let amountOut :=
    meta # "delivered_amount" ?? tx # "DeliverMax" ?? tx # "Amount"
    ?? JNull in
  let explanation :=
    trim (ToString (transactionType ?? JStr (lit "Transaction"))
          ++ lit " by " ++ ToString (sender ?? JStr (lit "unknown"))
          ++ lit " "
          ++ (if truthy destination then lit "to " ++ ToString destination
              else [])) in
  affectedAccounts <- lift (affected_accounts meta sender destination) ;;
  let warnings :=
    warn_if (negb (truthy losTx))
      "LOS enriched transaction record not found; classification is rippled-derived." in
  toToolEnvelope
    (JObj
       [field "txHash" (JStr tx_hash);
        field "canonical" (JObj [field "tx" tx; field "meta" meta]);
        field "classification"
          (JObj
             [field "isDexTrade"
                (JBool (strict_eq_str transactionType (lit "OfferCreate")
                        || strict_eq_str transactionType (lit "AMMSwap")
                        || strict_eq_str transactionType (lit "OfferCancel")));
              field "isTransfer"
                (JBool (strict_eq_str transactionType (lit "Payment")));
              field "isAmmRelated"
                (JBool (startsWith
                          (ToString (logical_or transactionType (JStr [])))
                          (lit "AMM")));
              field "tokensInvolved" (JArr (List.map JStr tokensInvolved));
              field "losFlags" (losTx # "flags" ?? JNull)]);
        field "humanExplanation"
          (JObj
             [field "summary" (JStr explanation);
              field "amounts"
                (JObj [field "in" amountIn; field "out" amountOut]);
              field "parties"
                (JObj [field "sender" sender;
                       field "destination" destination])]);
        field "relatedObjects"
          (JObj
             [field "affectedAccounts" (JArr affectedAccounts);
              field "tokens" (JArr (List.map JStr tokensInvolved));
              field "amm" (losTx # "amm" ?? JNull);
              field "offers" (losTx # "offers" ?? JNull)]);
        field "losEnrichment" losTx])
    [src "LOS" "GET /transactions"; src "rippled" "tx"]
    (json_of_num (toNum (txResult # "ledger_index")))
    warnings.

Definition tx_explain (tx_hash : jsstring) :=
  handler (tx_explain_body tx_hash).

(** *** account_overview *)

(** [h[key] = (h[key] || 0) + 1] on a histogram object whose values are
    counts, for the keys that are [ordinary_key]s below: not a member
    name inherited from [Object.prototype] (for which [h[key]] reads a
    function or an object, and the entry becomes a string, or, for
    [__proto__], no entry is made) and not a string of digits (which is
    enumerated before the other keys).  Statements about histograms
    assume ordinary keys. *)
Fixpoint bump (key : jsstring) (h : list (jsstring * nat))
  : list (jsstring * nat) :=
  match h with
  | [] => [(key, 1%nat)]
  | (k, n) :: h' =>
      if jsstring_eqb k key then (k, S n) :: h' else (k, n) :: bump key h'
  end.

Definition histogram_json (h : list (jsstring * nat)) : json :=
  JObj (List.map (fun kn => (fst kn, JNum (num_of_nat (snd kn)))) h).

(** [m.set(key, (m.get(key) || 0) + 1)] on a [Map] of counts. *)
Fixpoint map_bump (key : json) (m : list (json * nat)) : list (json * nat) :=
  match m with
  | [] => [(key, 1%nat)]
  | (k, n) :: m' =>
      if same_value_zero k key then (k, S n) :: m'
      else (k, n) :: map_bump key m'
  end.

(** One trust line of [topTokensByAbsBalance], before sorting. *)
Definition line_summary (line : json) : result (float * json) :=
  rbind (member line (lit "currency")) (fun currency =>
    let balance := Number (line # "balance") in
    Ok (PrimFloat.abs balance,
        JObj [field "currency" currency;
              field "issuer" (line # "account");
              field "balance" (JNum balance);
              field "absBalance" (JNum (PrimFloat.abs balance))])).

(** The comparator [(a, b) => b.absBalance - a.absBalance] is positive.
    (With a [NaN] balance the comparator is inconsistent and the order
    the engine produces is its own.) *)
Definition abs_after (a b : float * json) : bool :=
  (0 <? fst b - fst a)%float.

Definition topTokensByAbsBalance (lines : json) : result (list json) :=
  rbind (rmap line_summary (array_or_empty lines)) (fun rows =>
    Ok (firstn 5 (List.map snd (stable_sort abs_after rows)))).

Record activity : Type := Activity {
  txTypeHistogram : list (jsstring * nat);
  counterparties : list (json * nat)
}.

(** One iteration of the loop over the account's transactions. *)
Definition activity_step (account : jsstring) (acc : activity) (row : json)
  : result activity :=
  rbind (member row (lit "tx_json")) (fun tx_json =>
    let tx := logical_or tx_json (logical_or (row # "tx") (JObj [])) in
    let type := logical_or (tx # "TransactionType") (JStr (lit "Unknown")) in
    let cp := logical_or (tx # "Destination") (tx # "Account") in
    Ok {| txTypeHistogram := bump (ToString type) (txTypeHistogram acc);
          counterparties :=
            if truthy cp && strict_neq_str cp account
            then map_bump cp (counterparties acc)
            else counterparties acc |}).

Definition recent_activity (account : jsstring) (txs : json)
  : result activity :=
  rbind (iterate txs) (fun rows =>
    rfold (activity_step account) rows
      {| txTypeHistogram := []; counterparties := [] |}).

(** The comparator [(a, b) => b[1] - a[1]] is positive. *)
Definition count_after (a b : json * nat) : bool := (snd a <? snd b)%nat.

Definition recentCounterparties (entries : list (json * nat))
  : list (json * nat) :=
  firstn 10 (stable_sort count_after entries).

Definition counterparty_json (e : json * nat) : json :=
  JObj [field "address" (fst e);
        field "interactions" (JNum (num_of_nat (snd e)))].

Definition RISK_TRUSTLINES : jsstring :=
  lit "High trustline count may indicate hub/exchange behavior.".
Definition RISK_OWNER_COUNT : jsstring :=
  lit "High owner count; reserve pressure likely high.".
Definition RISK_FLAGS : jsstring :=
  lit "Account has non-zero flags; inspect issuer permissions.".

Definition riskIndicators (trustlineCount : nat) (accountData : json)
  : list jsstring :=
  (if (250 <? trustlineCount)%nat then [RISK_TRUSTLINES] else [])
  ++ (if (1000 <? Number (logical_or (accountData # "OwnerCount") (JNum 0)))%float
      then [RISK_OWNER_COUNT] else [])
  ++ (if negb (Number (logical_or (accountData # "Flags") (JNum 0)) =? 0)%float
      then [RISK_FLAGS] else []).

Definition num_option (v : json) (default : float) : float :=
  match toNum v with
  | Some n => n
  | None => default
  end.

Definition account_overview_body (account : jsstring) (options : json)
  : M tool_output :=
  let txLimit := num_option (options # "tx_limit") 100 in
  let linesLimit := num_option (options # "lines_limit") 400 in
  infoRaw <-
    xrplRpc (lit "account_info")
      (JArr [JObj [field "account" (JStr account);
                   field "ledger_index" (JStr (lit "validated"))]]) ;;
  linesRaw <-
    xrplRpc (lit "account_lines")
      (JArr [JObj [field "account" (JStr account);
                   field "ledger_index" (JStr (lit "validated"));
                   field "limit" (JNum linesLimit)]]) ;;
  txRaw <-
    xrplRpc (lit "account_tx")
      (JArr [JObj [field "account" (JStr account);
                   field "ledger_index_min" (JNum (-1));
                   field "ledger_index_max" (JNum (-1));
                   field "limit" (JNum txLimit)]]) ;;
  let accountData := xrplResultEnvelope infoRaw # "account_data" ?? JObj [] in
  let lines := xrplResultEnvelope linesRaw # "lines" ?? JArr [] in
  let txs := xrplResultEnvelope txRaw # "transactions" ?? JArr [] in
  let trustlineCount := List.length (array_or_empty lines) in
  topTokens <- lift (topTokensByAbsBalance lines) ;;
  act <- lift (recent_activity account txs) ;;
  let ownerCount := Number (logical_or (accountData # "OwnerCount") (JNum 0)) in
  let reserveEstimateXrp := (1 + ownerCount * 0.2)%float in
  toToolEnvelope
    (JObj
       [field "account" (JStr account);
        field "xrpBalance" (json_of_num (parseXrpDrops (accountData # "Balance")));
        field "ownerCount" (JNum ownerCount);
        field "reserveEstimateXrp" (JNum reserveEstimateXrp);
        field "flags" (accountData # "Flags" ?? JNum 0);
        field "trustlines"
          (JObj [field "count" (JNum (num_of_nat trustlineCount));
                 field "topTokensByBalance" (JArr topTokens)]);
        field "recentActivity"
          (JObj [field "txTypeHistogram"
                   (histogram_json (txTypeHistogram act));
                 field "recentCounterparties"
                   (JArr (List.map counterparty_json
                            (recentCounterparties (counterparties act))))]);
        field "riskIndicators"
          (JArr (List.map JStr (riskIndicators trustlineCount accountData)))])
    [src "rippled" "account_info"; src "rippled" "account_lines";
     src "rippled" "account_tx"]
    (json_of_num (toNum (xrplResultEnvelope infoRaw # "ledger_current_index")))
    [].

Definition account_overview (account : jsstring) (options : json) :=
  handler (account_overview_body account options).

(** *** token_overview *)

Definition XRP_ASSET : json := JObj [field "currency" (JStr (lit "XRP"))].

(** [Array.isArray(v) && v.length > 0 ? v[0] : null] *)
Definition first_or_null (v : json) : json :=
  match v with
  | JArr (x :: _) => x
  | _ => JNull
  end.

(** [xrplResultEnvelope(amm)?.amm ?? xrplResultEnvelope(amm) ?? null] *)
Definition amm_summary (amm : json) : json :=
  xrplResultEnvelope amm # "amm" ?? xrplResultEnvelope amm ?? JNull.

Definition token_overview_body (issuer currency : jsstring) (options : json)
  : M tool_output :=
  match tokenIdFromIssuerCurrency issuer currency with
  | None =>
      ret (toolError_str
             (lit "Unable to normalize currency to XRPL 160-bit code."))
  | Some tokenID =>
      tokenPath <- encoded tokenID ;;
      tokenMeta <- tryLos (lit "/tokens/" ++ tokenPath) None ;;
      let txWindowSize := num_option (options # "tx_window_size") 200 in
      tokenTx <-
        tryLos (lit "/transactions")
          (Some [field "token" (JStr tokenID);
                 field "transactionType" (JStr (lit "transfer"));
                 field "size" (JNum txWindowSize);
                 field "sort_field" (JStr (lit "timestamp"));
                 field "sort_order" (JStr (lit "desc"))]) ;;
      let asset :=
        JObj [field "currency" (JStr currency);
              field "issuer" (JStr issuer)] in
      book <-
        xrplRpc (lit "book_offers")
          (JArr [JObj [field "taker_gets" asset;
                       field "taker_pays" XRP_ASSET]]) ;;
      amm <-
        soft (xrplRpc (lit "amm_info")
                (JArr [JObj [field "asset" asset;
                             field "asset2" XRP_ASSET]])) ;;
      let offers := xrplResultEnvelope book # "offers" ?? JArr [] in
      let bestAsk := first_or_null offers in
      let warnings :=
        warn_if (negb (truthy tokenMeta))
          "LOS token metadata not found for normalized tokenID." in
      toToolEnvelope
        (JObj
           [field "token"
              (JObj [field "issuer" (JStr issuer);
                     field "currency" (JStr currency);
                     field "tokenID" (JStr tokenID)]);
            field "metadata" (tokenMeta # "metadata" ?? tokenMeta ?? JNull);
            field "trustlineAndHolderStats"
              (tokenMeta # "holderStats" ?? tokenMeta # "holders" ?? JNull);
            field "liquiditySummary"
              (JObj [field "orderbookBestAsk" bestAsk;
                     field "amm" (amm_summary amm)]);
            field "recentActivity"
              (JObj
                 [field "transferSampleSize"
                    (match tokenTx # "transactions" with
                     | JArr items => JNum (num_of_nat (List.length items))
                     | _ => JNull
                     end);
                  field "sample"
                    (match tokenTx # "transactions" with
                     | JArr items => JArr (firstn 10 items)
                     | _ => tokenTx
                     end)])])
        [src "LOS" "GET /tokens/{tokenID}"; src "LOS" "GET /transactions";
         src "rippled" "book_offers"; src "rippled" "amm_info"]
        (json_of_num (toNum (xrplResultEnvelope book # "ledger_index")))
        warnings
  end.

Definition token_overview (issuer currency : jsstring) (options : json) :=
  handler (token_overview_body issuer currency options).

(** *** market_snapshot *)

(** [Number(t.key || 0)] for a row [t] that may be [null]. *)
Definition row_number (t : json) (key : jsstring) : result float :=
  rbind (member t key) (fun v => Ok (Number (logical_or v (JNum 0)))).

(** [recentTrades.reduce((sum, t) => sum + Number(t.price || 0) *
    Number(t.amount || 0), 0)] *)
Definition vwapNumerator (recentTrades : list json) : result float :=
  rfold
    (fun sum t =>
       rbind (row_number t (lit "price")) (fun price =>
         rbind (row_number t (lit "amount")) (fun amount =>
           Ok (sum + price * amount)%float)))
    recentTrades 0%float.

(** [recentTrades.reduce((sum, t) => sum + Number(t.amount || 0), 0)] *)
Definition vwapDenominator (recentTrades : list json) : result float :=
  rfold
    (fun sum t =>
       rbind (row_number t (lit "amount")) (fun amount =>
         Ok (sum + amount)%float))
    recentTrades 0%float.

Definition vwap (recentTrades : list json) : result (option float) :=
  rbind (vwapNumerator recentTrades) (fun numerator =>
    rbind (vwapDenominator recentTrades) (fun denominator =>
      Ok (if (0 <? denominator)%float
          then Some (numerator / denominator)%float
          else None))).

(** [best?.quality ? Number(best.quality) : null] *)
Definition quality_of (best : json) : json :=
  if truthy (best # "quality") then JNum (Number (best # "quality"))
  else JNull.

Definition DEX_TRADE_QUERY (size : float) : list (jsstring * json) :=
  [field "transactionType" (JStr (lit "dex-trade"));
   field "size" (JNum size);
   field "sort_field" (JStr (lit "timestamp"));
   field "sort_order" (JStr (lit "desc"))].

Definition market_snapshot_body (base quote options : json) : M tool_output :=
  let window :=
    ToString (logical_or (options # "window") (JStr (lit "1h"))) in
  let txSize := num_option (options # "size") 200 in
  bookRaw <-
    xrplRpc (lit "book_offers")
      (JArr [JObj [field "taker_gets" base; field "taker_pays" quote;
                   field "limit" (JNum 50)]]) ;;
  let bookResult := xrplResultEnvelope bookRaw in
  let offers := bookResult # "offers" ?? JArr [] in
  let best := first_or_null offers in
  ammRaw <-
    soft (xrplRpc (lit "amm_info")
            (JArr [JObj [field "asset" base; field "asset2" quote]])) ;;
  losTrades <- tryLos (lit "/transactions") (Some (DEX_TRADE_QUERY txSize)) ;;
  let recentTrades := array_or_empty (losTrades # "transactions") in
  v <- lift (vwap recentTrades) ;;
  let warnings :=
    warn_if (Nat.eqb (List.length recentTrades) 0)
      "No LOS trade samples returned for VWAP estimate." in
  toToolEnvelope
    (JObj
       [field "orderbook"
          (JObj [field "bestBidAskProxy" best;
                 field "spread" (quality_of best);
                 field "mid" (quality_of best);
                 field "offerCount"
                   (JNum (num_of_nat (List.length (array_or_empty offers))))]);
        field "amm" (amm_summary ammRaw);
        field "recentTrades"
          (JObj [field "window" (JStr window);
                 field "count" (JNum (num_of_nat (List.length recentTrades)));
                 field "vwap" (json_of_num v);
                 field "sample" (JArr (firstn 20 recentTrades))])])
    [src "rippled" "book_offers"; src "rippled" "amm_info";
     src "LOS" "GET /transactions?transactionType=dex-trade"]
    (json_of_num (toNum (bookResult # "ledger_index")))
    warnings.

Definition market_snapshot (base quote options : json) :=
  handler (market_snapshot_body base quote options).

(** *** amm_overview *)

(** [swaps.reduce((sum, row) => sum + Math.abs(Number(row.amount || 0)), 0)] *)
Definition swap_volume (swaps : list json) : result float :=
  rfold
    (fun sum row =>
       rbind (row_number row (lit "amount")) (fun amount =>
         Ok (sum + PrimFloat.abs amount)%float))
    swaps 0%float.

Definition amm_overview_body (amm_id assetA assetB options : json)
  : M tool_output :=
  let params :=
    if truthy amm_id then [field "amm_account" amm_id]
    else [field "asset" assetA; field "asset2" assetB] in
  ammRaw <- xrplRpc (lit "amm_info") (JArr [JObj params]) ;;
  let amm := xrplResultEnvelope ammRaw # "amm" ?? xrplResultEnvelope ammRaw in
  let txSize := num_option (options # "size") 200 in
  losSwaps <- tryLos (lit "/transactions") (Some (DEX_TRADE_QUERY txSize)) ;;
  let swaps := array_or_empty (losSwaps # "transactions") in
  volume <- lift (swap_volume swaps) ;;
  toToolEnvelope
    (JObj
       [field "amm" amm;
        field "recentSwaps"
          (JObj [field "count" (JNum (num_of_nat (List.length swaps)));
                 field "volume" (JNum volume);
                 field "sample" (JArr (firstn 20 swaps))]);
        field "priceImpactHooks"
          (JObj [field "note"
                   (JStr (lit "Use reserves plus candidate trade size to estimate slippage."))])])
    [src "rippled" "amm_info";
     src "LOS" "GET /transactions?transactionType=dex-trade"]
    (json_of_num (toNum (xrplResultEnvelope ammRaw # "ledger_index")))
    [].

Definition amm_overview (amm_id assetA assetB options : json) :=
  handler (amm_overview_body amm_id assetA assetB options).

(** *** validator_set_overview *)

(** [Array.isArray(p?.key) ? p.key : Array.isArray(p) ? p : []] *)
Definition rows_of (payload : json) (key : jsstring) : list json :=
  match prop payload key with
  | JArr items => items
  | _ => array_or_empty payload
  end.

Definition operator_step (byOperator : list (jsstring * nat)) (v : json)
  : result (list (jsstring * nat)) :=
  rbind (member v (lit "domain")) (fun domain =>
    let org :=
      logical_or domain
        (logical_or (v # "operator")
           (logical_or (v # "owner") (JStr (lit "unknown")))) in
    Ok (bump (ToString org) byOperator)).

Definition validator_set_overview_body (options : json) : M tool_output :=
  group <-
    (if truthy (options # "group")
     then g <- encoded (ToString (options # "group")) ;; ret (lit "/" ++ g)
     else ret []) ;;
  validatorsRaw <-
    callAt DATA_XRPL_BASE_URL (lit "/v1/network/validators" ++ group) None ;;
  let list := rows_of validatorsRaw (lit "validators") in
  byOperator <- lift (rfold operator_step list []) ;;
  toToolEnvelope
    (JObj
       [field "validatorCount" (JNum (num_of_nat (List.length list)));
        field "byOperator" (histogram_json byOperator);
        field "currentSet" (JArr (firstn 200 list));
        field "notableEvents"
          (JObj [field "note"
                   (JStr (lit "Use repeated snapshots of this tool for 7/30/90 day diffing."))])])
    [src "VHS" "GET /v1/network/validators"]
    JUndefined
    [].

Definition validator_set_overview (options : json) :=
  handler (validator_set_overview_body options).

(** *** validator_health *)

(** [list.slice(-n)] *)
Definition last_n {A} (n : nat) (l : list A) : list A :=
  skipn (List.length l - n) l.

(** [recent.reduce((sum, r) => sum + Number(r.a || r.b || 0), 0)] *)
Definition report_total (a b : string) (recent : list json) : result float :=
  rfold
    (fun sum r =>
       rbind (member r (lit a)) (fun x =>
         Ok (sum + Number (logical_or x (logical_or (r # b) (JNum 0))))%float))
    recent 0%float.

Definition uptimeScore (signed missed : float) : option float :=
  if (0 <? signed + missed)%float
  then Some (signed / (signed + missed))%float
  else None.

Definition validator_health_body (pubkey_or_node : jsstring) (window : json)
  : M tool_output :=
  key1 <- encoded pubkey_or_node ;;
  validator <-
    callAt DATA_XRPL_BASE_URL (lit "/v1/network/validator/" ++ key1) None ;;
  key2 <- encoded pubkey_or_node ;;
  reports <-
    callAt DATA_XRPL_BASE_URL
      (lit "/v1/network/validator/" ++ key2 ++ lit "/reports") None ;;
  let reportList := rows_of reports (lit "reports") in
  let recent := last_n 30 reportList in
  signed <- lift (report_total "signed" "validations_signed" recent) ;;
  missed <- lift (report_total "missed" "validations_missed" recent) ;;
  let uptimeish := uptimeScore signed missed in
  let warnings :=
    warn_if (Nat.eqb (List.length reportList) 0)
      "Validator report history is empty for this key." in
  toToolEnvelope
    (JObj
       [field "validator" validator;
        field "window" (logical_or window (JStr (lit "last-30-reports")));
        field "metrics"
          (JObj [field "validationsSigned" (JNum signed);
                 field "validationsMissed" (JNum missed);
                 field "uptimeScore" (json_of_num uptimeish)]);
        field "recentReports" (JArr recent)])
    [src "VHS" "GET /v1/network/validator/{pubkey}";
     src "VHS" "GET /v1/network/validator/{pubkey}/reports"]
    JUndefined
    warnings.

Definition validator_health (pubkey_or_node : jsstring) (window : json) :=
  handler (validator_health_body pubkey_or_node window).

(** *** amendment_status *)

Definition amendment_status_body (network : json) : M tool_output :=
  vhInfo <- callAt DATA_XRPL_BASE_URL (lit "/v1/network/amendments/info") None ;;
  votes <-
    (if truthy network
     then
       n <- encoded (ToString network) ;;
       callAt DATA_XRPL_BASE_URL (lit "/v1/network/amendments/vote/" ++ n) None
     else ret JNull) ;;
  serverInfo <- xrplRpc (lit "server_info") (JArr [JObj []]) ;;
  toToolEnvelope
    (JObj
       [field "enabledAmendments"
          (vhInfo # "enabled" ?? vhInfo # "amendments" ?? vhInfo);
        field "votingStatus" votes;
        field "networkContext"
          (JObj [field "requested" (network ?? JNull);
                 field "rippledNetwork"
                   (xrplResultEnvelope serverInfo # "info" # "network_id"
                    ?? JNull)])])
    [src "VHS" "GET /v1/network/amendments/info"; src "rippled" "server_info"]
    JUndefined
    [].

Definition amendment_status (network : json) :=
  handler (amendment_status_body network).

(** *** search_transactions *)

Definition search_type_step (txTypes : list (jsstring * nat)) (row : json)
  : result (list (jsstring * nat)) :=
  rbind (member row (lit "transactionType")) (fun transactionType =>
    let t :=
      logical_or transactionType
        (logical_or (row # "type")
           (logical_or (row # "tx_type") (JStr (lit "unknown")))) in
    Ok (bump (ToString t) txTypes)).

(** [rows.reduce((sum, row) => sum + Number(row.amount || 0), 0)] *)
Definition totalAmount (rows : list json) : result float :=
  rfold
    (fun sum row =>
       rbind (row_number row (lit "amount")) (fun amount =>
         Ok (sum + amount)%float))
    rows 0%float.

Definition search_transactions_body (filters : list (jsstring * json))
    (cursor size : json) : M tool_output :=
  let query :=
    obj_set (lit "size")
      (size ?? JObj filters # "size" ?? JNum 200)
      (obj_set (lit "marker")
         (logical_or cursor (JObj filters # "marker")) filters) in
  payload <- callLos (lit "/transactions") (Some query) ;;
  let rows := rows_of payload (lit "transactions") in
  txTypes <- lift (rfold search_type_step rows []) ;;
  total <- lift (totalAmount rows) ;;
  toToolEnvelope
    (JObj
       [field "results" (JArr rows);
        field "cursor" (payload # "marker" ?? payload # "next" ?? JNull);
        field "aggregates"
          (JObj [field "count" (JNum (num_of_nat (List.length rows)));
                 field "txTypeHistogram" (histogram_json txTypes);
                 field "totalAmount" (JNum total)])])
    [src "LOS" "GET /transactions"]
    JUndefined
    [].

Definition search_transactions (filters : list (jsstring * json))
    (cursor size : json) :=
  handler (search_transactions_body filters cursor size).

(** *** resolve_entities *)

Record entity : Type := Entity {
  type : jsstring;
  normalized : json
}.

(** The entity and the suggested next tools for a trimmed input. *)
Definition classify (value : jsstring) : entity * list jsstring :=
  if test RE_HEX64 value then
    ({| type := lit "tx_hash"; normalized := JStr (toUpperCase value) |},
     [lit "tx_explain"; lit "xrpl_tx"])
  else if test RE_ACCOUNT value then
    ({| type := lit "account"; normalized := JStr value |},
     [lit "account_overview"; lit "xrpl_account_info"])
  else if test RE_TOKEN_ID value then
    ({| type := lit "token_id"; normalized := JStr (toUpperCase value) |},
     [lit "token_overview"; lit "los_get_token"])
  else if test RE_DIGITS value then
    ({| type := lit "ledger_index";
        normalized := JNum (StringToNumber value) |},
     [lit "ledger_summary"; lit "xrpl_ledger"])
  else if includes value (lit ".") then
    ({| type := lit "domain_or_host";
        normalized := JStr (toLowerCase value) |},
     [lit "xrplmeta_get"; lit "validator_set_overview"])
  else
    ({| type := lit "unknown"; normalized := JStr value |}, []).

Definition UNKNOWN_WARNING : jsstring :=
  lit "Input did not match known XRPL identifier patterns.".

Definition resolve_warnings (e : entity) : list jsstring :=
  if jsstring_eqb (type e) (lit "unknown") then [UNKNOWN_WARNING] else [].

Definition resolve_entities_body (input : jsstring) : M tool_output :=
  let value := trim input in
  let (entity, suggestions) := classify value in
  toToolEnvelope
    (JObj [field "entity"
             (JObj [field "type" (JStr (type entity));
                    field "normalized" (normalized entity)]);
           field "nextTools" (JArr (List.map JStr suggestions))])
    [src "local-resolver" "pattern-match"]
    JUndefined
    (resolve_warnings entity).

Definition resolve_entities (input : jsstring) :=
  handler (resolve_entities_body input).

(** *** Pass-through tools *)

(** [xrplRpc(method, params, id)] with an explicit request id. *)
Definition xrplRpcWithId (method : jsstring) (params id : json) : M json :=
  fetchWithParse
    {| req_target := TargetString XRPL_RPC_URL;
       req_method := Some (lit "POST");
       req_body :=
         Some (JSON_stringify
                 (JObj [(lit "method", JStr method);
                        (lit "params", params);
                        (lit "id", id)])) |}.

(** [encodeURIComponent(s)] in a path builder. *)
Definition encode_component (s : jsstring) : result jsstring :=
  match encodeURIComponent s with
  | Some e => Ok e
  | None => throw_fault URIMalformed
  end.

(** A path and an optional query, as the path builders return them. *)
Definition path_and_query : Type := jsstring * option (list (jsstring * json)).

Definition path_only (path : jsstring) : result path_and_query :=
  Ok (path, None).

(** [`${prefix}${encodeURIComponent(arg)}${suffix}`] *)
Definition path_with (prefix arg suffix : jsstring) : result path_and_query :=
  rbind (encode_component arg) (fun e => Ok (prefix ++ e ++ suffix, None)).

(** Wrapper for plain HTTP GET tools where path/query are derived from
    validated args. *)
Definition registerGetTool {A} (baseUrl : jsstring)
    (pathAndQueryBuilder : A -> result path_and_query) (args : A)
  : state -> tool_output * state :=
  handler
    (pq <- lift (pathAndQueryBuilder args) ;;
     url <- lift (urlWithPathAndQuery baseUrl (fst pq) (snd pq)) ;;
     data <- fetchWithParse (GET url) ;;
     ret (toolResult data)).

(** Wrapper for single-method XRPL JSON-RPC tools. *)
Definition registerRpcTool {A} (method : jsstring) (paramsBuilder : A -> json)
    (args : A) : state -> tool_output * state :=
  handler
    (data <- xrplRpc method (JArr [paramsBuilder args]) ;;
     ret (toolResult data)).

(** The tools registered through [registerGetTool], with their validated
    arguments (an optional string argument is [undefined] when absent). *)
Inductive get_tool : Type :=
| los_get_trusted_tokens
| los_get_transactions (args : list (jsstring * json))
| vh_list_networks
| vh_topology_nodes (network : json)
| vh_topology_node (pubkey : jsstring)
| vh_list_validators (group : json)
| vh_get_validator (pubkey : jsstring)
| vh_get_validator_manifests (pubkey : jsstring)
| vh_get_validator_reports (pubkey : jsstring)
| vh_get_daily_validator_reports
| vh_get_amendments_info
| vh_get_amendment_info (amendment : jsstring)
| vh_get_amendments_vote (network : jsstring)
| vh_get_amendment_vote (network identifier : jsstring)
| vh_health
| vh_metrics
| validator_history_get (path : jsstring)
    (query : option (list (jsstring * json))).

Definition get_base (t : get_tool) : jsstring :=
  match t with
  | los_get_trusted_tokens | los_get_transactions _ => LOS_BASE_URL
  | _ => DATA_XRPL_BASE_URL
  end.

(** [network ? `${prefix}/${encodeURIComponent(network)}` : prefix] *)
Definition path_optional (prefix : jsstring) (arg : json)
  : result path_and_query :=
  if truthy arg then path_with (prefix ++ lit "/") (ToString arg) []
  else path_only prefix.

Definition get_builder (t : get_tool) : result path_and_query :=
  match t with
  | los_get_trusted_tokens => path_only (lit "/trusted-tokens")
  | los_get_transactions args => Ok (lit "/transactions", Some args)
  | vh_list_networks => path_only (lit "/v1/network/networks")
  | vh_topology_nodes network =>
      path_optional (lit "/v1/network/topology/nodes") network
  | vh_topology_node pubkey =>
      path_with (lit "/v1/network/topology/node/") pubkey []
  | vh_list_validators group =>
      path_optional (lit "/v1/network/validators") group
  | vh_get_validator pubkey =>
      path_with (lit "/v1/network/validator/") pubkey []
  | vh_get_validator_manifests pubkey =>
      path_with (lit "/v1/network/validator/") pubkey (lit "/manifests")
  | vh_get_validator_reports pubkey =>
      path_with (lit "/v1/network/validator/") pubkey (lit "/reports")
  | vh_get_daily_validator_reports =>
      path_only (lit "/v1/network/validator_reports")
  | vh_get_amendments_info => path_only (lit "/v1/network/amendments/info")
  | vh_get_amendment_info amendment =>
      path_with (lit "/v1/network/amendment/info/") amendment []
  | vh_get_amendments_vote network =>
      path_with (lit "/v1/network/amendments/vote/") network []
  | vh_get_amendment_vote network identifier =>
      rbind (encode_component network) (fun n =>
        rbind (encode_component identifier) (fun i =>
          Ok (lit "/v1/network/amendment/vote/" ++ n ++ lit "/" ++ i, None)))
  | vh_health => path_only (lit "/v1/health")
  | vh_metrics => path_only (lit "/v1/metrics")
  | validator_history_get path query => Ok (path, query)
  end.

Definition get_tool_handler (t : get_tool) : state -> tool_output * state :=
  registerGetTool (get_base t) get_builder t.

(** The tools registered through [registerRpcTool]. *)
Inductive rpc_tool : Type :=
| xrpl_account_info | xrpl_account_objects | xrpl_account_lines
| xrpl_account_tx | xrpl_ledger | xrpl_ledger_data | xrpl_ledger_entry
| xrpl_tx | xrpl_book_offers | xrpl_amm_info | xrpl_nft_info
| xrpl_nft_history | xrpl_nfts_by_issuer | xrpl_server_info | xrpl_fee.

Definition rpc_method (t : rpc_tool) : jsstring :=
  match t with
  | xrpl_account_info => lit "account_info"
  | xrpl_account_objects => lit "account_objects"
  | xrpl_account_lines => lit "account_lines"
  | xrpl_account_tx => lit "account_tx"
  | xrpl_ledger => lit "ledger"
  | xrpl_ledger_data => lit "ledger_data"
  | xrpl_ledger_entry => lit "ledger_entry"
  | xrpl_tx => lit "tx"
  | xrpl_book_offers => lit "book_offers"
  | xrpl_amm_info => lit "amm_info"
  | xrpl_nft_info => lit "nft_info"
  | xrpl_nft_history => lit "nft_history"
  | xrpl_nfts_by_issuer => lit "nfts_by_issuer"
  | xrpl_server_info => lit "server_info"
  | xrpl_fee => lit "fee"
  end.

(** [(args) => args], or [() => ({})] for the two tools without
    arguments. *)
Definition rpc_params (t : rpc_tool) (args : json) : json :=
  match t with
  | xrpl_server_info | xrpl_fee => JObj []
  | _ => args
  end.

Definition rpc_tool_handler (t : rpc_tool) (args : json)
  : state -> tool_output * state :=
  registerRpcTool (rpc_method t) (rpc_params t) args.

Definition los_get_token (tokenID : jsstring) : state -> tool_output * state :=
  handler
    (e <- encoded tokenID ;;
     url <- lift (urlWithPathAndQuery LOS_BASE_URL (lit "/tokens/" ++ e) None) ;;
     data <- fetchWithParse (GET url) ;;
     ret (toolResult data)).

Definition los_batch_get_tokens (tokenIds : list jsstring)
  : state -> tool_output * state :=
  handler
    (url <- lift (urlWithPathAndQuery LOS_BASE_URL (lit "/tokens/batch-get")
                    None) ;;
     data <-
       fetchWithParse
         {| req_target := TargetURL url;
            req_method := Some (lit "POST");
            req_body :=
              Some (JSON_stringify
                      (JObj [field "tokenIds"
                               (JArr (List.map JStr tokenIds))])) |} ;;
     ret (toolResult data)).

(** [xrplRpc(method, params ?? [], id ?? "xrpl-mcp")] *)
Definition xrpl_public_api_call (method : jsstring) (params id : json)
  : state -> tool_output * state :=
  handler
    (data <-
       xrplRpcWithId method (params ?? JArr []) (id ?? JStr (lit "xrpl-mcp")) ;;
     ret (toolResult data)).

(** The one pass-through tool that answers with an envelope; its
    freshness is left to the envelope's defaults. *)
Definition xrplmeta_get (path : jsstring)
    (query : option (list (jsstring * json)))
  : state -> tool_output * state :=
  handler
    (url <- lift (urlWithPathAndQuery XRPLMETA_BASE_URL path query) ;;
     data <- fetchWithParse (GET url) ;;
     t <- nowIso ;;
     let sources :=
       [JObj [field "system" (JStr (lit "XRPLMeta"));
              (lit "method", JStr (lit "GET " ++ path));
              field "at" (JStr t)]] in
     asOfTime <- nowIso ;;
     ret (toolResult (envelope data sources JUndefined asOfTime []))).

(** The methods listed by [xrpl_list_recommended_methods]. *)
Definition RECOMMENDED_METHODS : list jsstring :=
  [lit "account_info"; lit "account_objects"; lit "account_lines";
   lit "account_tx"; lit "ledger"; lit "ledger_data"; lit "ledger_entry";
   lit "tx"; lit "book_offers"; lit "amm_info"; lit "nft_info";
   lit "nft_history"; lit "nfts_by_issuer"; lit "server_info"; lit "fee"].

Definition xrpl_list_recommended_methods : state -> tool_output * state :=
  fun st =>
    (toolResult
       (JObj [field "methods" (JArr (List.map JStr RECOMMENDED_METHODS))]),
     st).

(** *** HTTP transport *)

Definition getPathname (url fallback : jsstring) : jsstring :=
  match URL_pathname url with
  | Some pathname => pathname
  | None => fallback
  end.

(** What the MCP transport made of a request handed to it: the error it
    threw, if any, and whether the response headers were sent by then. *)
Record transport_outcome : Type := TransportOutcome {
  transport_error : option thrown;
  headersSent : bool
}.

(** What the request listener itself does with the response:
    [writeJson(res, statusCode, payload)], or nothing beyond what the
    transport did. *)
Inductive http_reply : Type :=
| WriteJson (statusCode : N) (payload : json)
| LeftToTransport.

(** [getPathname(req.url || "/")] *)
Definition request_pathname (req_url : option jsstring) : jsstring :=
  getPathname
    (match req_url with
     | Some (c :: u) => c :: u
     | _ => lit "/"
     end)
    (lit "/").

(** The request listener of [startHttp]; [handleRequest] is consulted
    only on the branch that reaches it. *)
Definition request_listener (req_url : option jsstring)
    (handleRequest : transport_outcome) : http_reply :=
  let pathname := request_pathname req_url in
  if jsstring_eqb pathname (lit "/health") then
    WriteJson 200
      (JObj [field "ok" (JBool true);
             field "name" (JStr (lit "xrpl-data-mcp"));
             field "transport" (JStr (lit "streamable-http"));
             field "endpoint" (JStr MCP_HTTP_PATH)])
  else if negb (jsstring_eqb pathname MCP_HTTP_PATH) then
    WriteJson 404
      (JObj [field "error" (JStr (lit "Not Found"));
             field "message"
               (JStr (lit "Use " ++ MCP_HTTP_PATH
                      ++ lit " for MCP requests."))])
  else
    match transport_error handleRequest with
    | None => LeftToTransport
    | Some (JsError message) =>
        if negb (headersSent handleRequest) then
          WriteJson 500
            (JObj [field "error" (JStr (lit "Internal Server Error"));
                   field "message" (JStr message)])
        else LeftToTransport
    end.

(* ================================================================= *)
(** ** Specification-side notions *)

(** The language of a regular expression. *)
Inductive star_of (L : jsstring -> Prop) : jsstring -> Prop :=
| star_nil : star_of L []
| star_app (s1 s2 : jsstring) : L s1 -> star_of L s2 -> star_of L (s1 ++ s2).

Fixpoint lang (r : regex) (s : jsstring) : Prop :=
  match r with
  | Void => False
  | Eps => s = []
  | Class rs => exists c, s = [c] /\ class_mem rs c = true
  | Seq a b => exists s1 s2, s = s1 ++ s2 /\ lang a s1 /\ lang b s2
  | Alt a b => lang a s \/ lang b s
  | Star a => star_of (lang a) s
  end.

Definition all_in (rs : list (N * N)) (s : jsstring) : bool :=
  forallb (class_mem rs) s.

(** Character classes in the specification's words. *)
Definition is_digit (c : N) : bool := in_range 48 57 c.
Definition is_upper (c : N) : bool := in_range 65 90 c.
Definition is_lower (c : N) : bool := in_range 97 122 c.
Definition is_alnum (c : N) : bool := is_digit c || is_upper c || is_lower c.
Definition is_hex_digit (c : N) : bool :=
  is_digit c || in_range 65 70 c || in_range 97 102 c.

(** The base-58 alphabet of XRP Ledger addresses. *)
Definition ADDRESS_ALPHABET : jsstring :=
  lit "rpshnaf39wBUDNEGHJKLM4PQRST7VWXYZ2bcdeCg65jkm8oFqi1tuvAxyz".

Definition is_address_char (c : N) : bool :=
  existsb (N.eqb c) ADDRESS_ALPHABET.

(** A string of exactly [n] hexadecimal digits. *)
Definition hex_string (n : nat) (s : jsstring) : bool :=
  Nat.eqb (List.length s) n && forallb is_hex_digit s.

(** Exactly three alphanumeric characters (an ISO-style code). *)
Definition iso_code (s : jsstring) : bool :=
  Nat.eqb (List.length s) 3 && forallb is_alnum s.

(** An address-alphabet string of 25 to 35 characters that starts with
    the address prefix [r]. *)
Definition address (s : jsstring) : bool :=
  Nat.leb 25 (List.length s) && Nat.leb (List.length s) 35
  && forallb is_address_char s && startsWith s (lit "r").

(** Forty hexadecimal digits, a period, an address. *)
Definition token_identifier (s : jsstring) : bool :=
  hex_string 40 (firstn 40 s)
  && startsWith (skipn 40 s) (lit ".")
  && address (skipn 41 s).

Definition digits_only (s : jsstring) : bool :=
  match s with
  | [] => false
  | _ => forallb is_digit s
  end.

Definition contains_period (s : jsstring) : bool := existsb (N.eqb 46) s.

(** The entity kinds of the resolver, and the specification's ordered
    classification: the first matching pattern wins. *)
Inductive entity_kind : Type :=
| TxHash | Account | TokenId | LedgerIndex | DomainOrHost | Unknown.

Definition kind_of (value : jsstring) : entity_kind :=
  if hex_string 64 value then TxHash
  else if address value then Account
  else if token_identifier value then TokenId
  else if digits_only value then LedgerIndex
  else if contains_period value then DomainOrHost
  else Unknown.

Definition kind_name (k : entity_kind) : jsstring :=
  match k with
  | TxHash => lit "tx_hash"
  | Account => lit "account"
  | TokenId => lit "token_id"
  | LedgerIndex => lit "ledger_index"
  | DomainOrHost => lit "domain_or_host"
  | Unknown => lit "unknown"
  end.

(** The fixed follow-up tools of each kind. *)
Definition kind_tools (k : entity_kind) : list jsstring :=
  match k with
  | TxHash => [lit "tx_explain"; lit "xrpl_tx"]
  | Account => [lit "account_overview"; lit "xrpl_account_info"]
  | TokenId => [lit "token_overview"; lit "los_get_token"]
  | LedgerIndex => [lit "ledger_summary"; lit "xrpl_ledger"]
  | DomainOrHost => [lit "xrplmeta_get"; lit "validator_set_overview"]
  | Unknown => []
  end.

(** An upper-case hexadecimal digit. *)
Definition is_upper_hex_digit (c : N) : bool := is_digit c || in_range 65 70 c.

(** The first answer of [f] along a list. *)
Fixpoint first_some {A B} (f : A -> option B) (l : list A) : option B :=
  match l with
  | [] => None
  | x :: l' =>
      match f x with
      | Some b => Some b
      | None => first_some f l'
      end
  end.

(** The search the specification describes: the top level of the payload,
    then the objects exactly one level below it, and no deeper. *)
Definition pickFirstNumber_one_level (value : json) (keys : list jsstring)
  : option float :=
  if is_object value then
    match first_number value keys with
    | Some n => Some n
    | None =>
        first_some
          (fun nested =>
             if is_object nested then first_number nested keys else None)
          (Object_values value)
    end
  else None.

(** [nested_at d holder value]: [holder] is the object or array reached
    from [value] by descending [d] levels. *)
Inductive nested_at : nat -> json -> json -> Prop :=
| nested_top (v : json) : nested_at 0 v v
| nested_step (d : nat) (holder child v : json) :
    In child (Object_values v) -> is_object child = true ->
    nested_at d holder child -> nested_at (S d) holder v.

(** [value] buried under [d] levels of [{ "data": ... }]. *)
Fixpoint bury (d : nat) (value : json) : json :=
  match d with
  | O => value
  | S d' => JObj [field "data" (bury d' value)]
  end.

(** The parse decision in the specification's words: the content type
    contains [json], or the body is non-empty and starts with a brace or
    a bracket. *)
Definition parse_expected (contentType bodyText : jsstring) : bool :=
  includes contentType (lit "json")
  || (match bodyText with [] => false | _ => true end
      && (startsWith bodyText (lit "{") || startsWith bodyText (lit "["))).

Definition decodeBody_expected (contentType bodyText : jsstring) : json :=
  if parse_expected contentType bodyText then
    match JSON_parse bodyText with
    | Some parsed => parsed
    | None => JStr bodyText
    end
  else JStr bodyText.

(** The parse decision the adapter takes. *)
Definition parse_attempted (contentType bodyText : jsstring) : bool :=
  match bodyText with [] => false | _ => true end
  && (includes contentType (lit "application/json")
      || startsWith bodyText (lit "{") || startsWith bodyText (lit "[")).

(** The sums of the volume-weighted average price. *)
Definition price_of (t : json) : float :=
  Number (logical_or (t # "price") (JNum 0)).

Definition amount_of (t : json) : float :=
  Number (logical_or (t # "amount") (JNum 0)).

Definition weighted_sum (trades : list json) : float :=
  fold_left (fun sum t => sum + price_of t * amount_of t)%float trades 0%float.

Definition amount_sum (trades : list json) : float :=
  fold_left (fun sum t => sum + amount_of t)%float trades 0%float.

(** Every key of the counterparty map is a value other than the queried
    account. *)
Definition foreign_keys (account : jsstring) (m : list (json * nat)) : Prop :=
  forall e, In e m -> strict_neq_str (fst e) account = true.


(** The payload of a handler result. *)
Definition data_of (out : tool_output) : json :=
  match out with
  | ToolResult j => j # "data"
  | ToolError _ => JUndefined
  end.

(** Hexadecimal decoding, the inverse the specification appeals to. *)
Definition hex_value (c : N) : option N :=
  if in_range 48 57 c then Some (c - 48)
  else if in_range 65 70 c then Some (c - 55)
  else if in_range 97 102 c then Some (c - 87)
  else None.

Fixpoint hex_decode (s : jsstring) : option (list N) :=
  match s with
  | [] => Some []
  | h :: l :: rest =>
      match hex_value h, hex_value l, hex_decode rest with
      | Some a, Some b, Some bs => Some (16 * a + b :: bs)
      | _, _, _ => None
      end
  | [_] => None
  end.

(** What the resolver reports as the normalized value of each kind. *)
Definition kind_normalized (k : entity_kind) (value : jsstring) : json :=
  match k with
  | TxHash | TokenId => JStr (toUpperCase value)
  | LedgerIndex => JNum (StringToNumber value)
  | DomainOrHost => JStr (toLowerCase value)
  | Account | Unknown => JStr value
  end.

(** The registry of composite tools: a tool name with its validated
    arguments. *)
Inductive composite_call : Type :=
| NetworkOverview
| LedgerSummary (ledger_index ledger_hash : json)
| TxExplain (tx_hash : jsstring)
| AccountOverview (account : jsstring) (options : json)
| TokenOverview (issuer currency : jsstring) (options : json)
| MarketSnapshot (base quote options : json)
| AmmOverview (amm_id assetA assetB options : json)
| ValidatorSetOverview (options : json)
| ValidatorHealth (pubkey_or_node : jsstring) (window : json)
| AmendmentStatus (network : json)
| SearchTransactions (filters : list (jsstring * json)) (cursor size : json)
| ResolveEntities (input : jsstring).

Definition body_of (c : composite_call) : M tool_output :=
  match c with
  | NetworkOverview => network_overview_body
  | LedgerSummary i h => ledger_summary_body i h
  | TxExplain h => tx_explain_body h
  | AccountOverview a o => account_overview_body a o
  | TokenOverview i c o => token_overview_body i c o
  | MarketSnapshot b q o => market_snapshot_body b q o
  | AmmOverview i a b o => amm_overview_body i a b o
  | ValidatorSetOverview o => validator_set_overview_body o
  | ValidatorHealth p w => validator_health_body p w
  | AmendmentStatus n => amendment_status_body n
  | SearchTransactions f c z => search_transactions_body f c z
  | ResolveEntities i => resolve_entities_body i
  end.

Definition invoke (c : composite_call) : state -> tool_output * state :=
  handler (body_of c).

(** A complete envelope: all four parts present. *)
Definition is_envelope (j : json) : Prop :=
  exists data sources asOfLedger asOfTime warnings,
    j = envelope data sources asOfLedger asOfTime warnings.

(** A handler result is one envelope or one error. *)
Definition settled (out : tool_output) : Prop :=
  match out with
  | ToolResult j => is_envelope j
  | ToolError _ => True
  end.

(** A mandatory upstream call that failed with [e]. *)
Definition mandatory_failure (e : thrown) : event :=
  {| ev_site := Mandatory; ev_outcome := Throw e |}.

(** Every failure of a mandatory call made by [m] is what [m] throws. *)
Definition propagates {A} (m : M A) : Prop :=
  forall st,
    exists evs,
      trace (snd (m st)) = trace st ++ evs
      /\ forall e, In (mandatory_failure e) evs -> fst (m st) = Throw e.

(** Whenever [m] returns, its value satisfies [P]. *)
Definition yields {A} (m : M A) (P : A -> Prop) : Prop :=
  forall st,
    match fst (m st) with
    | Ok a => P a
    | Throw _ => True
    end.

(** [m] always returns, makes no upstream call, and its value satisfies
    [P]. *)
Definition quiet {A} (m : M A) (P : A -> Prop) : Prop :=
  forall st,
    exists a st', m st = (Ok a, st') /\ trace st' = trace st /\ P a.

(** A query value that adds no parameter to the address: the three values
    the loop skips, and the array without items. *)
Definition omitted (v : json) : bool :=
  match v with
  | JUndefined | JNull | JStr [] | JArr [] => true
  | _ => false
  end.

Definition supplied (kv : jsstring * json) : bool := negb (omitted (snd kv)).

(** [m] completes at most [n] upstream calls. *)
Definition calls_at_most {A} (n : nat) (m : M A) : Prop :=
  forall st,
    exists evs,
      trace (snd (m st)) = trace st ++ evs /\ (List.length evs <= n)%nat.

(** The largest number of upstream calls a composite tool can make. *)
Definition call_budget (c : composite_call) : nat :=
  match c with
  | NetworkOverview => 6
  | LedgerSummary _ _ => 2
  | TxExplain _ => 2
  | AccountOverview _ _ => 3
  | TokenOverview _ _ _ => 4
  | MarketSnapshot _ _ _ => 3
  | AmmOverview _ _ _ _ => 2
  | ValidatorSetOverview _ => 1
  | ValidatorHealth _ _ => 2
  | AmendmentStatus _ => 3
  | SearchTransactions _ _ _ => 1
  | ResolveEntities _ => 0
  end.

(** A failed mandatory call is the last upstream call [m] makes, and its
    failure is what [m] throws. *)
Definition stops_at_failure {A} (m : M A) : Prop :=
  forall st,
    exists evs,
      trace (snd (m st)) = trace st ++ evs
      /\ forall pre e post,
           evs = pre ++ mandatory_failure e :: post ->
           post = [] /\ fst (m st) = Throw e.

(** An answer in which the freshness probe finds no latest indexed
    ledger. *)
Definition no_watermark (ev : event) : Prop :=
  match ev_outcome ev with
  | Ok payload =>
      truthy payload = false \/ pickFirstNumber payload LEDGER_ALIASES = None
  | Throw _ => True
  end.

Definition optional_call (r : result json) : event :=
  {| ev_site := Optional; ev_outcome := r |}.

(** The registry of pass-through tools: a tool with its validated
    arguments. *)
Inductive passthrough_call : Type :=
| GetTool (t : get_tool)
| RpcTool (t : rpc_tool) (args : json)
| LosGetToken (tokenID : jsstring)
| LosBatchGetTokens (tokenIds : list jsstring)
| PublicApiCall (method : jsstring) (params id : json)
| XrplmetaGet (path : jsstring) (query : option (list (jsstring * json))).

Definition relay (c : passthrough_call) : state -> tool_output * state :=
  match c with
  | GetTool t => get_tool_handler t
  | RpcTool t args => rpc_tool_handler t args
  | LosGetToken tokenID => los_get_token tokenID
  | LosBatchGetTokens tokenIds => los_batch_get_tokens tokenIds
  | PublicApiCall method params id => xrpl_public_api_call method params id
  | XrplmetaGet path query => xrplmeta_get path query
  end.

(** What a pass-through tool answers when its upstream call returned
    [data]. *)
Definition relayed (c : passthrough_call) (data : json) (out : tool_output)
  : Prop :=
  match c with
  | XrplmetaGet _ _ =>
      exists srcs asOfTime,
        out = ToolResult (envelope data srcs JUndefined asOfTime [])
  | _ => out = ToolResult data
  end.

(** The document a handler answers with. *)
Definition payload_of (out : tool_output) : json :=
  match out with
  | ToolResult j => j
  | ToolError _ => JUndefined
  end.

(** The number of observations counted in a histogram. *)
Definition histogram_total {K} (h : list (K * nat)) : nat :=
  fold_right (fun kn t => snd kn + t)%nat 0%nat h.

(** Counterparties in the order of the report: no entry has more
    interactions than one before it. *)
Fixpoint ranked (l : list (json * nat)) : Prop :=
  match l with
  | [] => True
  | x :: l' => Forall (fun y => snd y <= snd x)%nat l' /\ ranked l'
  end.

(** A ledger index as the envelope reports it: [null], or a finite
    number. *)
Definition ledger_stamp (a : json) : Prop :=
  a = JNull \/ exists n, a = JNum n /\ PrimFloat.is_finite n = true.

(** The provenance and freshness parts of an answer are filled in. *)
Definition stamped (out : tool_output) : Prop :=
  match out with
  | ToolResult j =>
      ledger_stamp (j # "freshness" # "asOfLedger")
      /\ (exists t, j # "freshness" # "asOfTime" = JStr t)
      /\ (exists srcs, j # "sources" = JArr srcs /\ srcs <> [])
      /\ (exists ws, j # "warnings" = JArr (List.map JStr ws))
  | ToolError _ => True
  end.

Definition finite_or_absent (o : option float) : Prop :=
  forall n, o = Some n -> PrimFloat.is_finite n = true.

(** The tools registered through [registerRpcTool], in the order of their
    registration. *)
Definition rpc_tools : list rpc_tool :=
  [xrpl_account_info; xrpl_account_objects; xrpl_account_lines;
   xrpl_account_tx; xrpl_ledger; xrpl_ledger_data; xrpl_ledger_entry;
   xrpl_tx; xrpl_book_offers; xrpl_amm_info; xrpl_nft_info;
   xrpl_nft_history; xrpl_nfts_by_issuer; xrpl_server_info; xrpl_fee].

(** No two strings of the list are equal. *)
Fixpoint distinct (l : list jsstring) : bool :=
  match l with
  | [] => true
  | x :: l' => negb (existsb (jsstring_eqb x) l') && distinct l'
  end.

(** *** Where the coercions of the model are those of the language

    [Number] and [ToString] above are total.  In the language the
    conversion of an object goes through its [toString] and [valueOf]
    members and throws a [TypeError] when neither gives a primitive; for
    a parsed JSON document that happens exactly when an object has an
    own member named [toString] (a data member, so not callable).  A
    value is [plain] when no object inside it has such a member: on
    plain values [Number] and [ToString] are the language's, and they
    never throw. *)
Fixpoint plain (v : json) : bool :=
  match v with
  | JArr items => forallb plain items
  | JObj props =>
      negb (existsb (fun kv => jsstring_eqb (fst kv) (lit "toString")) props)
      && forallb (fun kv => plain (snd kv)) props
  | _ => true
  end.

(** An upstream answer whose body, if any, is plain. *)
Definition plain_answer (ev : event) : Prop :=
  match ev_outcome ev with
  | Ok payload => plain payload = true
  | Throw _ => True
  end.

(** The member names that a histogram object inherits from
    [Object.prototype]: reading one of them from a fresh object gives a
    function or an object, not [undefined]. *)
Definition OBJECT_PROTOTYPE_MEMBERS : list jsstring :=
  [lit "constructor"; lit "__defineGetter__"; lit "__defineSetter__";
   lit "hasOwnProperty"; lit "__lookupGetter__"; lit "__lookupSetter__";
   lit "isPrototypeOf"; lit "propertyIsEnumerable"; lit "toString";
   lit "valueOf"; lit "__proto__"; lit "toLocaleString"].

(** A histogram key on which [bump] is the language's
    [h[key] = (h[key] || 0) + 1]: not an inherited member name, and not
    made of digits only (integer keys are enumerated before the others,
    in ascending order). *)
Definition ordinary_key (k : jsstring) : bool :=
  negb (existsb (jsstring_eqb k) OBJECT_PROTOTYPE_MEMBERS)
  && negb (digits_only k).

(** The number of occurrences of [k] in [keys]. *)
Definition occurrences (k : jsstring) (keys : list jsstring) : nat :=
  List.length (filter (jsstring_eqb k) keys).

(** The count a histogram holds for [k]; [0] when [k] is not a key. *)
Fixpoint count_for (k : jsstring) (h : list (jsstring * nat)) : nat :=
  match h with
  | [] => 0
  | (k', n) :: h' => if jsstring_eqb k' k then n else count_for k h'
  end.

(** The distinct strings of a list, in the order of their first
    occurrence. *)
Definition first_occurrences (keys : list jsstring) : list jsstring :=
  fold_left (fun seen k => set_add k seen) keys [].

(** Whether a payload holds a latest indexed ledger for the probe. *)
Definition holds_watermark (payload : json) : bool :=
  truthy payload
  && match pickFirstNumber payload LEDGER_ALIASES with
     | Some _ => true
     | None => false
     end.

(** [missed paths st st']: the candidate [paths] were asked one after the
    other from [st], leaving [st'], and no answer held a latest indexed
    ledger. *)
Inductive missed : list jsstring -> state -> state -> Prop :=
| missed_nil (st : state) : missed [] st st
| missed_cons (path : jsstring) (paths : list jsstring)
    (st st1 st' : state) (payload : json) :
    tryLos path None st = (Ok payload, st1) ->
    holds_watermark payload = false ->
    missed paths st1 st' ->
    missed (path :: paths) st st'.

(** [found_among candidates st p st']: [p] is what probing [candidates]
    in order from [st] finds, leaving [st']: the answer of the first
    candidate that holds a latest indexed ledger, with that candidate as
    its source path, or nothing when every candidate misses. *)
Definition found_among (candidates : list jsstring) (st : state)
    (p : freshness_probe) (st' : state) : Prop :=
  match latestIndexedLedger p with
  | Some n =>
      exists before path after st1,
        candidates = before ++ path :: after
        /\ missed before st st1
        /\ tryLos path None st1 = (Ok (raw p), st')
        /\ truthy (raw p) = true
        /\ pickFirstNumber (raw p) LEDGER_ALIASES = Some n
        /\ sourcePath p = Some path
  | None =>
      missed candidates st st' /\ sourcePath p = None /\ raw p = JNull
  end.

(** The arguments that a pass-through tool passes through
    [encodeURIComponent] on its way to the address. *)
Definition encoded_arguments (c : passthrough_call) : list jsstring :=
  match c with
  | GetTool (vh_topology_nodes network) =>
      if truthy network then [ToString network] else []
  | GetTool (vh_list_validators group) =>
      if truthy group then [ToString group] else []
  | GetTool (vh_topology_node pubkey)
  | GetTool (vh_get_validator pubkey)
  | GetTool (vh_get_validator_manifests pubkey)
  | GetTool (vh_get_validator_reports pubkey) => [pubkey]
  | GetTool (vh_get_amendment_info amendment) => [amendment]
  | GetTool (vh_get_amendments_vote network) => [network]
  | GetTool (vh_get_amendment_vote network identifier) =>
      [network; identifier]
  | LosGetToken tokenID => [tokenID]
  | _ => []
  end.

(** A GET request for an address, when the address could be built. *)
Definition rmap_url (r : result URL) : result request :=
  rbind r (fun url => Ok (GET url)).

Definition POST (target : target) (body : json) : request :=
  {| req_target := target;
     req_method := Some (lit "POST");
     req_body := Some (JSON_stringify body) |}.

(** The one request a pass-through tool sends, or the failure to build
    it. *)
Definition request_of (c : passthrough_call) : result request :=
  match c with
  | GetTool t =>
      rbind (get_builder t) (fun pq =>
        rmap_url (urlWithPathAndQuery (get_base t) (fst pq) (snd pq)))
  | RpcTool t args =>
      Ok (POST (TargetString XRPL_RPC_URL)
            (JObj [(lit "method", JStr (rpc_method t));
                   (lit "params", JArr [rpc_params t args]);
                   (lit "id", JStr (lit "xrpl-mcp"))]))
  | LosGetToken tokenID =>
      rbind (encode_component tokenID) (fun e =>
        rmap_url (urlWithPathAndQuery LOS_BASE_URL (lit "/tokens/" ++ e) None))
  | LosBatchGetTokens tokenIds =>
      rbind (urlWithPathAndQuery LOS_BASE_URL (lit "/tokens/batch-get") None)
        (fun url =>
           Ok (POST (TargetURL url)
                 (JObj [field "tokenIds" (JArr (List.map JStr tokenIds))])))
  | PublicApiCall method params id =>
      Ok (POST (TargetString XRPL_RPC_URL)
            (JObj [(lit "method", JStr method);
                   (lit "params", params ?? JArr []);
                   (lit "id", id ?? JStr (lit "xrpl-mcp"))]))
  | XrplmetaGet path query =>
      rmap_url (urlWithPathAndQuery XRPLMETA_BASE_URL path query)
  end.

(** [path] is [`${prefix}${encodeURIComponent(arg)}${suffix}`]. *)
Definition encoded_into (prefix arg suffix path : jsstring) : Prop :=
  exists e, encodeURIComponent arg = Some e /\ path = prefix ++ e ++ suffix.

(** [path] is [arg ? `${prefix}/${encodeURIComponent(arg)}` : prefix]. *)
Definition optionally_encoded_into (prefix : jsstring) (arg : json)
    (path : jsstring) : Prop :=
  if truthy arg then encoded_into (prefix ++ lit "/") (ToString arg) [] path
  else path = prefix.

(** The path and query that a GET tool's arguments stand for. *)
Definition addressed (t : get_tool) (path : jsstring)
    (query : option (list (jsstring * json))) : Prop :=
  match t with
  | los_get_trusted_tokens =>
      path = lit "/trusted-tokens" /\ query = None
  | los_get_transactions args =>
      path = lit "/transactions" /\ query = Some args
  | vh_list_networks =>
      path = lit "/v1/network/networks" /\ query = None
  | vh_topology_nodes network =>
      optionally_encoded_into (lit "/v1/network/topology/nodes") network path
      /\ query = None
  | vh_topology_node pubkey =>
      encoded_into (lit "/v1/network/topology/node/") pubkey [] path
      /\ query = None
  | vh_list_validators group =>
      optionally_encoded_into (lit "/v1/network/validators") group path
      /\ query = None
  | vh_get_validator pubkey =>
      encoded_into (lit "/v1/network/validator/") pubkey [] path
      /\ query = None
  | vh_get_validator_manifests pubkey =>
      encoded_into (lit "/v1/network/validator/") pubkey (lit "/manifests")
        path
      /\ query = None
  | vh_get_validator_reports pubkey =>
      encoded_into (lit "/v1/network/validator/") pubkey (lit "/reports") path
      /\ query = None
  | vh_get_daily_validator_reports =>
      path = lit "/v1/network/validator_reports" /\ query = None
  | vh_get_amendments_info =>
      path = lit "/v1/network/amendments/info" /\ query = None
  | vh_get_amendment_info amendment =>
      encoded_into (lit "/v1/network/amendment/info/") amendment [] path
      /\ query = None
  | vh_get_amendments_vote network =>
      encoded_into (lit "/v1/network/amendments/vote/") network [] path
      /\ query = None
  | vh_get_amendment_vote network identifier =>
      (exists n i,
         encodeURIComponent network = Some n
         /\ encodeURIComponent identifier = Some i
         /\ path = lit "/v1/network/amendment/vote/" ++ n ++ lit "/" ++ i)
      /\ query = None
  | vh_health => path = lit "/v1/health" /\ query = None
  | vh_metrics => path = lit "/v1/metrics" /\ query = None
  | validator_history_get p q => path = p /\ query = q
  end.

(** The histogram key of a row of [search_transactions]:
    [row.transactionType || row.type || row.tx_type || "unknown"]. *)
Definition search_type_of (row : json) : jsstring :=
  ToString
    (logical_or (row # "transactionType")
       (logical_or (row # "type")
          (logical_or (row # "tx_type") (JStr (lit "unknown"))))).

(** The histogram key of a validator:
    [v.domain || v.operator || v.owner || "unknown"]. *)
Definition operator_of (v : json) : jsstring :=
  ToString
    (logical_or (v # "domain")
       (logical_or (v # "operator")
          (logical_or (v # "owner") (JStr (lit "unknown"))))).

(** The histogram key of a transaction of [account_overview]:
    [(row.tx_json || row.tx || {}).TransactionType || "Unknown"]. *)
Definition activity_type_of (row : json) : jsstring :=
  ToString
    (logical_or
       (logical_or (row # "tx_json") (logical_or (row # "tx") (JObj []))
        # "TransactionType")
       (JStr (lit "Unknown"))).

(** [h] is the histogram of [keys]: its keys are the distinct strings of
    [keys] in the order of their first occurrence, each with the number
    of its occurrences. *)
Definition histogram_of (keys : list jsstring) (h : list (jsstring * nat))
  : Prop :=
  List.map fst h = first_occurrences keys
  /\ (forall k, count_for k h = occurrences k keys)
  /\ histogram_total h = List.length keys.

(** The token that an amount names: [XRP] for a non-empty string, the
    currency and issuer joined by a period for an amount that has both,
    and none otherwise. *)
Definition token_of (amount : json) : option jsstring :=
  match amount with
  | JStr [] => None
  | JStr _ => Some (lit "XRP")
  | _ =>
      if truthy amount && truthy (amount # "currency")
         && truthy (amount # "issuer")
      then Some (ToString (amount # "currency") ++ lit "."
                 ++ ToString (amount # "issuer"))
      else None
  end.

(** [node.ModifiedNode || node.CreatedNode || node.DeletedNode] of an
    affected node that is not [null]. *)
Definition node_fields (node : json) : json :=
  logical_or (node # "ModifiedNode")
    (logical_or (node # "CreatedNode") (node # "DeletedNode")).

(** The amounts that [extractTokensFromTx] looks at, in order. *)
Definition amounts_of (tx meta : json) : list json :=
  [tx # "Amount"; tx # "TakerGets"; tx # "TakerPays";
   meta # "delivered_amount"]
  ++ flat_map
       (fun node =>
          [logical_or (node_fields node # "FinalFields") (JObj []) # "Balance";
           logical_or (node_fields node # "NewFields") (JObj []) # "Balance"])
       (array_or_empty (meta # "AffectedNodes")).

Definition tokens_named (amounts : list json) : list jsstring :=
  flat_map (fun amount => match token_of amount with
                          | Some token => [token]
                          | None => []
                          end) amounts.

(** The summary of a trust line in [topTokensByAbsBalance]. *)
Definition line_summary_of (line : json) : json :=
  JObj [field "currency" (line # "currency");
        field "issuer" (line # "account");
        field "balance" (JNum (Number (line # "balance")));
        field "absBalance" (JNum (PrimFloat.abs (Number (line # "balance"))))].

(** The counterparty of a transaction of [account_overview]:
    [tx.Destination || tx.Account] of [row.tx_json || row.tx || {}]. *)
Definition counterparty_of (row : json) : json :=
  let tx := logical_or (row # "tx_json") (logical_or (row # "tx") (JObj [])) in
  logical_or (tx # "Destination") (tx # "Account").

(** Whether a transaction counts as an interaction with a counterparty:
    it names one, and that is not the account itself. *)
Definition interacts (account : jsstring) (row : json) : bool :=
  truthy (counterparty_of row) && strict_neq_str (counterparty_of row) account.

(** A trust line with the key it is sorted by. *)
Definition weighed (line : json) : float * json :=
  (PrimFloat.abs (Number (line # "balance")), line_summary_of line).

(** The [absBalance] of a summary. *)
Definition abs_balance_of (row : json) : float :=
  match row # "absBalance" with
  | JNum n => n
  | _ => PrimFloat.nan
  end.

(** A list that a comparator leaves as it is: no element is put after
    its successor. *)
Fixpoint arranged {A} (after : A -> A -> bool) (l : list A) : Prop :=
  match l with
  | [] => True
  | a :: rest =>
      match rest with
      | [] => True
      | b :: _ => after a b = false
      end
      /\ arranged after rest
  end.

(** Summaries in the order of [(a, b) => b.absBalance - a.absBalance]:
    for no summary is the difference to its successor positive. *)
Definition descending (rows : list json) : Prop :=
  arranged
    (fun a b => (0 <? abs_balance_of b - abs_balance_of a)%float) rows.

(** The number that an integer converts to. *)
Definition num_of_Z (z : Z) : float :=
  if (z <? 0)%Z then (- num_of_N (Z.to_N (- z)))%float
  else num_of_N (Z.to_N z).

(** The integer that a number is, when it is one. *)
Definition integer_value (n : float) : option Z :=
  match Prim2SF n with
  | S754_zero _ => Some 0%Z
  | S754_finite s m e =>
      if (0 <=? e)%Z
      then Some ((if s then -1 else 1) * Z.pos m * 2 ^ e)%Z
      else
        if (Z.pos m mod 2 ^ (- e) =? 0)%Z
        then Some ((if s then -1 else 1) * (Z.pos m / 2 ^ (- e)))%Z
        else None
  | _ => None
  end.

(* ================================================================= *)
(** ** Theory of the matcher *)

Lemma nullable_lang (r : regex) : nullable r = true <-> lang r [].
Proof. unused.
  induction r; simpl.
  - split; [discriminate | tauto].
  - tauto.
  - split; [discriminate | intros (c & H & _); discriminate].
  - rewrite andb_true_iff, IHr1, IHr2. split.
    + intros [H1 H2]. exists [], []. auto.
    + intros (s1 & s2 & E & H1 & H2).
      symmetry in E. apply app_eq_nil in E as [-> ->]. auto.
  - rewrite orb_true_iff, IHr1, IHr2. tauto.
  - split; [intros _; constructor | reflexivity].
Qed.

Lemma star_cons_inv (L : jsstring -> Prop) (c : N) (s : jsstring) :
  star_of L (c :: s) ->
  exists s1 s2, s = s1 ++ s2 /\ L (c :: s1) /\ star_of L s2.
Proof.
  intros H. remember (c :: s) as t eqn:E. revert c s E.
  induction H as [| s1 s2 H1 H2 IH]; intros c s E; [discriminate |].
  destruct s1 as [| d s1'].
  - simpl in E. apply IH, E.
  - simpl in E. injection E as -> <-. exists s1', s2. auto.
Qed.

Lemma deriv_lang (c : N) (r : regex) :
  forall s, lang (deriv c r) s <-> lang r (c :: s).
Proof. unused.
  induction r; intros s; simpl.
  - tauto.
  - split; [tauto | discriminate].
  - destruct (class_mem ranges c) eqn:E; simpl.
    + split.
      * intros ->. exists c. auto.
      * intros (d & H & _). injection H as _ H. exact H.
    + split; [tauto |].
      intros (d & H & Hd). injection H as -> _. congruence.
  - destruct (nullable r1) eqn:En; simpl.
    + split.
      * intros [(s1 & s2 & -> & H1 & H2) | H].
        -- exists (c :: s1), s2. rewrite <- IHr1. auto.
        -- exists [], (c :: s). rewrite <- nullable_lang, <- IHr2. auto.
      * intros (s1 & s2 & E & H1 & H2). destruct s1 as [| d s1'].
        -- right. simpl in E. subst s2. apply IHr2, H2.
        -- left. simpl in E. injection E as <- ->.
           exists s1', s2. rewrite IHr1. auto.
    + split.
      * intros (s1 & s2 & -> & H1 & H2).
        exists (c :: s1), s2. rewrite <- IHr1. auto.
      * intros (s1 & s2 & E & H1 & H2). destruct s1 as [| d s1'].
        -- apply nullable_lang in H1. congruence.
        -- simpl in E. injection E as <- ->.
           exists s1', s2. rewrite IHr1. auto.
  - rewrite IHr1, IHr2. tauto.
  - split.
    + intros (s1 & s2 & -> & H1 & H2).
      apply (star_app _ (c :: s1) s2); [apply IHr, H1 | exact H2].
    + intros H. apply star_cons_inv in H as (s1 & s2 & -> & H1 & H2).
      exists s1, s2. rewrite IHr. auto.
Qed.

Lemma matches_lang (s : jsstring) :
  forall r, matches r s = true <-> lang r s.
Proof.
  induction s as [| c s IH]; intros r; simpl.
  - apply nullable_lang.
  - rewrite IH. apply deriv_lang.
Qed.

Lemma lang_seq_class (rs : list (N * N)) (r : regex) (s : jsstring) :
  lang (Seq (Class rs) r) s <->
  exists c s', s = c :: s' /\ class_mem rs c = true /\ lang r s'.
Proof.
  simpl. split.
  - intros (s1 & s2 & -> & (c & -> & Hc) & H). exists c, s2. auto.
  - intros (c & s' & -> & Hc & H). exists [c], s'. repeat split; eauto.
Qed.

Lemma lang_seq_assoc (a b c : regex) (s : jsstring) :
  lang (Seq (Seq a b) c) s <-> lang (Seq a (Seq b c)) s.
Proof.
  simpl. split.
  - intros (s12 & s3 & -> & (s1 & s2 & -> & H1 & H2) & H3).
    exists s1, (s2 ++ s3). rewrite app_assoc. repeat split; eauto.
  - intros (s1 & s23 & -> & H1 & (s2 & s3 & -> & H2 & H3)).
    exists (s1 ++ s2), s3. rewrite app_assoc. repeat split; eauto.
Qed.

Lemma lang_seq_eps (r : regex) (s : jsstring) :
  lang (Seq Eps r) s <-> lang r s.
Proof.
  simpl. split.
  - intros (s1 & s2 & -> & -> & H). exact H.
  - intros H. exists [], s. auto.
Qed.

(** A fixed-length run of one class, followed by [r]. *)
Lemma lang_rep_then (rs : list (N * N)) (r : regex) (n : nat) :
  forall s,
    lang (Seq (rep n (Class rs)) r) s <->
    (n <= List.length s)%nat /\ all_in rs (firstn n s) = true
    /\ lang r (skipn n s).
Proof. unused.
  induction n as [| n IH]; intros s.
  - rewrite (lang_seq_eps r s). simpl. intuition lia.
  - change (rep (S n) (Class rs)) with (Seq (Class rs) (rep n (Class rs))).
    rewrite lang_seq_assoc, lang_seq_class. split.
    + intros (c & s' & -> & Hc & H). apply IH in H as (Hl & Ha & Hr).
      simpl. rewrite Hc. simpl. repeat split; auto. lia.
    + intros (Hl & Ha & Hr). destruct s as [| c s']; [simpl in Hl; lia |].
      simpl in Ha. apply andb_true_iff in Ha as [Hc Ha]. simpl in Hr.
      exists c, s'. repeat split; auto. apply IH. simpl in Hl.
      repeat split; auto. lia.
Qed.

Lemma lang_upto (rs : list (N * N)) (n : nat) :
  forall s,
    lang (upto n (Class rs)) s <->
    (List.length s <= n)%nat /\ all_in rs s = true.
Proof.
  induction n as [| n IH]; intros s.
  - simpl. split.
    + intros ->. auto.
    + intros [H _]. destruct s; [reflexivity | simpl in H; lia].
  - change (upto (S n) (Class rs))
      with (Alt Eps (Seq (Class rs) (upto n (Class rs)))).
    change (lang (Alt Eps (Seq (Class rs) (upto n (Class rs)))) s)
      with (s = [] \/ lang (Seq (Class rs) (upto n (Class rs))) s).
    rewrite lang_seq_class. split.
    + intros [-> | (c & s' & -> & Hc & H)].
      * simpl. split; [lia | reflexivity].
      * apply IH in H as [Hl Ha]. simpl. rewrite Hc, Ha. split; [lia | auto].
    + intros [Hl Ha]. destruct s as [| c s']; [left; reflexivity | right].
      simpl in Ha. apply andb_true_iff in Ha as [Hc Ha].
      exists c, s'. repeat split; auto. apply IH. simpl in Hl. split; [lia | auto].
Qed.

Lemma all_in_app (rs : list (N * N)) (a b : jsstring) :
  all_in rs (a ++ b) = all_in rs a && all_in rs b.
Proof. apply forallb_app. Qed.

Lemma lang_star_class (rs : list (N * N)) (s : jsstring) :
  lang (Star (Class rs)) s <-> all_in rs s = true.
Proof.
  simpl. split.
  - induction 1 as [| s1 s2 (c & -> & Hc) _ IH]; [reflexivity |].
    simpl. rewrite Hc. exact IH.
  - induction s as [| c s IH]; intros H; [constructor |].
    simpl in H. apply andb_true_iff in H as [Hc H].
    apply (star_app _ [c] s); [exists c; auto | auto].
Qed.

Lemma lang_rep (rs : list (N * N)) (n : nat) :
  forall s,
    lang (rep n (Class rs)) s <->
    List.length s = n /\ all_in rs s = true.
Proof.
  induction n as [| n IH]; intros s.
  - simpl. split.
    + intros ->. auto.
    + intros [H _]. destruct s; [reflexivity | discriminate].
  - change (rep (S n) (Class rs)) with (Seq (Class rs) (rep n (Class rs))).
    rewrite lang_seq_class. split.
    + intros (c & s' & -> & Hc & H). apply IH in H as [Hl Ha].
      simpl. rewrite Hc, Ha, Hl. auto.
    + intros [Hl Ha]. destruct s as [| c s']; [discriminate |].
      simpl in Ha. apply andb_true_iff in Ha as [Hc Ha].
      exists c, s'. repeat split; auto. apply IH. simpl in Hl.
      split; [congruence | auto].
Qed.

Lemma lang_between_then (rs : list (N * N)) (lo hi : nat) (s : jsstring) :
  (lo <= hi)%nat ->
  lang (between lo hi (Class rs)) s <->
  (lo <= List.length s)%nat /\ (List.length s <= hi)%nat
  /\ all_in rs s = true.
Proof. unused.
  intros Hle. unfold between. rewrite lang_rep_then, lang_upto.
  assert (E : all_in rs s
              = all_in rs (firstn lo s) && all_in rs (skipn lo s))
    by (rewrite <- all_in_app, firstn_skipn; reflexivity).
  rewrite E, andb_true_iff, length_skipn. intuition lia.
Qed.

Lemma bool_eq_iff (a b : bool) : (a = true <-> b = true) -> a = b.
Proof. unused. destruct a, b; intuition congruence. Qed.

Lemma test_rep (rs : list (N * N)) (n : nat) (s : jsstring) :
  test (rep n (Class rs)) s = Nat.eqb (List.length s) n && all_in rs s.
Proof. unused.
  apply bool_eq_iff. unfold test.
  rewrite matches_lang, lang_rep, andb_true_iff, Nat.eqb_eq. tauto.
Qed.

Lemma test_plus (rs : list (N * N)) (s : jsstring) :
  test (plus (Class rs)) s
  = match s with [] => false | _ => all_in rs s end.
Proof.
  apply bool_eq_iff. unfold test, plus.
  rewrite matches_lang, lang_seq_class. split.
  - intros (c & s' & -> & Hc & H). apply lang_star_class in H.
    simpl. rewrite Hc. exact H.
  - destruct s as [| c s']; [discriminate |]. simpl.
    intros H. apply andb_true_iff in H as [Hc H].
    exists c, s'. repeat split; auto. apply lang_star_class, H.
Qed.

(** Facts about all code units, from a check of those below a bound. *)
Lemma forall_below (f : N -> bool) (n : nat) :
  forallb f (List.map N.of_nat (seq 0 n)) = true ->
  forall c, c < N.of_nat n -> f c = true.
Proof.
  intros H c Hc. rewrite forallb_forall in H. apply H.
  apply in_map_iff. exists (N.to_nat c). split; [apply N2Nat.id |].
  apply in_seq. lia.
Qed.

Lemma class_mem_above (rs : list (N * N)) (c : N) :
  forallb (fun lh => snd lh <? c) rs = true -> class_mem rs c = false.
Proof.
  unfold class_mem. induction rs as [| [lo hi] rs IH]; simpl; [reflexivity |].
  intros H. apply andb_true_iff in H as [H1 H2]. rewrite (IH H2).
  unfold in_range. simpl. apply N.ltb_lt in H1.
  destruct (N.leb_spec c hi); [lia |]. rewrite andb_false_r. reflexivity.
Qed.

Lemma existsb_eqb_above (l : list N) (c : N) :
  forallb (fun x => x <? c) l = true -> existsb (N.eqb c) l = false.
Proof.
  induction l as [| x l IH]; simpl; [reflexivity |].
  intros H. apply andb_true_iff in H as [H1 H2]. rewrite (IH H2).
  apply N.ltb_lt in H1. destruct (N.eqb_spec c x); [lia | reflexivity].
Qed.

Lemma forallb_ltb_mono (A : Type) (g : A -> N) (l : list A) (b c : N) :
  b <= c -> forallb (fun x => g x <? b) l = true ->
  forallb (fun x => g x <? c) l = true.
Proof.
  intros Hbc. rewrite !forallb_forall. intros H x Hx.
  specialize (H x Hx). apply N.ltb_lt in H. apply N.ltb_lt. lia.
Qed.

(** The regular-expression class [[1-9A-HJ-NP-Za-km-z]] is exactly the
    address alphabet. *)
Lemma base58_class (c : N) :
  class_mem [rng "1" "9"; rng "A" "H"; rng "J" "N"; rng "P" "Z";
             rng "a" "k"; rng "m" "z"] c
  = is_address_char c.
Proof.
  destruct (N.ltb_spec c 128) as [Hlt | Hge].
  - apply Bool.eqb_prop.
    revert c Hlt.
    change 128 with (N.of_nat 128).
    apply (forall_below
             (fun c => Bool.eqb
                (class_mem [rng "1" "9"; rng "A" "H"; rng "J" "N";
                            rng "P" "Z"; rng "a" "k"; rng "m" "z"] c)
                (is_address_char c))).
    vm_compute. reflexivity.
  - unfold is_address_char.
    rewrite class_mem_above, existsb_eqb_above; [reflexivity | |].
    + apply (forallb_ltb_mono N (fun x => x) _ 128 c Hge).
      vm_compute. reflexivity.
    + apply (forallb_ltb_mono _ snd _ 128 c Hge). vm_compute. reflexivity.
Qed.

Lemma hex_class (c : N) :
  class_mem [rng "A" "F"; rng "a" "f"; rng "0" "9"] c = is_hex_digit c.
Proof.
  change (class_mem [rng "A" "F"; rng "a" "f"; rng "0" "9"] c)
    with (in_range 65 70 c || (in_range 97 102 c || (in_range 48 57 c || false))).
  unfold is_hex_digit, is_digit.
  destruct (in_range 65 70 c), (in_range 97 102 c), (in_range 48 57 c);
    reflexivity.
Qed.

Lemma alnum_class (c : N) :
  class_mem [rng "A" "Z"; rng "a" "z"; rng "0" "9"] c = is_alnum c.
Proof.
  change (class_mem [rng "A" "Z"; rng "a" "z"; rng "0" "9"] c)
    with (in_range 65 90 c || (in_range 97 122 c || (in_range 48 57 c || false))).
  unfold is_alnum, is_digit, is_upper, is_lower.
  destruct (in_range 65 90 c), (in_range 97 122 c), (in_range 48 57 c);
    reflexivity.
Qed.

Lemma digit_class (c : N) : class_mem [rng "0" "9"] c = is_digit c.
Proof.
  change (class_mem [rng "0" "9"] c) with (in_range 48 57 c || false).
  unfold is_digit. apply orb_false_r.
Qed.

Lemma chr_class (a : ascii) (c : N) :
  class_mem [(N_of_ascii a, N_of_ascii a)] c = (c =? N_of_ascii a).
Proof.
  unfold class_mem, in_range. simpl. rewrite orb_false_r.
  destruct (N.eqb_spec c (N_of_ascii a)) as [-> | Hne].
  - rewrite N.leb_refl. reflexivity.
  - destruct (N.leb_spec (N_of_ascii a) c), (N.leb_spec c (N_of_ascii a));
      simpl; try reflexivity; lia.
Qed.

Lemma forallb_ext_eq (A : Type) (f g : A -> bool) (l : list A) :
  (forall x, f x = g x) -> forallb f l = forallb g l.
Proof. intros H. induction l; simpl; [reflexivity | rewrite H, IHl; reflexivity]. Qed.

Lemma test_hex (n : nat) (s : jsstring) : test (rep n HEX) s = hex_string n s.
Proof.
  unfold HEX. rewrite test_rep. unfold hex_string, all_in.
  rewrite (forallb_ext_eq _ _ _ s hex_class). reflexivity.
Qed.

Lemma test_alnum3 (s : jsstring) : test RE_ALNUM3 s = iso_code s.
Proof.
  unfold RE_ALNUM3, ALNUM. rewrite test_rep. unfold iso_code, all_in.
  rewrite (forallb_ext_eq _ _ _ s alnum_class). reflexivity.
Qed.

Lemma test_digits (s : jsstring) : test RE_DIGITS s = digits_only s.
Proof.
  unfold RE_DIGITS, DIGIT. rewrite test_plus. unfold digits_only, all_in.
  rewrite (forallb_ext_eq _ _ _ s digit_class). reflexivity.
Qed.

Lemma lang_account (s : jsstring) :
  lang RE_ACCOUNT s <-> address s = true.
Proof.
  unfold RE_ACCOUNT, chr, BASE58, address. rewrite lang_seq_class.
  rewrite !andb_true_iff, !Nat.leb_le. split.
  - intros (c & s' & -> & Hc & H).
    apply lang_between_then in H as (H1 & H2 & H3); [| lia].
    rewrite chr_class in Hc. apply N.eqb_eq in Hc. subst c.
    unfold all_in in H3.
    rewrite (forallb_ext_eq _ _ _ s' base58_class) in H3.
    repeat split.
    + simpl. lia.
    + simpl. lia.
    + change (forallb is_address_char (N_of_ascii "r" :: s'))
        with (is_address_char (N_of_ascii "r") && forallb is_address_char s').
      rewrite H3. reflexivity.
  - intros [[[H1 H2] H3] H4]. destruct s as [| c s']; [discriminate |].
    simpl in H4. apply andb_true_iff in H4 as [H4 _].
    simpl in H3. apply andb_true_iff in H3 as [_ H3].
    exists c, s'. repeat split; auto.
    + rewrite chr_class. exact H4.
    + apply lang_between_then; [lia |]. simpl in H1, H2.
      unfold all_in. rewrite (forallb_ext_eq _ _ _ s' base58_class).
      repeat split; auto; lia.
Qed.

Lemma test_account (s : jsstring) : test RE_ACCOUNT s = address s.
Proof. apply bool_eq_iff. unfold test. rewrite matches_lang. apply lang_account. Qed.

Lemma skipn_S_tail (A : Type) (n : nat) (l : list A) (x : A) (t : list A) :
  skipn n l = x :: t -> skipn (S n) l = t.
Proof.
  revert l. induction n as [| n IH]; intros l H.
  - simpl in H. subst l. reflexivity.
  - destruct l as [| y l']; [discriminate |]. simpl in H. apply (IH l' H).
Qed.

Lemma test_token_id (s : jsstring) : test RE_TOKEN_ID s = token_identifier s.
Proof.
  apply bool_eq_iff. unfold test. rewrite matches_lang.
  unfold RE_TOKEN_ID, HEX, token_identifier.
  rewrite lang_rep_then. unfold chr at 1. rewrite lang_seq_class.
  fold RE_ACCOUNT. unfold hex_string.
  rewrite !andb_true_iff, Nat.eqb_eq, length_firstn. split.
  - intros (Hl & Ha & c & s' & E & Hc & H).
    rewrite chr_class in Hc. apply N.eqb_eq in Hc. subst c.
    unfold all_in in Ha.
    rewrite (forallb_ext_eq _ _ _ _ hex_class) in Ha.
    rewrite (skipn_S_tail _ 40 s _ _ E), E.
    apply lang_account in H. repeat split; auto. lia.
  - intros [[[Hl Ha] Hp] Had].
    destruct (skipn 40 s) as [| c s'] eqn:E; [discriminate |].
    simpl in Hp. apply andb_true_iff in Hp as [Hc _].
    rewrite (skipn_S_tail _ 40 s _ _ E) in Had.
    repeat split; [lia | |].
    + unfold all_in. rewrite (forallb_ext_eq _ _ _ _ hex_class). exact Ha.
    + exists c, s'. repeat split; auto.
      * rewrite chr_class. exact Hc.
      * apply lang_account, Had.
Qed.

Lemma includes_period (s : jsstring) : includes s (lit ".") = contains_period s.
Proof.
  induction s as [| c s IH]; [reflexivity |].
  change (includes (c :: s) (lit "."))
    with (startsWith (c :: s) (lit ".") || includes s (lit ".")).
  rewrite IH.
  change (startsWith (c :: s) (lit ".")) with (cu_eqb c 46 && true).
  change (contains_period (c :: s)) with ((46 =? c) || contains_period s).
  unfold cu_eqb. rewrite andb_true_r, (N.eqb_sym 46 c). reflexivity.
Qed.

(* ================================================================= *)
(** ** Reasoning about handler computations *)

Lemma propagates_ret {A} (a : A) : propagates (ret a).
Proof. intros st. exists []. simpl. rewrite app_nil_r. split; [auto | intros e []]. Qed.

Lemma propagates_lift {A} (r : result A) : propagates (lift r).
Proof. intros st. exists []. simpl. rewrite app_nil_r. split; [auto | intros e []]. Qed.

Lemma propagates_nowIso : propagates nowIso.
Proof.
  intros st. exists []. unfold nowIso.
  destruct (Date_toISOString (world st)). simpl. rewrite app_nil_r.
  split; [auto | intros e []].
Qed.

Lemma propagates_bind {A B} (m : M A) (f : A -> M B) :
  propagates m -> (forall a, propagates (f a)) -> propagates (bind m f).
Proof.
  intros Hm Hf st. unfold bind.
  destruct (Hm st) as (evs1 & E1 & P1).
  destruct (m st) as [[a | e] st1]; simpl in *.
  - destruct (Hf a st1) as (evs2 & E2 & P2).
    exists (evs1 ++ evs2). split.
    + rewrite E2, E1, app_assoc. reflexivity.
    + intros e Hin. apply in_app_or in Hin as [Hin | Hin].
      * apply P1 in Hin. discriminate.
      * apply P2, Hin.
  - exists evs1. split; [assumption |].
    intros e0 Hin. apply P1 in Hin. injection Hin as ->. reflexivity.
Qed.

Lemma propagates_soft (m : M json) : propagates (soft m).
Proof.
  intros st. unfold soft.
  destruct (m {| world := world st; trace := [] |}) as [r st1]. simpl.
  exists (List.map demote (trace st1)). split; [reflexivity |].
  intros e Hin. apply in_map_iff in Hin as (ev & Heq & _).
  unfold demote, mandatory_failure in Heq. discriminate.
Qed.

Lemma propagates_fetchWithParse (req : request) : propagates (fetchWithParse req).
Proof.
  intros st. unfold fetchWithParse.
  destruct (fetch req (world st)) as [o w]. simpl.
  exists [{| ev_site := Mandatory; ev_outcome := parse_outcome o |}].
  split; [reflexivity |].
  intros e [H | []]. unfold mandatory_failure in H. injection H as H. exact H.
Qed.

Lemma propagates_sources_of (l : list (string * string)) :
  propagates (sources_of l).
Proof.
  induction l as [| [system method] l IH]; simpl.
  - apply propagates_ret.
  - unfold source.
    repeat (apply propagates_bind; [| intros ]);
      auto using propagates_nowIso, propagates_ret.
Qed.

Lemma propagates_encoded (s : jsstring) : propagates (encoded s).
Proof.
  unfold encoded. destruct (encodeURIComponent s);
    [apply propagates_ret | apply propagates_lift].
Qed.

Lemma propagates_callAt (b p : jsstring) (q : option (list (jsstring * json))) :
  propagates (callAt b p q).
Proof.
  unfold callAt. apply propagates_bind; [apply propagates_lift |].
  intros; apply propagates_fetchWithParse.
Qed.

Lemma propagates_toToolEnvelope (d : json) (l : list (string * string))
    (a : json) (w : list jsstring) :
  propagates (toToolEnvelope d l a w).
Proof.
  unfold toToolEnvelope.
  repeat (apply propagates_bind; [| intros ]);
    auto using propagates_sources_of, propagates_nowIso, propagates_ret.
Qed.

Lemma propagates_probe (candidates : list jsstring) :
  propagates (probe candidates).
Proof.
  induction candidates as [| path rest IH]; simpl.
  - apply propagates_ret.
  - apply propagates_bind; [apply propagates_soft |].
    intros payload. destruct (negb (truthy payload)); [exact IH |].
    destruct (pickFirstNumber payload LEDGER_ALIASES);
      [apply propagates_ret | exact IH].
Qed.

Lemma propagates_tryLos (p : jsstring) (q : option (list (jsstring * json))) :
  propagates (tryLos p q).
Proof. apply propagates_soft. Qed.

Create HintDb gateway.

#[local] Hint Resolve propagates_ret propagates_lift propagates_nowIso
  propagates_soft propagates_fetchWithParse propagates_sources_of
  propagates_encoded propagates_callAt propagates_toToolEnvelope
  propagates_probe propagates_tryLos : gateway.

(** Walks down a handler body: one rule per [await], one case split per
    branch of the body. *)
Ltac walk :=
  repeat first
    [ solve [auto with gateway]
    | apply propagates_bind; [| intros ]
    | match goal with
      | |- propagates (if ?c then _ else _) => destruct c
      | |- propagates (match ?x with _ => _ end) => destruct x
      | |- propagates (let (_, _) := ?x in _) => destruct x
      end ].

Lemma propagates_body (c : composite_call) : propagates (body_of c).
Proof.
  destruct c; cbn [body_of].
  - unfold network_overview_body, losFreshnessProbe, xrplRpc. walk.
  - unfold ledger_summary_body, tryLos, callLos, xrplRpc. walk.
  - unfold tx_explain_body, tryLos, callLos, xrplRpc. walk.
  - unfold account_overview_body, xrplRpc. walk.
  - unfold token_overview_body, tryLos, callLos, xrplRpc. walk.
  - unfold market_snapshot_body, tryLos, callLos, xrplRpc. walk.
  - unfold amm_overview_body, tryLos, callLos, xrplRpc. walk.
  - unfold validator_set_overview_body. walk.
  - unfold validator_health_body. walk.
  - unfold amendment_status_body, xrplRpc. walk.
  - unfold search_transactions_body, callLos. walk.
  - unfold resolve_entities_body. walk.
Qed.

Lemma quiet_nowIso : quiet nowIso (fun _ => True).
Proof.
  intros st. unfold nowIso. destruct (Date_toISOString (world st)) as [t w].
  exists t, {| world := w; trace := trace st |}. auto.
Qed.

Lemma quiet_bind {A B} (m : M A) (f : A -> M B)
    (P : A -> Prop) (Q : B -> Prop) :
  quiet m P -> (forall a, P a -> quiet (f a) Q) -> quiet (bind m f) Q.
Proof.
  intros Hm Hf st. destruct (Hm st) as (a & st1 & E1 & T1 & Pa).
  destruct (Hf a Pa st1) as (b & st2 & E2 & T2 & Qb).
  exists b, st2. unfold bind. rewrite E1, E2. repeat split; auto. congruence.
Qed.

Lemma quiet_ret {A} (a : A) (P : A -> Prop) : P a -> quiet (ret a) P.
Proof. intros H st. exists a, st. auto. Qed.

Lemma quiet_sources_of (l : list (string * string)) :
  quiet (sources_of l) (fun _ => True).
Proof.
  induction l as [| [system method] l IH]; simpl.
  - apply quiet_ret. exact I.
  - unfold source.
    apply (quiet_bind _ _ (fun _ => True)).
    + apply (quiet_bind _ _ (fun _ => True)); [apply quiet_nowIso |].
      intros; apply quiet_ret; exact I.
    + intros x _. apply (quiet_bind _ _ (fun _ => True)); [exact IH |].
      intros; apply quiet_ret; exact I.
Qed.

(** [toToolEnvelope] always returns, and what it returns is a complete
    envelope around the data it was given. *)
Lemma quiet_toToolEnvelope (d : json) (l : list (string * string))
    (a : json) (w : list jsstring) :
  quiet (toToolEnvelope d l a w)
    (fun out => exists srcs t, out = ToolResult (envelope d srcs a t w)).
Proof.
  unfold toToolEnvelope.
  apply (quiet_bind _ _ (fun _ => True)); [apply quiet_sources_of |].
  intros srcs _.
  apply (quiet_bind _ _ (fun _ => True)); [apply quiet_nowIso |].
  intros t _. apply quiet_ret. exists srcs, t. reflexivity.
Qed.

Lemma quiet_yields {A} (m : M A) (P : A -> Prop) : quiet m P -> yields m P.
Proof.
  intros H st. destruct (H st) as (a & st' & E & _ & Pa). rewrite E. exact Pa.
Qed.

Lemma yields_bind {A B} (m : M A) (f : A -> M B) (P : B -> Prop) :
  (forall a, yields (f a) P) -> yields (bind m f) P.
Proof.
  intros H st. unfold bind. destruct (m st) as [[a | e] st1]; simpl.
  - apply H.
  - exact I.
Qed.

Lemma yields_toToolEnvelope (d : json) (l : list (string * string))
    (a : json) (w : list jsstring) :
  yields (toToolEnvelope d l a w) settled.
Proof.
  intros st. destruct (quiet_toToolEnvelope d l a w st)
    as (out & st' & E & _ & srcs & t & ->).
  rewrite E. simpl. exists d, srcs, a, t, w. reflexivity.
Qed.

Lemma yields_error (text : jsstring) : yields (ret (toolError_str text)) settled.
Proof. intros st. exact I. Qed.

#[local] Hint Resolve yields_toToolEnvelope yields_error : gateway.

Ltac settle :=
  repeat first
    [ solve [auto with gateway]
    | apply yields_bind; intros
    | match goal with
      | |- yields (match ?x with _ => _ end) _ => destruct x
      | |- yields (let (_, _) := ?x in _) _ => destruct x
      end ].

Lemma yields_body (c : composite_call) : yields (body_of c) settled.
Proof.
  destruct c; cbn [body_of].
  - unfold network_overview_body. settle.
  - unfold ledger_summary_body. settle.
  - unfold tx_explain_body. settle.
  - unfold account_overview_body. settle.
  - unfold token_overview_body. settle.
  - unfold market_snapshot_body. settle.
  - unfold amm_overview_body. settle.
  - unfold validator_set_overview_body. settle.
  - unfold validator_health_body. settle.
  - unfold amendment_status_body. settle.
  - unfold search_transactions_body. settle.
  - unfold resolve_entities_body. settle.
Qed.

Lemma classify_kind (value : jsstring) :
  classify value
  = ({| type := kind_name (kind_of value);
        normalized := kind_normalized (kind_of value) value |},
     kind_tools (kind_of value)).
Proof.
  unfold classify, kind_of, RE_HEX64.
  rewrite test_hex, test_account, test_token_id, test_digits, includes_period.
  destruct (hex_string 64 value); [reflexivity |].
  destruct (address value); [reflexivity |].
  destruct (token_identifier value); [reflexivity |].
  destruct (digits_only value); [reflexivity |].
  destruct (contains_period value); reflexivity.
Qed.

(* ================================================================= *)
(** ** Theory of the identifier normalizer *)

(** Case analysis on every range test in the goal. *)
Ltac range_step :=
  match goal with
  | H : context [N.leb ?a ?b] |- _ => destruct (N.leb_spec a b)
  | H : context [N.ltb ?a ?b] |- _ => destruct (N.ltb_spec a b)
  | H : context [N.eqb ?a ?b] |- _ => destruct (N.eqb_spec a b)
  | |- context [N.leb ?a ?b] => destruct (N.leb_spec a b)
  | |- context [N.ltb ?a ?b] => destruct (N.ltb_spec a b)
  | |- context [N.eqb ?a ?b] => destruct (N.eqb_spec a b)
  end;
  cbn [andb orb negb] in *; try discriminate; try (exfalso; lia).

Ltac ranges :=
  unfold is_alnum, is_digit, is_upper, is_lower, is_hex_digit, upper_cu,
    is_js_whitespace, hex_value, hex_digit, is_high_surrogate,
    is_low_surrogate, in_range in *;
  repeat range_step;
  try reflexivity; try lia.

Lemma upper_cu_idem (c : N) : upper_cu (upper_cu c) = upper_cu c.
Proof. ranges. Qed.

Lemma toUpperCase_idem (s : jsstring) :
  toUpperCase (toUpperCase s) = toUpperCase s.
Proof.
  unfold toUpperCase. rewrite map_map. apply map_ext, upper_cu_idem.
Qed.

Lemma alnum_upper (c : N) : is_alnum c = true -> is_alnum (upper_cu c) = true.
Proof. intros H. ranges. Qed.

Lemma alnum_not_whitespace (c : N) :
  is_alnum c = true -> is_js_whitespace c = false.
Proof. intros H. ranges. Qed.

Lemma alnum_upper_octet (c : N) :
  is_alnum c = true -> N.land (upper_cu c) 255 = upper_cu c.
Proof.
  intros H. change 255 with (N.ones 8). rewrite N.land_ones.
  apply N.mod_small. change (2 ^ 8) with 256. ranges.
Qed.

(** The shape of an ISO-style code. *)
Lemma iso_code_inv (s : jsstring) :
  iso_code s = true ->
  exists a b c,
    s = [a; b; c]
    /\ is_alnum a = true /\ is_alnum b = true /\ is_alnum c = true.
Proof.
  unfold iso_code. intros H. apply andb_true_iff in H as [Hl Ha].
  destruct s as [| a [| b [| c [| d s]]]]; try discriminate.
  simpl in Ha. rewrite andb_true_r in Ha.
  apply andb_true_iff in Ha as [Ha Hb]. apply andb_true_iff in Hb as [Hb Hc].
  exists a, b, c. auto.
Qed.

Lemma iso_code_trim (s : jsstring) : iso_code s = true -> trim s = s.
Proof.
  intros H. apply iso_code_inv in H as (a & b & c & -> & Ha & _ & Hc).
  apply alnum_not_whitespace in Ha, Hc.
  unfold trim, trimEnd. simpl. rewrite Ha. simpl. rewrite Hc. reflexivity.
Qed.

Lemma iso_code_upper (s : jsstring) :
  iso_code s = true -> iso_code (toUpperCase s) = true.
Proof.
  intros H. apply iso_code_inv in H as (a & b & c & -> & Ha & Hb & Hc).
  unfold iso_code. simpl.
  rewrite (alnum_upper a Ha), (alnum_upper b Hb), (alnum_upper c Hc).
  reflexivity.
Qed.

Lemma iso_code_not_hex40 (s : jsstring) :
  iso_code s = true -> hex_string 40 s = false.
Proof.
  intros H. apply iso_code_inv in H as (a & b & c & -> & _). reflexivity.
Qed.

(** Octets survive the hexadecimal rendering. *)
Lemma nibble_roundtrip (n : N) :
  n < 16 -> hex_value (upper_cu (hex_digit n)) = Some n.
Proof. intros H. ranges; f_equal; lia. Qed.

Lemma nibble_upper_hex (n : N) :
  n < 16 ->
  is_digit (upper_cu (hex_digit n)) || in_range 65 70 (upper_cu (hex_digit n))
  = true.
Proof. intros H. ranges. Qed.

Lemma hex_roundtrip (bytes : buffer) (rest : jsstring) :
  Forall (fun o => o < 256) bytes ->
  hex_decode (toUpperCase (Buffer_toString_hex bytes) ++ rest)
  = match hex_decode rest with
    | Some r => Some (bytes ++ r)
    | None => None
    end.
Proof.
  induction 1 as [| o bytes Ho _ IH].
  - simpl. destruct (hex_decode rest); reflexivity.
  - change (toUpperCase (Buffer_toString_hex (o :: bytes)) ++ rest)
      with (upper_cu (hex_digit (o / 16)) :: upper_cu (hex_digit (o mod 16))
            :: (toUpperCase (Buffer_toString_hex bytes) ++ rest)).
    cbn [hex_decode].
    rewrite !nibble_roundtrip, IH.
    + destruct (hex_decode rest) as [r |]; [| reflexivity].
      change ((o :: bytes) ++ r) with (o :: bytes ++ r).
      cbv beta iota. do 2 f_equal. symmetry. apply N.div_mod. lia.
    + apply N.mod_lt. lia.
    + apply N.Div0.div_lt_upper_bound. lia.
Qed.

Lemma length_hex (bytes : buffer) :
  List.length (toUpperCase (Buffer_toString_hex bytes))
  = (2 * List.length bytes)%nat.
Proof.
  unfold toUpperCase. rewrite length_map.
  induction bytes as [| o bytes IH]; simpl; [reflexivity | rewrite IH; lia].
Qed.

Lemma upper_hex_rendering (bytes : buffer) :
  Forall (fun o => o < 256) bytes ->
  forallb is_upper_hex_digit (toUpperCase (Buffer_toString_hex bytes)) = true.
Proof.
  induction 1 as [| o bytes Ho _ IH]; [reflexivity |].
  change (toUpperCase (Buffer_toString_hex (o :: bytes)))
    with (upper_cu (hex_digit (o / 16)) :: upper_cu (hex_digit (o mod 16))
          :: toUpperCase (Buffer_toString_hex bytes)).
  cbn [forallb]. rewrite IH. unfold is_upper_hex_digit.
  rewrite !nibble_upper_hex; [reflexivity | |].
  - apply N.mod_lt. lia.
  - apply N.Div0.div_lt_upper_bound. lia.
Qed.

Lemma utf8_of_code_point_octets (cp : N) :
  cp < 1114112 -> Forall (fun o => o < 256) (utf8_of_code_point cp).
Proof.
  intros H. unfold utf8_of_code_point.
  pose proof (N.mod_lt cp 64). pose proof (N.mod_lt (cp / 64) 64).
  pose proof (N.mod_lt (cp / 4096) 64).
  destruct (N.ltb_spec cp 128); [repeat constructor; lia |].
  destruct (N.ltb_spec cp 2048).
  - assert (cp / 64 < 32) by (apply N.Div0.div_lt_upper_bound; lia).
    repeat constructor; lia.
  - destruct (N.ltb_spec cp 65536).
    + assert (cp / 4096 < 16) by (apply N.Div0.div_lt_upper_bound; lia).
      repeat constructor; lia.
    + assert (cp / 262144 < 5) by (apply N.Div0.div_lt_upper_bound; lia).
      repeat constructor; lia.
Qed.

Lemma replacement_octets : Forall (fun o => o < 256) [239; 191; 189].
Proof. repeat constructor; lia. Qed.

Lemma Buffer_from_utf8_octets (s : jsstring) :
  wf_jsstring s -> Forall (fun o => o < 256) (Buffer_from_utf8 s).
Proof.
  assert (G : forall n s, (List.length s <= n)%nat -> wf_jsstring s ->
                          Forall (fun o => o < 256) (Buffer_from_utf8 s)).
  { induction n as [| n IH]; intros t Hl Hw.
    - destruct t; [constructor | simpl in Hl; lia].
    - destruct t as [| c rest]; [constructor |].
      inversion Hw as [| ? ? Hc Hrest]; subst.
      assert (IHrest : Forall (fun o => o < 256) (Buffer_from_utf8 rest))
        by (apply IH; [simpl in Hl; lia | exact Hrest]).
      cbn [Buffer_from_utf8].
      destruct (is_high_surrogate c) eqn:Eh.
      + destruct rest as [| d rest']; [apply replacement_octets |].
        destruct (is_low_surrogate d) eqn:El.
        * inversion Hrest as [| ? ? Hd Hrest']; subst.
          apply Forall_app. split.
          -- apply utf8_of_code_point_octets.
             unfold is_high_surrogate, is_low_surrogate, in_range in Eh, El.
             apply andb_true_iff in Eh as [_ Eh], El as [_ El].
             apply N.leb_le in Eh, El. lia.
          -- apply IH; [simpl in Hl; lia | exact Hrest'].
        * apply Forall_app. split; [apply replacement_octets | exact IHrest].
      + destruct (is_low_surrogate c).
        * apply Forall_app. split; [apply replacement_octets | exact IHrest].
        * apply Forall_app. split; [| exact IHrest].
          apply utf8_of_code_point_octets. lia. }
  apply (G (List.length s) s). lia.
Qed.

Lemma wf_trimStart (s : jsstring) : wf_jsstring s -> wf_jsstring (trimStart s).
Proof.
  induction 1 as [| c s Hc Hs IH]; simpl; [constructor |].
  destruct (is_js_whitespace c); [exact IH | constructor; assumption].
Qed.

Lemma wf_trim (s : jsstring) : wf_jsstring s -> wf_jsstring (trim s).
Proof.
  intros H. unfold trim, trimEnd, wf_jsstring.
  apply Forall_rev. apply wf_trimStart. apply Forall_rev.
  apply wf_trimStart, H.
Qed.

(** The three input shapes of the normalizer, by the specification's
    predicates. *)
Lemma currencyTo160Hex_cases (currency : jsstring) :
  currencyTo160Hex currency
  = let raw := trim currency in
    if hex_string 40 raw then Some (toUpperCase raw)
    else if iso_code raw then
      Some (toUpperCase
              (Buffer_toString_hex (Buffer_from_ascii (toUpperCase raw)))
            ++ repeat 48 34)
    else if (20 <? List.length (Buffer_from_utf8 raw))%nat then None
    else
      Some (toUpperCase
              (Buffer_toString_hex
                 (Buffer_from_utf8 raw
                  ++ Buffer_alloc (20 - List.length (Buffer_from_utf8 raw))))).
Proof.
  unfold currencyTo160Hex, RE_HEX40. rewrite test_hex, test_alnum3. reflexivity.
Qed.

Lemma iso_code_ascii (s : jsstring) :
  iso_code s = true ->
  Buffer_from_ascii (toUpperCase s) = toUpperCase s
  /\ Forall (fun o => o < 256) (toUpperCase s).
Proof.
  intros H. apply iso_code_inv in H as (a & b & c & -> & Ha & Hb & Hc).
  unfold Buffer_from_ascii. simpl.
  rewrite !alnum_upper_octet by assumption. split; [reflexivity |].
  repeat constructor; ranges.
Qed.

Lemma iso_code_hex (s : jsstring) :
  iso_code s = true ->
  currencyTo160Hex s
  = Some (toUpperCase (Buffer_toString_hex (toUpperCase s)) ++ repeat 48 34).
Proof.
  intros H. rewrite currencyTo160Hex_cases. cbv zeta.
  rewrite (iso_code_trim s H), (iso_code_not_hex40 s H), H.
  destruct (iso_code_ascii s H) as [-> _]. reflexivity.
Qed.

Lemma some_inj (A : Type) (a b : A) : Some a = Some b -> a = b.
Proof. congruence. Qed.

Lemma Ok_inj (A : Type) (a b : A) : Ok a = Ok b -> a = b.
Proof. congruence. Qed.

Lemma firstn_length_app (A : Type) (l t : list A) :
  firstn (List.length l) (l ++ t) = l.
Proof.
  rewrite firstn_app, firstn_all, Nat.sub_diag. simpl. apply app_nil_r.
Qed.

(* ================================================================= *)
(** ** Theory of the schema-tolerant search *)

(** Induction over a payload through [Object_values]. *)
Lemma json_values_ind (P : json -> Prop) :
  (forall v, (forall child, In child (Object_values v) -> P child) -> P v) ->
  forall v, P v.
Proof.
  intros H.
  refine (fix go (v : json) {struct v} : P v := H v _).
  destruct v as [| | b | n | s | items | props]; simpl;
    try (intros child []).
  - induction items as [| x items IH]; intros child Hin.
    + destruct Hin.
    + destruct Hin as [<- | Hin]; [apply go | apply (IH child Hin)].
  - induction props as [| [k x] props IH]; intros child Hin.
    + destruct Hin.
    + destruct Hin as [<- | Hin]; [apply go | apply (IH child Hin)].
Qed.

(** The two loops of the search are one: the named keys of the value,
    then every nested object or array, each searched the same way. *)
Lemma pickFirstNumber_eq (value : json) (keys : list jsstring) :
  pickFirstNumber value keys
  = if is_object value then
      match first_number value keys with
      | Some n => Some n
      | None =>
          first_some
            (fun nested =>
               if is_object nested then pickFirstNumber nested keys else None)
            (Object_values value)
      end
    else None.
Proof.
  destruct value as [| | b | n | s | items | props]; try reflexivity.
  - cbn [pickFirstNumber is_object Object_values].
    destruct (first_number (JArr items) keys); [reflexivity |].
    induction items as [| x items IH]; [reflexivity |].
    cbn [first_some].
    destruct (if is_object x then pickFirstNumber x keys else None);
      [reflexivity | exact IH].
  - cbn [pickFirstNumber is_object Object_values].
    destruct (first_number (JObj props) keys); [reflexivity |].
    induction props as [| [k x] props IH]; [reflexivity |].
    cbn [first_some List.map snd].
    destruct (if is_object x then pickFirstNumber x keys else None);
      [reflexivity | exact IH].
Qed.

Lemma first_number_sound (value : json) (keys : list jsstring) (n : float) :
  first_number value keys = Some n ->
  exists key,
    In key keys /\ has_key key value = true
    /\ toNum (prop value key) = Some n.
Proof.
  induction keys as [| key keys IH]; simpl; [discriminate |].
  destruct (has_key key value) eqn:Hk.
  - destruct (toNum (prop value key)) eqn:Hn.
    + intros E. apply some_inj in E. subst. exists key. auto.
    + intros E. destruct (IH E) as (k & Hin & H). exists k. auto.
  - intros E. destruct (IH E) as (k & Hin & H). exists k. auto.
Qed.

Lemma first_some_sound {A B} (f : A -> option B) (l : list A) (b : B) :
  first_some f l = Some b -> exists x, In x l /\ f x = Some b.
Proof.
  induction l as [| x l IH]; simpl; [discriminate |].
  destruct (f x) eqn:E.
  - intros H. apply some_inj in H. subst. exists x. auto.
  - intros H. destruct (IH H) as (y & Hin & Hy). exists y. auto.
Qed.

Lemma pickFirstNumber_sound (keys : list jsstring) (n : float) :
  forall value,
    pickFirstNumber value keys = Some n ->
    exists d holder key,
      nested_at d holder value /\ In key keys
      /\ has_key key holder = true /\ toNum (prop holder key) = Some n.
Proof.
  apply (json_values_ind
           (fun value =>
              pickFirstNumber value keys = Some n ->
              exists d holder key,
                nested_at d holder value /\ In key keys
                /\ has_key key holder = true
                /\ toNum (prop holder key) = Some n)).
  intros v IH. rewrite pickFirstNumber_eq.
  destruct (is_object v); [| discriminate].
  destruct (first_number v keys) eqn:Ef.
  - intros E. apply some_inj in E. subst.
    destruct (first_number_sound _ _ _ Ef) as (key & Hin & Hk & Hn).
    exists 0%nat, v, key. repeat split; auto. constructor.
  - intros E. apply first_some_sound in E as (child & Hin & Hc).
    destruct (is_object child) eqn:Eo; [| discriminate].
    destruct (IH child Hin Hc) as (d & holder & key & Hn & Hk & Hh & Ht).
    exists (S d), holder, key. repeat split; auto.
    apply (nested_step d holder child v); auto.
Qed.

Lemma bury_is_object (d : nat) (value : json) :
  is_object value = true -> is_object (bury d value) = true.
Proof. destruct d; simpl; auto. Qed.

Lemma pickFirstNumber_bury (d : nat) (value : json) :
  is_object value = true ->
  pickFirstNumber (bury d value) LEDGER_ALIASES
  = pickFirstNumber value LEDGER_ALIASES.
Proof.
  intros Ho. induction d as [| d IH]; [reflexivity |].
  cbn [bury]. rewrite pickFirstNumber_eq.
  change (first_number (JObj [field "data" (bury d value)]) LEDGER_ALIASES)
    with (@None float).
  cbn [is_object Object_values List.map snd field first_some].
  rewrite (bury_is_object d value Ho), IH.
  destruct (pickFirstNumber value LEDGER_ALIASES); reflexivity.
Qed.

(* ================================================================= *)
(** ** Numbers *)

Lemma zero_not_positive (d : float) :
  (d =? 0)%float = true -> (0 <? d)%float = false.
Proof.
  rewrite eqb_spec, ltb_spec.
  change (Prim2SF 0) with (S754_zero false).
  unfold SFeqb, SFltb. destruct (Prim2SF d) as [s | s | | s m e]; simpl;
    try discriminate; try reflexivity.
  all: destruct s; discriminate.
Qed.






(* ================================================================= *)
(** ** Theory of the market sums *)

Lemma rfold_ok_inv {A B} (f : B -> A -> result B) (g : B -> A -> B)
    (l : list A) :
  (forall acc x y, f acc x = Ok y -> y = g acc x) ->
  forall acc r, rfold f l acc = Ok r -> r = fold_left g l acc.
Proof.
  intros Hfg. induction l as [| x l IH]; intros acc r; simpl.
  - intros E. apply Ok_inj in E. congruence.
  - destruct (f acc x) as [y | e] eqn:Ef; simpl; [| discriminate].
    rewrite (Hfg _ _ _ Ef). apply IH.
Qed.

Lemma row_number_ok (t : json) (key : jsstring) (x : float) :
  row_number t key = Ok x -> x = Number (logical_or (prop t key) (JNum 0)).
Proof.
  unfold row_number, member. destruct (nullish t); simpl; [discriminate |].
  intros E. apply Ok_inj in E. congruence.
Qed.

Lemma vwapNumerator_ok (trades : list json) (n : float) :
  vwapNumerator trades = Ok n -> n = weighted_sum trades.
Proof.
  apply rfold_ok_inv. intros acc t y.
  destruct (row_number t (lit "price")) as [p | e] eqn:Ep; simpl;
    [| discriminate].
  destruct (row_number t (lit "amount")) as [a | e] eqn:Ea; simpl;
    [| discriminate].
  intros E. apply Ok_inj in E.
  apply row_number_ok in Ep, Ea. unfold price_of, amount_of. congruence.
Qed.

Lemma vwapDenominator_ok (trades : list json) (d : float) :
  vwapDenominator trades = Ok d -> d = amount_sum trades.
Proof.
  apply rfold_ok_inv. intros acc t y.
  destruct (row_number t (lit "amount")) as [a | e] eqn:Ea; simpl;
    [| discriminate].
  intros E. apply Ok_inj in E.
  apply row_number_ok in Ea. unfold amount_of. congruence.
Qed.

Lemma vwap_ok (trades : list json) (v : option float) :
  vwap trades = Ok v ->
  v = if (0 <? amount_sum trades)%float
      then Some (weighted_sum trades / amount_sum trades)%float
      else None.
Proof.
  unfold vwap.
  destruct (vwapNumerator trades) as [n | e] eqn:En; simpl; [| discriminate].
  destruct (vwapDenominator trades) as [d | e] eqn:Ed; simpl; [| discriminate].
  apply vwapNumerator_ok in En. apply vwapDenominator_ok in Ed. subst.
  intros E. apply Ok_inj in E. congruence.
Qed.

(* ================================================================= *)
(** ** What a handler puts in its envelope *)

Lemma yields_bind_lift {A B} (r : result A) (f : A -> M B) (P : B -> Prop) :
  (forall a, r = Ok a -> yields (f a) P) -> yields (bind (lift r) f) P.
Proof.
  intros H st. unfold bind, lift. destruct r as [a | e]; simpl.
  - apply (H a eq_refl).
  - exact I.
Qed.

Lemma yields_envelope (d : json) (l : list (string * string)) (a : json)
    (w : list jsstring) (P : tool_output -> Prop) :
  (forall srcs t, P (ToolResult (envelope d srcs a t w))) ->
  yields (toToolEnvelope d l a w) P.
Proof.
  intros H. apply quiet_yields. intros st.
  destruct (quiet_toToolEnvelope d l a w st)
    as (out & st' & E & T & srcs & t & ->).
  exists (ToolResult (envelope d srcs a t w)), st'. auto.
Qed.

(** A handler whose body yields [P] returns an error or a result
    satisfying [P]. *)
Lemma handler_yields (body : M tool_output) (P : tool_output -> Prop)
    (st : state) :
  yields body P ->
  (exists message, fst (handler body st) = ToolError message)
  \/ P (fst (handler body st)).
Proof.
  intros H. specialize (H st). unfold handler.
  destruct (body st) as [[out | [message]] st']; simpl in *.
  - right. exact H.
  - left. exists message. reflexivity.
Qed.

Lemma market_snapshot_payload (base quote options : json) :
  yields (market_snapshot_body base quote options)
    (fun out =>
       exists trades v,
         vwap trades = Ok v
         /\ data_of out # "recentTrades" # "vwap" = json_of_num v
         /\ data_of out # "recentTrades" # "count"
            = JNum (num_of_nat (List.length trades))
         /\ data_of out # "recentTrades" # "sample" = JArr (firstn 20 trades)).
Proof.
  unfold market_snapshot_body.
  do 3 (apply yields_bind; intros).
  apply yields_bind_lift. intros v Hv.
  apply yields_envelope. intros srcs t.
  eexists. exists v. split; [exact Hv |]. repeat split; reflexivity.
Qed.

Lemma account_overview_payload (account : jsstring) (options : json) :
  yields (account_overview_body account options)
    (fun out =>
       exists trustlineCount accountData txs act,
         recent_activity account txs = Ok act
         /\ data_of out # "riskIndicators"
            = JArr (List.map JStr (riskIndicators trustlineCount accountData))
         /\ data_of out # "trustlines" # "count"
            = JNum (num_of_nat trustlineCount)
         /\ data_of out # "ownerCount"
            = JNum (Number (logical_or (accountData # "OwnerCount") (JNum 0)))
         /\ data_of out # "flags" = accountData # "Flags" ?? JNum 0
         /\ data_of out # "recentActivity" # "recentCounterparties"
            = JArr (List.map counterparty_json
                      (recentCounterparties (counterparties act)))).
Proof.
  unfold account_overview_body.
  do 3 (apply yields_bind; intros).
  apply yields_bind_lift. intros topTokens _.
  apply yields_bind_lift. intros act Hact.
  apply yields_envelope. intros srcs t.
  do 3 eexists. exists act. split; [exact Hact |]. repeat split; reflexivity.
Qed.

(* ================================================================= *)
(** ** Theory of the account summary *)

Lemma jsstring_eqb_refl (s : jsstring) : jsstring_eqb s s = true.
Proof.
  induction s as [| c s IH]; simpl; [reflexivity |].
  unfold cu_eqb. rewrite N.eqb_refl. exact IH.
Qed.

Lemma jsstring_eqb_eq (a b : jsstring) : jsstring_eqb a b = true <-> a = b.
Proof.
  split; [| intros ->; apply jsstring_eqb_refl].
  revert b. induction a as [| x a IH]; intros [| y b]; simpl;
    try discriminate; [reflexivity |].
  intros H. apply andb_true_iff in H as [H1 H2].
  apply N.eqb_eq in H1. apply IH in H2. congruence.
Qed.

Lemma strict_neq_str_sound (k : json) (s : jsstring) :
  strict_neq_str k s = true -> k <> JStr s.
Proof.
  intros H ->. simpl in H. rewrite jsstring_eqb_refl in H. discriminate.
Qed.

Lemma rfold_invariant {A B} (f : B -> A -> result B) (Inv : B -> Prop)
    (l : list A) :
  (forall acc x y, Inv acc -> f acc x = Ok y -> Inv y) ->
  forall acc r, Inv acc -> rfold f l acc = Ok r -> Inv r.
Proof.
  intros Hf. induction l as [| x l IH]; intros acc r Hacc; simpl.
  - intros E. apply Ok_inj in E. subst. exact Hacc.
  - destruct (f acc x) as [y | e] eqn:Ef; simpl; [| discriminate].
    apply IH. apply (Hf acc x y Hacc Ef).
Qed.

Lemma map_bump_keys (cp : json) (m : list (json * nat)) (e : json * nat) :
  In e (map_bump cp m) -> fst e = cp \/ exists e', In e' m /\ fst e' = fst e.
Proof.
  induction m as [| [k n] m IH]; simpl.
  - intros [<- | []]. left. reflexivity.
  - destruct (same_value_zero k cp).
    + intros [<- | Hin]; right.
      * exists (k, n). simpl. auto.
      * exists e. simpl. auto.
    + intros [<- | Hin].
      * right. exists (k, n). simpl. auto.
      * destruct (IH Hin) as [H | (e' & Hin' & He')]; [left; exact H |].
        right. exists e'. simpl. auto.
Qed.

Lemma activity_step_foreign (account : jsstring) (acc : activity)
    (row : json) (next : activity) :
  foreign_keys account (counterparties acc) ->
  activity_step account acc row = Ok next ->
  foreign_keys account (counterparties next).
Proof.
  intros Hacc. unfold activity_step.
  destruct (member row (lit "tx_json")) as [tx_json | e]; simpl;
    [| discriminate].
  intros E. apply Ok_inj in E. subst next. simpl.
  set (cp := logical_or _ _).
  destruct (truthy cp && strict_neq_str cp account) eqn:Ecp; [| exact Hacc].
  apply andb_true_iff in Ecp as [_ Hneq].
  intros e Hin. apply map_bump_keys in Hin as [-> | (e' & Hin' & <-)].
  - exact Hneq.
  - apply Hacc, Hin'.
Qed.

Lemma recent_activity_foreign (account : jsstring) (txs : json)
    (act : activity) :
  recent_activity account txs = Ok act ->
  foreign_keys account (counterparties act).
Proof.
  unfold recent_activity.
  destruct (iterate txs) as [rows | e]; simpl; [| discriminate].
  apply (rfold_invariant (activity_step account)
           (fun a => foreign_keys account (counterparties a))).
  - intros acc x y. apply activity_step_foreign.
  - intros e [].
Qed.

Lemma insert_sorted_In {A} (after : A -> A -> bool) (x y : A) (l : list A) :
  In y (insert_sorted after x l) -> y = x \/ In y l.
Proof.
  induction l as [| z l IH]; simpl.
  - intros [<- | []]. left. reflexivity.
  - destruct (after x z); simpl.
    + intros [<- | Hin]; [right; left; reflexivity |].
      destruct (IH Hin); auto.
    + intros [<- | Hin]; auto.
Qed.

Lemma stable_sort_In {A} (after : A -> A -> bool) (y : A) (l : list A) :
  In y (stable_sort after l) -> In y l.
Proof.
  unfold stable_sort. induction l as [| x l IH]; simpl; [auto |].
  intros Hin. apply insert_sorted_In in Hin as [-> | Hin]; auto.
Qed.

Lemma firstn_In {A} (n : nat) (y : A) (l : list A) :
  In y (firstn n l) -> In y l.
Proof. unused.
  revert l. induction n as [| n IH]; intros [| x l]; simpl; try tauto.
  intros [<- | Hin]; auto.
Qed.

Lemma recentCounterparties_In (e : json * nat) (m : list (json * nat)) :
  In e (recentCounterparties m) -> In e m.
Proof.
  unfold recentCounterparties. intros H.
  apply firstn_In in H. apply stable_sort_In in H. exact H.
Qed.


(* ================================================================= *)
(** ** The claims *)

(** C1. Every composite tool handler, against every behaviour of the
    upstream services, returns exactly one result, which is either a
    complete envelope (data, sources, freshness, warnings) or an error;
    and whenever a mandatory upstream call fails, the result is the error
    carrying that failure's message, so no envelope, and none of the
    optional data gathered before the failure, is returned. *)
Theorem composite_envelope_or_error (c : composite_call) (st : state) :
  settled (fst (invoke c st))
  /\ exists evs,
       trace (snd (invoke c st)) = trace st ++ evs
       /\ forall e,
            In (mandatory_failure e) evs -> fst (invoke c st) = toolError e.
Proof.
  unfold invoke, handler.
  pose proof (yields_body c st) as Hy.
  destruct (propagates_body c st) as (evs & Et & Hp).
  destruct (body_of c st) as [[out | error] st']; simpl in *.
  - split; [exact Hy |]. exists evs. split; [exact Et |].
    intros e Hin. apply Hp in Hin. discriminate.
  - split; [destruct error; exact I |]. exists evs. split; [exact Et |].
    intros e Hin. apply Hp in Hin. injection Hin as ->. reflexivity.
Qed.

(** C7. [resolve_entities] classifies its trimmed input by the first
    matching pattern in the fixed order (64 hexadecimal digits: tx_hash,
    upper-cased; address: account; 40 hexadecimal digits, a period, an
    address: token_id; digits only: ledger_index, converted to a number;
    containing a period: domain_or_host; otherwise unknown), reports the
    fixed follow-up tools of that kind, and carries a warning exactly when
    the kind is unknown. *)
Theorem resolve_entities_classifies (input : jsstring) (st : state) :
  let k := kind_of (trim input) in
  exists srcs t st',
    resolve_entities input st
    = (ToolResult
         (envelope
            (JObj [field "entity"
                     (JObj [field "type" (JStr (kind_name k));
                            field "normalized"
                              (kind_normalized k (trim input))]);
                   field "nextTools" (JArr (List.map JStr (kind_tools k)))])
            srcs JUndefined t
            (match k with Unknown => [UNKNOWN_WARNING] | _ => [] end)),
       st').
Proof.
  intros k. unfold resolve_entities, handler, resolve_entities_body.
  rewrite classify_kind. fold k.
  match goal with
  | |- context [toToolEnvelope ?d ?l ?a ?w st] =>
      destruct (quiet_toToolEnvelope d l a w st)
        as (out & st' & E & _ & srcs & t & ->); rewrite E
  end.
  exists srcs, t, st'. destruct k; reflexivity.
Qed.

(** C9. For every currency of exactly three alphanumeric characters the
    normalizer upper-cases the code before encoding it: the result is 40
    upper-case hexadecimal digits that decode to the ASCII octets of the
    upper-cased code followed by zero octets, and it is the result for
    the upper-cased code as well, so the normalizer is case-insensitive
    on such codes. *)
Theorem currency_code_case_insensitive (c : jsstring) :
  iso_code c = true ->
  exists h,
    currencyTo160Hex c = Some h
    /\ List.length h = 40%nat
    /\ forallb is_upper_hex_digit h = true
    /\ hex_decode h = Some (toUpperCase c ++ repeat 0 17)
    /\ currencyTo160Hex (toUpperCase c) = Some h.
Proof.
  intros H.
  exists (toUpperCase (Buffer_toString_hex (toUpperCase c)) ++ repeat 48 34).
  destruct (iso_code_ascii c H) as [_ Ho].
  split; [apply iso_code_hex, H |].
  split.
  { rewrite length_app, length_hex, repeat_length.
    unfold toUpperCase. rewrite length_map.
    apply iso_code_inv in H as (x & y & z & -> & _). reflexivity. }
  split.
  { rewrite forallb_app, (upper_hex_rendering _ Ho). reflexivity. }
  split.
  { rewrite (hex_roundtrip _ _ Ho). reflexivity. }
  rewrite (iso_code_hex _ (iso_code_upper c H)), toUpperCase_idem. reflexivity.
Qed.

(** C5 (amended). The token key is a function of the issuer and the
    currency.  Its first 40 characters are the currency segment, followed
    by a period and the issuer.  For a trimmed currency of 40 hexadecimal
    digits the segment is that string upper-cased; for a trimmed currency
    of exactly three alphanumeric characters the segment decodes to the
    octets of the upper-cased code, zero-padded to 20 octets; for any
    other accepted currency it decodes to the UTF-8 octets of the trimmed
    currency, zero-padded to 20 octets. *)
Theorem token_key_segment_decodes (issuer currency key : jsstring) :
  wf_jsstring currency ->
  tokenIdFromIssuerCurrency issuer currency = Some key ->
  let raw := trim currency in
  let segment := firstn 40 key in
  key = segment ++ lit "." ++ issuer
  /\ List.length segment = 40%nat
  /\ (forall key',
         tokenIdFromIssuerCurrency issuer currency = Some key' -> key' = key)
  /\ (hex_string 40 raw = true -> segment = toUpperCase raw)
  /\ (hex_string 40 raw = false -> iso_code raw = true ->
      hex_decode segment = Some (toUpperCase raw ++ repeat 0 17))
  /\ (hex_string 40 raw = false -> iso_code raw = false ->
      hex_decode segment
      = Some (Buffer_from_utf8 raw
              ++ repeat 0 (20 - List.length (Buffer_from_utf8 raw)))).
Proof.
  intros Hw Hk raw segment. pose proof Hk as Hk0.
  unfold tokenIdFromIssuerCurrency in Hk.
  destruct (currencyTo160Hex currency) as [h |] eqn:Eh; [| discriminate].
  assert (Hlen : List.length h = 40%nat /\
          (hex_string 40 raw = true -> h = toUpperCase raw)
          /\ (hex_string 40 raw = false -> iso_code raw = true ->
              hex_decode h = Some (toUpperCase raw ++ repeat 0 17))
          /\ (hex_string 40 raw = false -> iso_code raw = false ->
              hex_decode h
              = Some (Buffer_from_utf8 raw
                      ++ repeat 0 (20 - List.length (Buffer_from_utf8 raw))))).
  { rewrite currencyTo160Hex_cases in Eh. cbv zeta in Eh. fold raw in Eh.
    destruct (hex_string 40 raw) eqn:E40.
    - apply some_inj in Eh. subst h. unfold hex_string in E40.
      apply andb_true_iff in E40 as [E40 _]. apply Nat.eqb_eq in E40.
      unfold toUpperCase. rewrite length_map.
      repeat split; auto; discriminate.
    - destruct (iso_code raw) eqn:Eiso.
      + apply some_inj in Eh. subst h.
        destruct (iso_code_ascii raw Eiso) as [-> Ho].
        split.
        { rewrite length_app, length_hex.
          unfold toUpperCase. rewrite length_map.
          apply iso_code_inv in Eiso as (x & y & z & E & _).
          rewrite E. reflexivity. }
        repeat split; try discriminate.
        intros _ _. rewrite (hex_roundtrip _ _ Ho). reflexivity.
      + destruct (Nat.ltb_spec 20 (List.length (Buffer_from_utf8 raw)))
          as [Hlong | Hfit]; [discriminate |].
        apply some_inj in Eh. subst h.
        assert (Ho : Forall (fun o => o < 256)
                       (Buffer_from_utf8 raw
                        ++ Buffer_alloc
                             (20 - List.length (Buffer_from_utf8 raw)))).
        { apply Forall_app. split.
          - apply Buffer_from_utf8_octets, wf_trim, Hw.
          - unfold Buffer_alloc. apply Forall_forall. intros x Hx.
            apply repeat_spec in Hx. subst x. lia. }
        split.
        { rewrite length_hex, length_app. unfold Buffer_alloc.
          rewrite repeat_length. lia. }
        repeat split; try discriminate.
        intros _ _.
        rewrite <- (app_nil_r (toUpperCase _)).
        rewrite (hex_roundtrip _ [] Ho). simpl. rewrite app_nil_r.
        reflexivity. }
  destruct Hlen as (Hl & H1 & H2 & H3).
  assert (Ekey : key = h ++ lit "." ++ issuer).
  { destruct h; [discriminate | injection Hk as <-; reflexivity]. }
  assert (Eseg : segment = h).
  { unfold segment. rewrite Ekey, <- Hl. apply firstn_length_app. }
  rewrite Eseg. repeat split; auto.
  intros key' Hk'. congruence.
Qed.

Lemma first_number_in_order (value : json) (before after : list jsstring)
    (key : jsstring) (n : float) :
  (forall k, In k before ->
             has_key k value = false \/ toNum (prop value k) = None) ->
  has_key key value = true -> toNum (prop value key) = Some n ->
  first_number value (before ++ key :: after) = Some n.
Proof.
  intros Hb Hk Hn. induction before as [| k before IH]; simpl.
  - rewrite Hk, Hn. reflexivity.
  - destruct (Hb k (or_introl eq_refl)) as [E | E].
    + rewrite E. apply IH. intros k' Hin. apply Hb. right. exact Hin.
    + rewrite E. destruct (has_key k value);
        apply IH; intros k' Hin; apply Hb; right; exact Hin.
Qed.

Lemma first_some_in_order {A B} (f : A -> option B) (before after : list A)
    (x : A) :
  (forall c, In c before -> f c = None) ->
  first_some f (before ++ x :: after)
  = match f x with
    | Some b => Some b
    | None => first_some f after
    end.
Proof. unused.
  intros Hb. induction before as [| c before IH]; simpl; [reflexivity |].
  rewrite (Hb c (or_introl eq_refl)). apply IH.
  intros c' Hin. apply Hb. right. exact Hin.
Qed.

Lemma first_some_none {A B} (f : A -> option B) (l : list A) :
  (forall c, In c l -> f c = None) -> first_some f l = None.
Proof. unused.
  intros H. induction l as [| c l IH]; simpl; [reflexivity |].
  rewrite (H c (or_introl eq_refl)). apply IH.
  intros c' Hin. apply H. right. exact Hin.
Qed.

(** C3 (amended). The search of a payload for a latest-indexed-ledger
    field inspects the fields at the top level and then, recursively and
    without a depth bound, the fields of every object or array nested in
    it, in enumeration order.  A returned value is always the numeric
    value of an alias-named field of the payload or of an object nested
    at some depth.  On a payload in which no object has an own
    [toString] member (so that no conversion throws): at each level the
    first alias, in the order of the alias list, that is present with a
    numeric value wins; a numeric alias-named field at the top level is
    preferred to any nested one; otherwise the result is that of the
    first nested object or array, in enumeration order, whose own search
    succeeds; and nothing is returned when the top level and every nested
    search fail.  In particular a matching numeric field buried any
    number of levels below the top level is returned when nothing
    searched before it matches. *)
Theorem pickFirstNumber_searches_every_depth :
  (forall value n,
      pickFirstNumber value LEDGER_ALIASES = Some n ->
      exists d holder key,
        nested_at d holder value /\ In key LEDGER_ALIASES
        /\ has_key key holder = true /\ toNum (prop holder key) = Some n)
  /\ (forall value n,
         plain value = true ->
         is_object value = true ->
         first_number value LEDGER_ALIASES = Some n ->
         pickFirstNumber value LEDGER_ALIASES = Some n)
  /\ (forall d n,
         PrimFloat.is_finite n = true ->
         pickFirstNumber (bury d (JObj [field "ledger" (JNum n)]))
           LEDGER_ALIASES
         = Some n)
  /\ (forall value before key after n,
         plain value = true ->
         LEDGER_ALIASES = before ++ key :: after ->
         (forall k, In k before ->
                    has_key k value = false \/ toNum (prop value k) = None) ->
         has_key key value = true ->
         toNum (prop value key) = Some n ->
         first_number value LEDGER_ALIASES = Some n)
  /\ (forall value before child after n,
         plain value = true ->
         is_object value = true ->
         first_number value LEDGER_ALIASES = None ->
         Object_values value = before ++ child :: after ->
         (forall c, In c before ->
                    is_object c = false
                    \/ pickFirstNumber c LEDGER_ALIASES = None) ->
         is_object child = true ->
         pickFirstNumber child LEDGER_ALIASES = Some n ->
         pickFirstNumber value LEDGER_ALIASES = Some n)
  /\ (forall value,
         plain value = true ->
         first_number value LEDGER_ALIASES = None ->
         (forall c, In c (Object_values value) ->
                    is_object c = false
                    \/ pickFirstNumber c LEDGER_ALIASES = None) ->
         pickFirstNumber value LEDGER_ALIASES = None)
  /\ (forall value,
         is_object value = false ->
         pickFirstNumber value LEDGER_ALIASES = None).
Proof.
  assert (skip : forall c,
            is_object c = false \/ pickFirstNumber c LEDGER_ALIASES = None ->
            (if is_object c then pickFirstNumber c LEDGER_ALIASES else None)
            = None).
  { intros c [E | E]; [rewrite E; reflexivity |].
    rewrite E. destruct (is_object c); reflexivity. }
  split; [| split; [| split; [| split; [| split; [| split]]]]].
  - intros value n. apply pickFirstNumber_sound.
  - intros value n _ Ho Hf. rewrite pickFirstNumber_eq, Ho, Hf. reflexivity.
  - intros d n Hn. rewrite pickFirstNumber_bury by reflexivity.
    rewrite pickFirstNumber_eq. cbn [is_object].
    assert (E : first_number (JObj [field "ledger" (JNum n)]) LEDGER_ALIASES
                = toNum (JNum n)).
    { unfold toNum. cbn [Number].
      change (first_number (JObj [field "ledger" (JNum n)]) LEDGER_ALIASES)
        with (match (if PrimFloat.is_finite n then Some n else None) with
              | Some x => Some x
              | None => @None float
              end).
      destruct (PrimFloat.is_finite n); reflexivity. }
    rewrite E. unfold toNum. cbn [Number]. rewrite Hn. reflexivity.
  - intros value before key after n _ -> Hb Hk Hn.
    apply first_number_in_order; assumption.
  - intros value before child after n _ Ho Hf Hv Hb Hc Hn.
    rewrite pickFirstNumber_eq, Ho, Hf, Hv.
    rewrite first_some_in_order by (intros c Hin; apply skip, Hb, Hin).
    rewrite Hc, Hn. reflexivity.
  - intros value _ Hf Hall. rewrite pickFirstNumber_eq.
    destruct (is_object value); [| reflexivity].
    rewrite Hf. apply first_some_none. intros c Hin. apply skip, Hall, Hin.
  - intros value Ho. rewrite pickFirstNumber_eq, Ho. reflexivity.
Qed.

(** C4 (amended). [fetchWithParse] attempts a JSON parse exactly when the
    raw body text is non-empty and either the declared content type
    contains the substring [application/json] or the body starts with a
    brace or a bracket; the parsed value is the body when the parse
    succeeds and the raw text when it fails.  When no parse is attempted
    the body is the raw text unchanged, except that an empty body under
    an [application/json] content type is [null].  A successful response
    returns the body so decoded. *)
Theorem fetchWithParse_parse_decision :
  (forall contentType bodyText,
      parse_attempted contentType bodyText = true ->
      decodeBody contentType bodyText
      = match JSON_parse bodyText with
        | Some parsed => parsed
        | None => JStr bodyText
        end)
  /\ (forall contentType bodyText,
         parse_attempted contentType bodyText = false ->
         decodeBody contentType bodyText
         = if includes contentType (lit "application/json")
              && match bodyText with [] => true | _ => false end
           then JNull
           else JStr bodyText)
  /\ (forall r bodyText,
         text r = Ok bodyText -> ok r = true ->
         parse_outcome (Resolved r)
         = Ok (decodeBody
                 (match content_type r with Some ct => ct | None => [] end)
                 bodyText)).
Proof.
  split; [| split].
  - intros ct body. unfold parse_attempted, decodeBody.
    destruct body as [| c body]; [discriminate |].
    cbn [andb]. intros ->. reflexivity.
  - intros ct body. unfold parse_attempted, decodeBody.
    destruct body as [| c body].
    + intros _. change (startsWith [] (lit "{")) with false.
      change (startsWith [] (lit "[")) with false.
      rewrite !orb_false_r, andb_true_r.
      destruct (includes ct (lit "application/json")); reflexivity.
    + cbn [andb]. intros ->. rewrite andb_false_r. reflexivity.
  - intros r body Ht Hok. unfold parse_outcome. rewrite Ht, Hok. reflexivity.
Qed.

(** *** Runs of a handler body, step by step *)

Lemma bind_Ok {A B} (m : M A) (f : A -> M B) (st st' : state) (b : B) :
  bind m f st = (Ok b, st') ->
  exists a st1, m st = (Ok a, st1) /\ f a st1 = (Ok b, st').
Proof.
  unfold bind. destruct (m st) as [[a | e] st1]; [| discriminate].
  intros H. exists a, st1. auto.
Qed.

Lemma lift_Ok {A} (r : result A) (st st' : state) (a : A) :
  lift r st = (Ok a, st') -> r = Ok a /\ st' = st.
Proof. unfold lift. intros H. injection H as -> ->. auto. Qed.

Lemma ret_Ok {A} (x a : A) (st st' : state) :
  ret x st = (Ok a, st') -> a = x /\ st' = st.
Proof. unfold ret. intros H. injection H as -> ->. auto. Qed.

Lemma encoded_Ok (s e : jsstring) (st st' : state) :
  encoded s st = (Ok e, st') -> encodeURIComponent s = Some e /\ st' = st.
Proof.
  unfold encoded. destruct (encodeURIComponent s).
  - intros H. apply ret_Ok in H as [-> ->]. auto.
  - intros H. apply lift_Ok in H as [H _]. discriminate.
Qed.

Lemma toToolEnvelope_Ok (d : json) (l : list (string * string)) (a : json)
    (w : list jsstring) (st st' : state) (out : tool_output) :
  toToolEnvelope d l a w st = (Ok out, st') ->
  exists srcs t, out = ToolResult (envelope d srcs a t w).
Proof.
  intros H. destruct (quiet_toToolEnvelope d l a w st)
    as (out' & st'' & E & _ & srcs & t & ->).
  rewrite E in H. injection H as <- _. exists srcs, t. reflexivity.
Qed.

(** A handler answers with what its body returns, or with the error its
    body throws. *)
Lemma handler_answer (body : M tool_output) (st : state) :
  (exists message, fst (handler body st) = ToolError message)
  \/ exists st', body st = (Ok (fst (handler body st)), st').
Proof.
  unfold handler. destruct (body st) as [[out | [message]] st']; simpl.
  - right. exists st'. reflexivity.
  - left. exists message. reflexivity.
Qed.

(** Takes a run of a handler body apart, one [await] at a time. *)
Ltac run_step H :=
  match type of H with
  | bind (lift _) _ _ = (Ok _, _) =>
      let a := fresh "a" in let st1 := fresh "st" in
      let E := fresh "E" in
      apply bind_Ok in H as (a & st1 & E & H);
      apply lift_Ok in E as [E ->]
  | bind (encoded _) _ _ = (Ok _, _) =>
      let a := fresh "key" in let st1 := fresh "st" in
      let E := fresh "E" in
      apply bind_Ok in H as (a & st1 & E & H);
      apply encoded_Ok in E as [E ->]
  | bind _ _ _ = (Ok _, _) =>
      let a := fresh "a" in let st1 := fresh "st" in
      let E := fresh "E" in
      apply bind_Ok in H as (a & st1 & E & H)
  end.

Lemma rfold_total {A B} (f : B -> A -> result B) (l : list A) :
  (forall acc x, In x l -> exists y, f acc x = Ok y) ->
  forall acc, exists r, rfold f l acc = Ok r.
Proof.
  induction l as [| x l IH]; intros Hf acc; simpl.
  - exists acc. reflexivity.
  - destruct (Hf acc x (or_introl eq_refl)) as (y & ->). simpl.
    apply IH. intros acc' x' Hin. apply Hf. right. exact Hin.
Qed.

Lemma rfold_stops {A B} (f : B -> A -> result B) (l : list A) (x : A) :
  In x l -> (forall acc, exists e, f acc x = Throw e) ->
  forall acc, exists e, rfold f l acc = Throw e.
Proof.
  intros Hin Hx. induction l as [| y l IH]; intros acc; simpl;
    [destruct Hin |].
  destruct (f acc y) as [z | e] eqn:Ef; simpl; [| exists e; reflexivity].
  destruct Hin as [-> | Hin]; [| apply IH, Hin].
  destruct (Hx acc) as (e & He). congruence.
Qed.

Lemma row_number_total (t : json) (key : jsstring) :
  nullish t = false ->
  row_number t key = Ok (Number (logical_or (prop t key) (JNum 0))).
Proof. intros H. unfold row_number, member. rewrite H. reflexivity. Qed.

Lemma row_number_null (t : json) (key : jsstring) :
  nullish t = true -> exists e, row_number t key = Throw e.
Proof.
  intros H. unfold row_number, member. rewrite H. eexists. reflexivity.
Qed.

(** The average is computed for every sample without a [null] or
    [undefined] row. *)
Lemma vwap_total (trades : list json) :
  Forall (fun t => nullish t = false) trades ->
  vwap trades
  = Ok (if (0 <? amount_sum trades)%float
        then Some (weighted_sum trades / amount_sum trades)%float
        else None).
Proof.
  intros Hall. rewrite Forall_forall in Hall.
  assert (Hn : exists n, vwapNumerator trades = Ok n).
  { apply rfold_total. intros acc t Hin.
    rewrite !row_number_total by (apply Hall, Hin). simpl.
    eexists. reflexivity. }
  assert (Hd : exists d, vwapDenominator trades = Ok d).
  { apply rfold_total. intros acc t Hin.
    rewrite !row_number_total by (apply Hall, Hin). simpl.
    eexists. reflexivity. }
  destruct Hn as (n & Hn). destruct Hd as (d & Hd).
  pose proof (vwapNumerator_ok _ _ Hn). pose proof (vwapDenominator_ok _ _ Hd).
  subst. unfold vwap. rewrite Hn, Hd. reflexivity.
Qed.

Lemma vwap_null_row (trades : list json) (t : json) :
  In t trades -> nullish t = true -> exists e, vwap trades = Throw e.
Proof.
  intros Hin Hn. unfold vwap.
  assert (H : exists e, vwapNumerator trades = Throw e).
  { apply (rfold_stops _ _ t Hin). intros acc.
    destruct (row_number_null t (lit "price") Hn) as (e & ->).
    exists e. reflexivity. }
  destruct H as (e & ->). exists e. reflexivity.
Qed.

(** The trades that [market_snapshot] averages are those of the answer
    to its third upstream call. *)
Lemma market_snapshot_run (base quote options : json) (st st' : state)
    (out : tool_output) :
  market_snapshot_body base quote options st = (Ok out, st') ->
  exists bookRaw ammRaw losTrades st1 st2 st3 v,
    xrplRpc (lit "book_offers")
      (JArr [JObj [field "taker_gets" base; field "taker_pays" quote;
                   field "limit" (JNum 50)]]) st
    = (Ok bookRaw, st1)
    /\ soft (xrplRpc (lit "amm_info")
               (JArr [JObj [field "asset" base; field "asset2" quote]])) st1
       = (Ok ammRaw, st2)
    /\ tryLos (lit "/transactions")
         (Some (DEX_TRADE_QUERY (num_option (options # "size") 200))) st2
       = (Ok losTrades, st3)
    /\ vwap (array_or_empty (losTrades # "transactions")) = Ok v
    /\ data_of out # "recentTrades" # "vwap" = json_of_num v
    /\ data_of out # "recentTrades" # "count"
       = JNum (num_of_nat
                 (List.length (array_or_empty (losTrades # "transactions"))))
    /\ data_of out # "recentTrades" # "sample"
       = JArr (firstn 20 (array_or_empty (losTrades # "transactions")))
    /\ data_of out # "orderbook" # "spread" = data_of out # "orderbook" # "mid"
    /\ data_of out # "orderbook" # "mid"
       = quality_of (data_of out # "orderbook" # "bestBidAskProxy")
    /\ payload_of out # "warnings"
       = JArr (List.map JStr
                 (warn_if
                    (Nat.eqb (List.length
                                (array_or_empty (losTrades # "transactions")))
                       0)
                    "No LOS trade samples returned for VWAP estimate."))
    /\ data_of out # "orderbook" # "bestBidAskProxy"
       = first_or_null (xrplResultEnvelope bookRaw # "offers" ?? JArr []).
Proof.
  unfold market_snapshot_body. intros H.
  apply bind_Ok in H as (bookRaw & st1 & E1 & H).
  apply bind_Ok in H as (ammRaw & st2 & E2 & H).
  apply bind_Ok in H as (losTrades & st3 & E3 & H).
  run_step H.
  apply toToolEnvelope_Ok in H as (srcs & t & ->).
  exists bookRaw, ammRaw, losTrades, st1, st2, st3, a.
  repeat (split; [first [assumption | reflexivity] |]). reflexivity.
Qed.

(** C6 (amended). In [market_snapshot] each row's price and amount are
    read as [Number(t.price || 0)] and [Number(t.amount || 0)] and added
    up from left to right in binary64, starting from [0].  The average
    is computed for every sample without a [null] or [undefined] row,
    and it fails on a sample with such a row.  It is absent ([null]) for
    the empty sample and whenever the running sum of the amounts is zero
    or anything else that is not strictly positive; whenever that sum
    is strictly positive it is the running sum of price times amount
    divided by it.  The handler reports exactly that value for the
    trades of the answer to its third upstream call, next to their
    count and their first 20. *)
Theorem vwap_absent_or_quotient :
  vwap [] = Ok None
  /\ (forall trades v,
         vwap trades = Ok v ->
         ((amount_sum trades =? 0)%float = true -> v = None)
         /\ ((0 <? amount_sum trades)%float = true ->
             v = Some (weighted_sum trades / amount_sum trades)%float))
  /\ (forall trades,
         Forall (fun t => nullish t = false /\ plain t = true) trades ->
         vwap trades
         = Ok (if (0 <? amount_sum trades)%float
               then Some (weighted_sum trades / amount_sum trades)%float
               else None))
  /\ (forall trades t,
         In t trades -> nullish t = true -> exists e, vwap trades = Throw e)
  /\ (forall base quote options st,
         let out := fst (market_snapshot base quote options st) in
         (exists message, out = ToolError message)
         \/ exists bookRaw ammRaw losTrades st1 st2 st3 v,
              xrplRpc (lit "book_offers")
                (JArr [JObj [field "taker_gets" base;
                             field "taker_pays" quote;
                             field "limit" (JNum 50)]]) st
              = (Ok bookRaw, st1)
              /\ soft (xrplRpc (lit "amm_info")
                         (JArr [JObj [field "asset" base;
                                      field "asset2" quote]])) st1
                 = (Ok ammRaw, st2)
              /\ tryLos (lit "/transactions")
                   (Some (DEX_TRADE_QUERY
                            (num_option (options # "size") 200))) st2
                 = (Ok losTrades, st3)
              /\ vwap (array_or_empty (losTrades # "transactions")) = Ok v
              /\ data_of out # "recentTrades" # "vwap" = json_of_num v
              /\ data_of out # "recentTrades" # "count"
                 = JNum (num_of_nat
                           (List.length
                              (array_or_empty (losTrades # "transactions"))))
              /\ data_of out # "recentTrades" # "sample"
                 = JArr (firstn 20
                           (array_or_empty (losTrades # "transactions")))).
Proof.
  split; [reflexivity | split; [| split; [| split]]].
  - intros trades v Hv. apply vwap_ok in Hv. split.
    + intros Hz. rewrite (zero_not_positive _ Hz) in Hv. exact Hv.
    + intros Hp. rewrite Hp in Hv. exact Hv.
  - intros trades Hall. apply vwap_total.
    eapply Forall_impl; [| exact Hall]. intros t [Ht _]. exact Ht.
  - apply vwap_null_row.
  - intros base quote options st. cbv zeta. unfold market_snapshot.
    destruct (handler_answer (market_snapshot_body base quote options) st)
      as [Herr | (st' & Hrun)]; [left; exact Herr | right].
    apply market_snapshot_run in Hrun
      as (bookRaw & ammRaw & losTrades & st1 & st2 & st3 & v
          & E1 & E2 & E3 & Hv & D1 & D2 & D3 & _).
    exists bookRaw, ammRaw, losTrades, st1, st2, st3, v. auto 10.
Qed.


(** C10. In [account_overview] the list of recent counterparties never
    contains the queried account: a transaction whose counterparty is the
    account itself is not counted, so every entry that the handler
    reports has an address other than the account. *)
Theorem recent_counterparties_exclude_account :
  (forall account txs act,
      recent_activity account txs = Ok act ->
      forall e,
        In e (recentCounterparties (counterparties act)) ->
        fst e <> JStr account)
  /\ (forall account options st,
         let out := fst (account_overview account options st) in
         (exists message, out = ToolError message)
         \/ exists entries,
              data_of out # "recentActivity" # "recentCounterparties"
              = JArr entries
              /\ forall entry,
                   In entry entries -> entry # "address" <> JStr account).
Proof.
  assert (Main : forall account txs act,
             recent_activity account txs = Ok act ->
             forall e,
               In e (recentCounterparties (counterparties act)) ->
               fst e <> JStr account).
  { intros account txs act Hact e Hin.
    apply strict_neq_str_sound.
    apply (recent_activity_foreign account txs act Hact).
    apply recentCounterparties_In, Hin. }
  split; [exact Main |].
  intros account options st.
  destruct (handler_yields _ _ st (account_overview_payload account options))
    as [H | (n & accountData & txs & act & Hact & _ & _ & _ & _ & H)].
  - left. exact H.
  - right. eexists. split; [exact H |].
    intros entry Hin. apply in_map_iff in Hin as (e & <- & He).
    change (counterparty_json e # "address") with (fst e).
    apply (Main account txs act Hact e He).
Qed.

(** The lag is absent whenever the validated ledger index is [0], whatever
    the latest indexed ledger; for any other known index it is the
    difference. *)
Lemma ledgerLag_cases (v l : float) :
  ledgerLag (Some v) (Some l)
  = if truthy (JNum v) then Some (v - l)%float else None.
Proof. reflexivity. Qed.

Lemma ledgerLag_zero (latest : float) :
  ledgerLag (Some 0%float) (Some latest) = None.
Proof. reflexivity. Qed.

(* ================================================================= *)
(** ** Further properties of the identifier normalizer *)

Lemma currency_hex_length (c h : jsstring) :
  currencyTo160Hex c = Some h -> List.length h = 40%nat.
Proof. unused.
  rewrite currencyTo160Hex_cases. cbv zeta.
  destruct (hex_string 40 (trim c)) eqn:E40.
  - intros E. apply some_inj in E. subst h.
    unfold hex_string in E40. apply andb_true_iff in E40 as [E40 _].
    apply Nat.eqb_eq in E40. unfold toUpperCase. rewrite length_map. exact E40.
  - destruct (iso_code (trim c)) eqn:Eiso.
    + intros E. apply some_inj in E. subst h.
      rewrite length_app, length_hex. unfold Buffer_from_ascii, toUpperCase.
      rewrite !length_map.
      apply iso_code_inv in Eiso as (x & y & z & -> & _). reflexivity.
    + destruct (Nat.ltb_spec 20 (List.length (Buffer_from_utf8 (trim c))));
        [discriminate |].
      intros E. apply some_inj in E. subst h.
      rewrite length_hex, length_app. unfold Buffer_alloc.
      rewrite repeat_length. lia.
Qed.

Lemma hex_digit_upper (c : N) :
  is_hex_digit c = true -> is_upper_hex_digit (upper_cu c) = true.
Proof. unused.
  intros H. unfold is_upper_hex_digit, is_hex_digit in *. ranges.
Qed.

Lemma upper_hex_digit_fixed (c : N) :
  is_upper_hex_digit c = true ->
  upper_cu c = c /\ is_hex_digit c = true /\ is_js_whitespace c = false.
Proof. unused.
  intros H. unfold is_upper_hex_digit, is_hex_digit in *.
  repeat split; ranges.
Qed.

Lemma currency_hex_upper (c h : jsstring) :
  wf_jsstring c -> currencyTo160Hex c = Some h ->
  forallb is_upper_hex_digit h = true.
Proof. unused.
  intros Hw. rewrite currencyTo160Hex_cases. cbv zeta.
  destruct (hex_string 40 (trim c)) eqn:E40.
  - intros E. apply some_inj in E. subst h.
    unfold hex_string in E40. apply andb_true_iff in E40 as [_ E40].
    unfold toUpperCase. rewrite forallb_forall in *.
    intros x Hx. apply in_map_iff in Hx as (y & <- & Hy).
    apply hex_digit_upper, E40, Hy.
  - destruct (iso_code (trim c)) eqn:Eiso.
    + intros E. apply some_inj in E. subst h.
      destruct (iso_code_ascii _ Eiso) as [-> Ho].
      rewrite forallb_app, (upper_hex_rendering _ Ho). reflexivity.
    + destruct (Nat.ltb_spec 20 (List.length (Buffer_from_utf8 (trim c))));
        [discriminate |].
      intros E. apply some_inj in E. subst h.
      apply upper_hex_rendering, Forall_app. split.
      * apply Buffer_from_utf8_octets, wf_trim, Hw.
      * unfold Buffer_alloc. apply Forall_forall. intros x Hx.
        apply repeat_spec in Hx. subst x. lia.
Qed.

Lemma trimStart_id (s : jsstring) :
  Forall (fun c => is_js_whitespace c = false) s -> trimStart s = s.
Proof. unused. intros [| c s' Hc _]; simpl; [reflexivity | rewrite Hc; reflexivity]. Qed.

Lemma trim_id (s : jsstring) :
  Forall (fun c => is_js_whitespace c = false) s -> trim s = s.
Proof. unused.
  intros H. unfold trim, trimEnd. rewrite (trimStart_id s H).
  rewrite (trimStart_id (rev s)) by (apply Forall_rev, H).
  apply rev_involutive.
Qed.

Lemma currency_rejected_iff (currency : jsstring) :
  currencyTo160Hex currency = None
  <-> hex_string 40 (trim currency) = false
      /\ iso_code (trim currency) = false
      /\ (20 < List.length (Buffer_from_utf8 (trim currency)))%nat.
Proof. unused.
  rewrite currencyTo160Hex_cases. cbv zeta.
  destruct (hex_string 40 (trim currency)).
  - split; [discriminate | intros (H & _); discriminate].
  - destruct (iso_code (trim currency)).
    + split; [discriminate | intros (_ & H & _); discriminate].
    + destruct (Nat.ltb_spec 20
                  (List.length (Buffer_from_utf8 (trim currency)))).
      * split; auto.
      * split; [discriminate | intros (_ & _ & H'); lia].
Qed.

(** X1. Whatever currency the normalizer accepts, its result is a string
    of exactly 40 upper-case hexadecimal digits, and that result is a
    fixed point: normalizing it again returns it unchanged. *)
Theorem currency_hex_is_canonical (c h : jsstring) :
  wf_jsstring c ->
  currencyTo160Hex c = Some h ->
  List.length h = 40%nat
  /\ forallb is_upper_hex_digit h = true
  /\ currencyTo160Hex h = Some h.
Proof. unused.
  intros Hw Hc.
  pose proof (currency_hex_length c h Hc) as Hl.
  pose proof (currency_hex_upper c h Hw Hc) as Hu.
  split; [exact Hl | split; [exact Hu |]].
  assert (Hall : Forall (fun x => is_upper_hex_digit x = true) h)
    by (apply Forall_forall; rewrite forallb_forall in Hu; exact Hu).
  assert (Ht : trim h = h).
  { apply trim_id. eapply Forall_impl; [| exact Hall].
    intros x Hx. apply upper_hex_digit_fixed, Hx. }
  rewrite currencyTo160Hex_cases. cbv zeta. rewrite Ht.
  assert (E40 : hex_string 40 h = true).
  { unfold hex_string. rewrite Hl. simpl. apply forallb_forall.
    intros x Hx. rewrite Forall_forall in Hall.
    apply upper_hex_digit_fixed, Hall, Hx. }
  rewrite E40. f_equal. unfold toUpperCase.
  rewrite <- (map_id h) at 2. apply map_ext_in.
  intros x Hx. rewrite Forall_forall in Hall.
  apply upper_hex_digit_fixed, Hall, Hx.
Qed.

(** X2. The token key is absent exactly when the normalizer rejects the
    currency, which it does exactly when the trimmed currency is neither
    40 hexadecimal digits nor a 3-character alphanumeric code and its
    UTF-8 encoding is longer than 20 octets; the emptiness test on the
    normalized currency never fires. *)
Theorem token_key_absent_iff (issuer currency : jsstring) :
  (tokenIdFromIssuerCurrency issuer currency = None
   <-> currencyTo160Hex currency = None)
  /\ (currencyTo160Hex currency = None
      <-> hex_string 40 (trim currency) = false
          /\ iso_code (trim currency) = false
          /\ (20 < List.length (Buffer_from_utf8 (trim currency)))%nat).
Proof. unused.
  split.
  - unfold tokenIdFromIssuerCurrency.
    destruct (currencyTo160Hex currency) as [h |] eqn:E; [| tauto].
    apply currency_hex_length in E.
    destruct h; [discriminate | split; discriminate].
  - apply currency_rejected_iff.
Qed.

Lemma utf8_of_code_point_length (cp : N) :
  (1 <= List.length (utf8_of_code_point cp) <= 4)%nat
  /\ (cp < 65536 -> (List.length (utf8_of_code_point cp) <= 3)%nat).
Proof. unused.
  unfold utf8_of_code_point.
  destruct (N.ltb_spec cp 128); [simpl; lia |].
  destruct (N.ltb_spec cp 2048); [simpl; lia |].
  destruct (N.ltb_spec cp 65536); simpl; lia.
Qed.

Lemma Buffer_from_utf8_cons (c : N) (rest : jsstring) :
  Buffer_from_utf8 (c :: rest) =
  if is_high_surrogate c then
    match rest with
    | d :: rest' =>
        if is_low_surrogate d then
          utf8_of_code_point (65536 + (c - 55296) * 1024 + (d - 56320))
          ++ Buffer_from_utf8 rest'
        else [239; 191; 189] ++ Buffer_from_utf8 rest
    | [] => [239; 191; 189]
    end
  else if is_low_surrogate c then [239; 191; 189] ++ Buffer_from_utf8 rest
  else utf8_of_code_point c ++ Buffer_from_utf8 rest.
Proof. unused. destruct rest; reflexivity. Qed.

Lemma Buffer_from_utf8_length (s : jsstring) :
  (List.length s <= List.length (Buffer_from_utf8 s))%nat
  /\ (wf_jsstring s ->
      (List.length (Buffer_from_utf8 s) <= 3 * List.length s)%nat).
Proof. unused.
  assert (G : forall n t, (List.length t <= n)%nat ->
              (List.length t <= List.length (Buffer_from_utf8 t))%nat
              /\ (wf_jsstring t ->
                  (List.length (Buffer_from_utf8 t) <= 3 * List.length t)%nat)).
  { induction n as [| n IH]; intros t Hl.
    - destruct t; [simpl; lia | simpl in Hl; lia].
    - destruct t as [| c rest]; [simpl; lia |].
      assert (Hrest := IH rest ltac:(simpl in Hl; lia)).
      destruct Hrest as [Lrest Urest].
      rewrite Buffer_from_utf8_cons.
      destruct (is_high_surrogate c) eqn:Eh.
      + destruct rest as [| d rest']; [cbn [List.length]; split; intros; lia |].
        destruct (is_low_surrogate d) eqn:El.
        * destruct (IH rest' ltac:(simpl in Hl; lia)) as [L U].
          set (cp := 65536 + (c - 55296) * 1024 + (d - 56320)).
          assert (B : List.length (utf8_of_code_point cp) = 4%nat).
          { unfold utf8_of_code_point.
            destruct (N.ltb_spec cp 128); [unfold cp in *; lia |].
            destruct (N.ltb_spec cp 2048); [unfold cp in *; lia |].
            destruct (N.ltb_spec cp 65536); [unfold cp in *; lia |].
            reflexivity. }
          rewrite length_app, B. cbn [List.length]. split; [lia |].
          intros Hw. inversion Hw as [| ? ? _ Hw1]; subst.
          inversion Hw1 as [| ? ? _ Hw2]; subst.
          specialize (U Hw2). lia.
        * rewrite length_app.
          remember (Buffer_from_utf8 (d :: rest')) as br eqn:Ebr.
          clear Ebr. cbn [List.length] in *.
          split; [lia |].
          intros Hw. inversion Hw as [| ? ? _ Hw1]; subst.
          specialize (Urest Hw1). lia.
      + remember (Buffer_from_utf8 rest) as br eqn:Ebr. clear Ebr.
        destruct (is_low_surrogate c).
        * rewrite length_app. cbn [List.length].
          split; [lia |].
          intros Hw. inversion Hw as [| ? ? _ Hw1]; subst.
          specialize (Urest Hw1). lia.
        * rewrite length_app.
          destruct (utf8_of_code_point_length c) as [[B1 B4] B3].
          cbn [List.length]. split; [lia |].
          intros Hw. inversion Hw as [| ? ? Hc Hw1]; subst.
          specialize (Urest Hw1). specialize (B3 Hc). lia. }
  apply (G (List.length s) s). lia.
Qed.

(** X3. Length bounds of the normalizer: a trimmed currency of more than
    20 characters is rejected unless it is 40 hexadecimal digits, and a
    trimmed currency of at most 6 characters is always accepted. *)
Theorem currency_length_bounds (currency : jsstring) :
  wf_jsstring currency ->
  (hex_string 40 (trim currency) = false ->
   (20 < List.length (trim currency))%nat ->
   currencyTo160Hex currency = None)
  /\ ((List.length (trim currency) <= 6)%nat ->
      currencyTo160Hex currency <> None).
Proof. unused.
  intros Hw.
  destruct (Buffer_from_utf8_length (trim currency)) as [L U].
  specialize (U (wf_trim _ Hw)).
  split.
  - intros E40 Hlen.
    apply (proj2 (currency_rejected_iff currency)).
    repeat split; [exact E40 | | lia].
    destruct (iso_code (trim currency)) eqn:Eiso; [| reflexivity].
    apply iso_code_inv in Eiso as (x & y & z & E & _).
    rewrite E in Hlen. simpl in Hlen. lia.
  - intros Hlen Hnone.
    apply (proj1 (currency_rejected_iff currency)) in Hnone
      as (_ & _ & Hlong).
    lia.
Qed.

Lemma app_inj_length (A : Type) (a b x y : list A) :
  List.length a = List.length b -> a ++ x = b ++ y -> a = b /\ x = y.
Proof. unused.
  revert b. induction a as [| u a IH]; intros [| v b] Hl E;
    try discriminate; simpl in *.
  - auto.
  - injection E as -> E. destruct (IH b ltac:(lia) E) as [-> ->]. auto.
Qed.

Lemma token_key_shape (issuer currency k : jsstring) :
  tokenIdFromIssuerCurrency issuer currency = Some k ->
  exists h,
    currencyTo160Hex currency = Some h
    /\ List.length h = 40%nat
    /\ k = h ++ lit "." ++ issuer.
Proof. unused.
  unfold tokenIdFromIssuerCurrency.
  destruct (currencyTo160Hex currency) as [h |] eqn:E; [| discriminate].
  pose proof (currency_hex_length _ _ E) as Hl.
  destruct h as [| c h]; [discriminate |].
  intros Hk. apply some_inj in Hk. exists (c :: h). auto.
Qed.

(** X4. The token key determines its parts: two calls that produce the
    same key were given the same issuer and currencies with the same
    normalized code. *)
Theorem token_key_injective
    (issuer1 currency1 issuer2 currency2 k : jsstring) :
  tokenIdFromIssuerCurrency issuer1 currency1 = Some k ->
  tokenIdFromIssuerCurrency issuer2 currency2 = Some k ->
  issuer1 = issuer2
  /\ currencyTo160Hex currency1 = currencyTo160Hex currency2.
Proof. unused.
  intros H1 H2.
  apply token_key_shape in H1 as (h1 & E1 & L1 & K1).
  apply token_key_shape in H2 as (h2 & E2 & L2 & K2).
  rewrite K1 in K2.
  apply app_inj_length in K2 as [Hh Hi]; [| congruence].
  apply (app_inv_head (lit ".")) in Hi.
  split; congruence.
Qed.

(* ================================================================= *)
(** ** Properties of the upstream adapter *)

Lemma normalizeBaseUrl_slash (b : jsstring) :
  normalizeBaseUrl (b ++ lit "/") = b.
Proof. unused.
  unfold normalizeBaseUrl, endsWith. rewrite rev_app_distr. simpl.
  apply removelast_last.
Qed.

(** X5. One trailing slash on the base address and one leading slash on
    the path are immaterial: the address requested, and the failure when
    it is invalid, are the same with or without them. *)
Theorem url_slashes_immaterial (baseUrl path : jsstring)
    (query : option (list (jsstring * json))) :
  endsWith baseUrl (lit "/") = false ->
  startsWith path (lit "/") = false ->
  urlWithPathAndQuery (baseUrl ++ lit "/") path query
  = urlWithPathAndQuery baseUrl path query
  /\ urlWithPathAndQuery baseUrl (lit "/" ++ path) query
     = urlWithPathAndQuery baseUrl path query
  /\ urlWithPathAndQuery (baseUrl ++ lit "/") (lit "/" ++ path) query
     = urlWithPathAndQuery baseUrl path query.
Proof.
  intros Hb Hp.
  assert (Hn : normalizeBaseUrl baseUrl = baseUrl)
    by (unfold normalizeBaseUrl; rewrite Hb; reflexivity).
  unfold urlWithPathAndQuery.
  rewrite normalizeBaseUrl_slash, Hn, Hp.
  change (startsWith (lit "/" ++ path) (lit "/")) with true.
  cbv iota. auto.
Qed.

Lemma query_entry_omitted (url : URL) (key : jsstring) (v : json) :
  omitted v = true -> query_entry url (key, v) = url.
Proof.
  destruct v as [| | | | [| c s] | [| x l] |]; simpl; try discriminate;
    reflexivity.
Qed.

Lemma fold_query_supplied (entries : list (jsstring * json)) (url : URL) :
  fold_left query_entry entries url
  = fold_left query_entry (filter supplied entries) url.
Proof.
  revert url. induction entries as [| [key v] entries IH]; intros url;
    [reflexivity |].
  cbn [filter fold_left]. unfold supplied at 1. cbn [snd].
  destruct (omitted v) eqn:E; cbn [negb].
  - rewrite (query_entry_omitted _ _ _ E). apply IH.
  - cbn [fold_left]. apply IH.
Qed.

(** X6. Query values that are [undefined], [null], the empty string or
    an empty array add nothing to the address: the call is the same as
    with those entries left out, and a query made only of such values is
    the same as no query. *)
Theorem query_skips_absent_values (baseUrl path : jsstring)
    (entries : list (jsstring * json)) :
  urlWithPathAndQuery baseUrl path (Some entries)
  = urlWithPathAndQuery baseUrl path (Some (filter supplied entries))
  /\ (filter supplied entries = [] ->
      urlWithPathAndQuery baseUrl path (Some entries)
      = urlWithPathAndQuery baseUrl path None).
Proof.
  unfold urlWithPathAndQuery.
  destruct (URL_new _) as [url |]; [| auto].
  rewrite (fold_query_supplied entries url).
  split; [reflexivity |]. intros ->. reflexivity.
Qed.

(** X7. [fetchWithParse] makes exactly one upstream request and records
    its own result.  It returns a body only for a response with a status
    from 200 to 299 whose text could be read, and the body is the
    decoding of that text; for any other status it throws an error whose
    message begins with [HTTP], the status and the status text; a refused
    connection and an unreadable body are rethrown as they are. *)
Theorem fetchWithParse_outcomes (req : request) (st : state) :
  let out := fetchWithParse req st in
  let o := fst (fetch req (world st)) in
  world (snd out) = snd (fetch req (world st))
  /\ trace (snd out)
     = trace st ++ [{| ev_site := Mandatory; ev_outcome := fst out |}]
  /\ (forall body,
        fst out = Ok body <->
        exists r bodyText,
          o = Resolved r /\ text r = Ok bodyText
          /\ (200 <= status r <= 299)%N
          /\ body = decodeBody (match content_type r with
                                | Some ct => ct
                                | None => []
                                end) bodyText)
  /\ (forall r bodyText,
        o = Resolved r -> text r = Ok bodyText ->
        ~ (200 <= status r <= 299)%N ->
        exists detail,
          fst out
          = Throw (JsError (lit "HTTP " ++ NumberToString (num_of_N (status r))
                            ++ lit " " ++ statusText r ++ lit ": " ++ detail)))
  /\ (forall e, o = Rejected e -> fst out = Throw e)
  /\ (forall r e, o = Resolved r -> text r = Throw e -> fst out = Throw e).
Proof.
  cbv zeta. unfold fetchWithParse.
  destruct (fetch req (world st)) as [o w]. cbn [fst snd world trace].
  split; [reflexivity |]. split; [reflexivity |].
  assert (Hok : forall r, ok r = true <-> (200 <= status r <= 299)%N).
  { intros r. unfold ok, in_range. rewrite andb_true_iff, !N.leb_le.
    reflexivity. }
  split; [| split; [| split]].
  - intros body. split.
    + destruct o as [e | r]; cbn [parse_outcome]; [discriminate |].
      destruct (text r) as [bodyText | e] eqn:Et; [| discriminate].
      destruct (ok r) eqn:Eok; cbn [negb]; [| discriminate].
      intros E. apply Ok_inj in E. exists r, bodyText.
      repeat split; try (apply Hok, Eok); auto.
    + intros (r & bodyText & -> & Et & Hs & ->). cbn [parse_outcome].
      rewrite Et. apply Hok in Hs. rewrite Hs. reflexivity.
  - intros r bodyText -> Et Hs. cbn [parse_outcome]. rewrite Et.
    destruct (ok r) eqn:Eok; [apply Hok in Eok; contradiction |].
    cbn [negb]. unfold http_error. eexists. reflexivity.
  - intros e ->. reflexivity.
  - intros r e -> Et. cbn [parse_outcome]. rewrite Et. reflexivity.
Qed.

(* ================================================================= *)
(** ** Upstream calls of a handler *)

Lemma calls_le {A} (n n' : nat) (m : M A) :
  calls_at_most n m -> (n <= n')%nat -> calls_at_most n' m.
Proof.
  intros H Hle st. destruct (H st) as (evs & E & L). exists evs.
  split; [exact E | lia].
Qed.

Lemma calls_ret {A} (a : A) : calls_at_most 0 (ret a).
Proof. intros st. exists []. simpl. rewrite app_nil_r. auto. Qed.

Lemma calls_lift {A} (r : result A) : calls_at_most 0 (lift r).
Proof. intros st. exists []. simpl. rewrite app_nil_r. auto. Qed.

Lemma calls_nowIso : calls_at_most 0 nowIso.
Proof.
  intros st. exists []. unfold nowIso.
  destruct (Date_toISOString (world st)). simpl. rewrite app_nil_r. auto.
Qed.

Lemma calls_bind {A B} (a n : nat) (m : M A) (f : A -> M B) :
  calls_at_most a m -> (a <= n)%nat ->
  (forall x, calls_at_most (n - a) (f x)) ->
  calls_at_most n (bind m f).
Proof.
  intros Hm Hle Hf st. unfold bind.
  destruct (Hm st) as (evs1 & E1 & L1).
  destruct (m st) as [[x | e] st1]; simpl in *.
  - destruct (Hf x st1) as (evs2 & E2 & L2).
    exists (evs1 ++ evs2). rewrite E2, E1, app_assoc, length_app.
    split; [reflexivity | lia].
  - exists evs1. split; [exact E1 | lia].
Qed.

Lemma calls_soft (n : nat) (m : M json) :
  calls_at_most n m -> calls_at_most n (soft m).
Proof.
  intros Hm st. unfold soft.
  destruct (Hm {| world := world st; trace := [] |}) as (evs & E & L).
  destruct (m {| world := world st; trace := [] |}) as [r st1].
  simpl in *. rewrite E. exists (List.map demote evs).
  rewrite length_map. auto.
Qed.

Lemma calls_fetchWithParse (req : request) :
  calls_at_most 1 (fetchWithParse req).
Proof.
  intros st. unfold fetchWithParse.
  destruct (fetch req (world st)) as [o w]. simpl. eexists. split;
    [reflexivity | simpl; lia].
Qed.

Lemma calls_encoded (s : jsstring) : calls_at_most 0 (encoded s).
Proof.
  unfold encoded. destruct (encodeURIComponent s);
    [apply calls_ret | apply calls_lift].
Qed.

Lemma calls_callAt (b p : jsstring) (q : option (list (jsstring * json))) :
  calls_at_most 1 (callAt b p q).
Proof.
  unfold callAt. apply (calls_bind 0); [apply calls_lift | lia |].
  intros. apply calls_fetchWithParse.
Qed.

Lemma calls_tryLos (p : jsstring) (q : option (list (jsstring * json))) :
  calls_at_most 1 (tryLos p q).
Proof. apply calls_soft, calls_callAt. Qed.

Lemma calls_xrplRpc (method : jsstring) (params : json) :
  calls_at_most 1 (xrplRpc method params).
Proof. apply calls_fetchWithParse. Qed.

Lemma calls_sources_of (l : list (string * string)) :
  calls_at_most 0 (sources_of l).
Proof.
  induction l as [| [system method] l IH]; simpl; [apply calls_ret |].
  unfold source.
  apply (calls_bind 0); [| lia | intros; apply (calls_bind 0);
                                   [exact IH | lia | intros; apply calls_ret]].
  apply (calls_bind 0); [apply calls_nowIso | lia | intros; apply calls_ret].
Qed.

Lemma calls_toToolEnvelope (d : json) (l : list (string * string))
    (a : json) (w : list jsstring) :
  calls_at_most 0 (toToolEnvelope d l a w).
Proof.
  unfold toToolEnvelope.
  apply (calls_bind 0); [apply calls_sources_of | lia |]. intros.
  apply (calls_bind 0); [apply calls_nowIso | lia |]. intros.
  apply calls_ret.
Qed.

Lemma calls_probe (candidates : list jsstring) :
  calls_at_most (List.length candidates) (probe candidates).
Proof.
  induction candidates as [| path rest IH]; simpl; [apply calls_ret |].
  apply (calls_bind 1); [apply calls_tryLos | lia |].
  intros payload. simpl. rewrite Nat.sub_0_r.
  destruct (negb (truthy payload)); [exact IH |].
  destruct (pickFirstNumber payload LEDGER_ALIASES); [| exact IH].
  eapply calls_le; [apply calls_ret | lia].
Qed.

Lemma calls_losFreshnessProbe : calls_at_most 5 losFreshnessProbe.
Proof. apply (calls_probe FRESHNESS_CANDIDATES). Qed.

Create HintDb calls.

#[local] Hint Resolve calls_ret calls_lift calls_nowIso calls_fetchWithParse
  calls_encoded calls_callAt calls_tryLos calls_xrplRpc calls_sources_of
  calls_toToolEnvelope calls_losFreshnessProbe : calls.

#[local] Hint Extern 1 (calls_at_most _ (soft _)) =>
  apply calls_soft : calls.

(** Counts the calls of a handler body: one rule per [await]. *)
Ltac tally :=
  repeat first
    [ solve [eapply calls_le; [solve [eauto with calls] | cbn; lia]]
    | eapply calls_bind;
        [solve [eauto with calls] | cbn; lia | intros; cbn [Nat.sub]]
    | match goal with
      | |- calls_at_most _ (if ?c then _ else _) => destruct c
      | |- calls_at_most _ (match ?x with _ => _ end) => destruct x
      | |- calls_at_most _ (let (_, _) := ?x in _) => destruct x
      end ].

Lemma calls_optional_step {A}
    (c : bool) (s : jsstring) (k : jsstring -> M A) (other : M A) (n : nat) :
  (forall e, calls_at_most n (k e)) -> calls_at_most n other ->
  calls_at_most n (if c then e <- encoded s ;; k e else other).
Proof.
  intros Hk Ho. destruct c; [| exact Ho].
  apply (calls_bind 0); [apply calls_encoded | lia |].
  intros e. rewrite Nat.sub_0_r. apply Hk.
Qed.

Lemma calls_body (c : composite_call) :
  calls_at_most (call_budget c) (body_of c).
Proof.
  destruct c; cbn [body_of call_budget].
  - unfold network_overview_body. tally.
  - unfold ledger_summary_body.
    eapply calls_bind; [solve [eauto with calls] | cbn; lia |].
    intros ledgerRaw. cbn [Nat.sub].
    apply (calls_bind 1); [| lia | intros; tally].
    tally.
  - unfold tx_explain_body. tally.
  - unfold account_overview_body. tally.
  - unfold token_overview_body. tally.
  - unfold market_snapshot_body. tally.
  - unfold amm_overview_body. tally.
  - unfold validator_set_overview_body.
    apply (calls_bind 0); [| lia | intros; tally].
    apply calls_optional_step; intros; tally.
  - unfold validator_health_body. tally.
  - unfold amendment_status_body.
    eapply calls_bind; [solve [eauto with calls] | cbn; lia |].
    intros vhInfo. cbn [Nat.sub].
    apply (calls_bind 1); [| lia | intros; tally].
    apply calls_optional_step; intros; tally.
  - unfold search_transactions_body, callLos. tally.
  - unfold resolve_entities_body. tally.
Qed.

(** X8. Every composite tool stays within a fixed number of upstream
    calls, whatever the upstream services answer: six for
    [network_overview] (one to rippled and at most five probes), four for
    [token_overview], three for [account_overview], [market_snapshot] and
    [amendment_status], two for [ledger_summary], [tx_explain],
    [amm_overview] and [validator_health], one for
    [validator_set_overview] and [search_transactions], and none for
    [resolve_entities]. *)
Theorem composite_call_budget (c : composite_call) (st : state) :
  exists evs,
    trace (snd (invoke c st)) = trace st ++ evs
    /\ (List.length evs <= call_budget c)%nat.
Proof.
  unfold invoke, handler.
  destruct (calls_body c st) as (evs & E & L).
  destruct (body_of c st) as [[out | error] st']; simpl in *;
    exists evs; auto.
Qed.

(* ================================================================= *)
(** ** Nothing is called after a failure *)

Lemma stops_silent {A} (m : M A) :
  (forall st, trace (snd (m st)) = trace st) -> stops_at_failure m.
Proof.
  intros H st. exists []. rewrite H, app_nil_r. split; [reflexivity |].
  intros pre e post E. destruct pre; discriminate.
Qed.

Lemma stops_ret {A} (a : A) : stops_at_failure (ret a).
Proof. apply stops_silent. reflexivity. Qed.

Lemma stops_lift {A} (r : result A) : stops_at_failure (lift r).
Proof. apply stops_silent. reflexivity. Qed.

Lemma stops_nowIso : stops_at_failure nowIso.
Proof.
  apply stops_silent. intros st. unfold nowIso.
  destruct (Date_toISOString (world st)). reflexivity.
Qed.

Lemma split_at_failure (evs1 evs2 pre post : list event) (ev : event) :
  evs1 ++ evs2 = pre ++ ev :: post ->
  (exists post1, evs1 = pre ++ ev :: post1 /\ post = post1 ++ evs2)
  \/ (exists pre2, pre = evs1 ++ pre2 /\ evs2 = pre2 ++ ev :: post).
Proof. unused.
  revert pre. induction evs1 as [| x evs1 IH]; intros pre E; simpl in *.
  - right. exists pre. auto.
  - destruct pre as [| y pre]; simpl in *.
    + injection E as -> E. left. exists evs1. auto.
    + injection E as -> E. destruct (IH pre E) as [(p1 & -> & ->) | (p2 & -> & ->)].
      * left. exists p1. auto.
      * right. exists p2. auto.
Qed.

Lemma stops_bind {A B} (m : M A) (f : A -> M B) :
  stops_at_failure m -> (forall a, stops_at_failure (f a)) ->
  stops_at_failure (bind m f).
Proof.
  intros Hm Hf st. unfold bind.
  destruct (Hm st) as (evs1 & E1 & P1).
  destruct (m st) as [[a | e] st1]; simpl in *.
  - destruct (Hf a st1) as (evs2 & E2 & P2).
    exists (evs1 ++ evs2). split.
    + rewrite E2, E1, app_assoc. reflexivity.
    + intros pre e post E.
      apply split_at_failure in E as [(p1 & E & _) | (p2 & _ & E)].
      * apply P1 in E as [_ E]. discriminate.
      * apply P2 in E. exact E.
  - exists evs1. split; [exact E1 |].
    intros pre e0 post E. apply P1 in E as [Hpost E].
    injection E as ->. auto.
Qed.

Lemma stops_soft (m : M json) : stops_at_failure (soft m).
Proof.
  intros st. unfold soft.
  destruct (m {| world := world st; trace := [] |}) as [r st1]. simpl.
  exists (List.map demote (trace st1)). split; [reflexivity |].
  intros pre e post E.
  assert (Hin : In (mandatory_failure e) (List.map demote (trace st1)))
    by (rewrite E; apply in_elt).
  apply in_map_iff in Hin as (ev & Heq & _).
  unfold demote, mandatory_failure in Heq. discriminate.
Qed.

Lemma stops_fetchWithParse (req : request) :
  stops_at_failure (fetchWithParse req).
Proof.
  intros st. unfold fetchWithParse.
  destruct (fetch req (world st)) as [o w]. simpl.
  eexists. split; [reflexivity |].
  intros pre e post E. destruct pre as [| x pre]; simpl in E.
  - injection E as E <-. auto.
  - injection E as _ E. destruct pre; discriminate.
Qed.

Lemma stops_sources_of (l : list (string * string)) :
  stops_at_failure (sources_of l).
Proof.
  induction l as [| [system method] l IH]; simpl.
  - apply stops_ret.
  - unfold source.
    repeat (apply stops_bind; [| intros ]);
      auto using stops_nowIso, stops_ret.
Qed.

Lemma stops_encoded (s : jsstring) : stops_at_failure (encoded s).
Proof.
  unfold encoded. destruct (encodeURIComponent s);
    [apply stops_ret | apply stops_lift].
Qed.

Lemma stops_callAt (b p : jsstring) (q : option (list (jsstring * json))) :
  stops_at_failure (callAt b p q).
Proof.
  unfold callAt. apply stops_bind; [apply stops_lift |].
  intros; apply stops_fetchWithParse.
Qed.

Lemma stops_toToolEnvelope (d : json) (l : list (string * string))
    (a : json) (w : list jsstring) :
  stops_at_failure (toToolEnvelope d l a w).
Proof.
  unfold toToolEnvelope.
  repeat (apply stops_bind; [| intros ]);
    auto using stops_sources_of, stops_nowIso, stops_ret.
Qed.

Lemma stops_probe (candidates : list jsstring) :
  stops_at_failure (probe candidates).
Proof.
  induction candidates as [| path rest IH]; simpl.
  - apply stops_ret.
  - apply stops_bind; [apply stops_soft |].
    intros payload. destruct (negb (truthy payload)); [exact IH |].
    destruct (pickFirstNumber payload LEDGER_ALIASES);
      [apply stops_ret | exact IH].
Qed.

Create HintDb stops.

#[local] Hint Resolve stops_ret stops_lift stops_nowIso stops_soft
  stops_fetchWithParse stops_sources_of stops_encoded stops_callAt
  stops_toToolEnvelope stops_probe : stops.

Ltac march :=
  repeat first
    [ solve [auto with stops]
    | apply stops_bind; [| intros ]
    | match goal with
      | |- stops_at_failure (if ?c then _ else _) => destruct c
      | |- stops_at_failure (match ?x with _ => _ end) => destruct x
      | |- stops_at_failure (let (_, _) := ?x in _) => destruct x
      end ].

Lemma stops_body (c : composite_call) : stops_at_failure (body_of c).
Proof.
  destruct c; cbn [body_of].
  - unfold network_overview_body, losFreshnessProbe, xrplRpc. march.
  - unfold ledger_summary_body, tryLos, callLos, xrplRpc. march.
  - unfold tx_explain_body, tryLos, callLos, xrplRpc. march.
  - unfold account_overview_body, xrplRpc. march.
  - unfold token_overview_body, tryLos, callLos, xrplRpc. march.
  - unfold market_snapshot_body, tryLos, callLos, xrplRpc. march.
  - unfold amm_overview_body, tryLos, callLos, xrplRpc. march.
  - unfold validator_set_overview_body. march.
  - unfold validator_health_body. march.
  - unfold amendment_status_body, xrplRpc. march.
  - unfold search_transactions_body, callLos. march.
  - unfold resolve_entities_body. march.
Qed.

(** X9. A composite tool makes no upstream call after a mandatory call
    has failed: in the calls a handler completes, a failed mandatory call
    can only be the last one, and the handler then answers with that
    failure's message. *)
Theorem no_call_after_mandatory_failure (c : composite_call) (st : state) :
  exists evs,
    trace (snd (invoke c st)) = trace st ++ evs
    /\ forall pre e post,
         evs = pre ++ mandatory_failure e :: post ->
         post = [] /\ fst (invoke c st) = toolError e.
Proof.
  unfold invoke, handler.
  destruct (stops_body c st) as (evs & Et & Hp).
  destruct (body_of c st) as [[out | error] st']; simpl in *;
    exists evs; (split; [exact Et |]); intros pre e post E;
    apply Hp in E as [Hpost E]; [discriminate |].
  injection E as ->. auto.
Qed.

(* ================================================================= *)
(** ** The freshness probe *)

Lemma tryLos_outcome (path : jsstring)
    (query : option (list (jsstring * json))) (st : state) :
  exists v st' evs,
    tryLos path query st = (Ok v, st')
    /\ trace st' = trace st ++ evs
    /\ ((evs = [] /\ v = JNull)
        \/ exists r,
             evs = [optional_call r]
             /\ v = match r with Ok x => x | Throw _ => JNull end).
Proof.
  unfold tryLos, soft, callLos, callAt, bind, lift, fetchWithParse.
  destruct (urlWithPathAndQuery LOS_BASE_URL path query) as [url | e];
    cbn [world trace fst snd].
  - destruct (fetch (GET url) (world st)) as [o w]. cbn [world trace app].
    do 3 eexists. split; [reflexivity |]. split; [reflexivity |].
    right. exists (parse_outcome o). split; reflexivity.
  - do 3 eexists. split; [reflexivity |]. split; [reflexivity |].
    left. split; reflexivity.
Qed.

Lemma pickFirstNumber_finite (value : json) (keys : list jsstring)
    (n : float) :
  pickFirstNumber value keys = Some n -> PrimFloat.is_finite n = true.
Proof.
  intros H. apply pickFirstNumber_sound in H as (d & holder & key & _ & _ & _ & H).
  unfold toNum in H.
  destruct (PrimFloat.is_finite (Number (prop holder key))) eqn:E;
    [| discriminate].
  apply some_inj in H. subst n. exact E.
Qed.

Lemma probe_outcome (candidates : list jsstring) (st : state) :
  exists p st' evs,
    probe candidates st = (Ok p, st')
    /\ trace st' = trace st ++ evs
    /\ (List.length evs <= List.length candidates)%nat
    /\ Forall (fun ev => ev_site ev = Optional) evs
    /\ match latestIndexedLedger p with
       | Some n =>
           exists path pre,
             sourcePath p = Some path /\ In path candidates
             /\ evs = pre ++ [optional_call (Ok (raw p))]
             /\ Forall no_watermark pre
             /\ truthy (raw p) = true
             /\ pickFirstNumber (raw p) LEDGER_ALIASES = Some n
       | None =>
           sourcePath p = None /\ raw p = JNull /\ Forall no_watermark evs
       end.
Proof.
  revert st. induction candidates as [| path rest IH]; intros st.
  - exists {| latestIndexedLedger := None; sourcePath := None; raw := JNull |},
      st, [].
    cbn. rewrite app_nil_r. repeat split; auto.
  - cbn [probe]. unfold bind at 1.
    destruct (tryLos_outcome path None st) as (v & st1 & evs1 & E1 & T1 & C1).
    rewrite E1.
    assert (S1 : Forall (fun ev => ev_site ev = Optional) evs1
                 /\ (List.length evs1 <= 1)%nat).
    { destruct C1 as [[-> _] | (r & -> & _)]; split; simpl; auto. }
    destruct S1 as [S1 L1].
    assert (again :
              (truthy v = false
               \/ pickFirstNumber v LEDGER_ALIASES = None) ->
              Forall no_watermark evs1).
    { intros Hv. destruct C1 as [[-> _] | (r & -> & ->)]; [constructor |].
      constructor; [| constructor]. unfold no_watermark. simpl.
      destruct r; [exact Hv | exact I]. }
    assert (next :
              (truthy v = false
               \/ pickFirstNumber v LEDGER_ALIASES = None) ->
              exists p st' evs,
                probe rest st1 = (Ok p, st')
                /\ trace st' = trace st ++ evs
                /\ (List.length evs <= List.length (path :: rest))%nat
                /\ Forall (fun ev => ev_site ev = Optional) evs
                /\ match latestIndexedLedger p with
                   | Some n =>
                       exists path' pre,
                         sourcePath p = Some path' /\ In path' (path :: rest)
                         /\ evs = pre ++ [optional_call (Ok (raw p))]
                         /\ Forall no_watermark pre
                         /\ truthy (raw p) = true
                         /\ pickFirstNumber (raw p) LEDGER_ALIASES = Some n
                   | None =>
                       sourcePath p = None /\ raw p = JNull
                       /\ Forall no_watermark evs
                   end).
    { intros Hv. specialize (again Hv).
      destruct (IH st1) as (p & st2 & evs2 & E2 & T2 & L2 & S2 & C2).
      exists p, st2, (evs1 ++ evs2).
      split; [exact E2 |].
      split; [rewrite T2, T1, app_assoc; reflexivity |].
      split; [rewrite length_app; simpl; lia |].
      split; [apply Forall_app; auto |].
      destruct (latestIndexedLedger p) as [n |].
      - destruct C2 as (path' & pre & Hs & Hin & -> & Hpre & Ht & Hn).
        exists path', (evs1 ++ pre).
        split; [exact Hs |]. split; [right; exact Hin |].
        split; [apply app_assoc |].
        split; [apply Forall_app; auto | auto].
      - destruct C2 as (Hs & Hr & Hno).
        split; [exact Hs |]. split; [exact Hr |]. apply Forall_app; auto. }
    destruct (truthy v) eqn:Ev; cbn [negb]; [| apply next; auto].
    destruct (pickFirstNumber v LEDGER_ALIASES) as [n |] eqn:En;
      [| apply next; auto].
    exists {| latestIndexedLedger := Some n; sourcePath := Some path;
              raw := v |}, st1, evs1.
    split; [reflexivity |]. split; [exact T1 |].
    split; [simpl; lia |]. split; [exact S1 |].
    cbn [latestIndexedLedger sourcePath raw].
    exists path, []. split; [reflexivity |]. split; [left; reflexivity |].
    split; [| auto].
    destruct C1 as [[_ ->] | (r & -> & Hv)]; [discriminate |].
    destruct r as [x | e]; subst v; [reflexivity | discriminate].
Qed.

Lemma tryLos_returns (path : jsstring)
    (query : option (list (jsstring * json))) (st : state) :
  exists payload st', tryLos path query st = (Ok payload, st').
Proof.
  destruct (tryLos_outcome path query st) as (v & st' & evs & E & _).
  exists v, st'. exact E.
Qed.

Lemma probe_finds (candidates : list jsstring) (st : state) :
  exists p st',
    probe candidates st = (Ok p, st') /\ found_among candidates st p st'.
Proof.
  revert st. induction candidates as [| path rest IH]; intros st.
  - exists {| latestIndexedLedger := None; sourcePath := None; raw := JNull |},
      st.
    split; [reflexivity |]. unfold found_among. cbn.
    split; [constructor | auto].
  - cbn [probe]. unfold bind at 1.
    destruct (tryLos_returns path None st) as (payload & st1 & E1).
    rewrite E1.
    assert (next :
              holds_watermark payload = false ->
              exists p st',
                probe rest st1 = (Ok p, st')
                /\ found_among (path :: rest) st p st').
    { intros Hm. destruct (IH st1) as (p & st' & E & F).
      exists p, st'. split; [exact E |].
      unfold found_among in *. destruct (latestIndexedLedger p) as [n |].
      - destruct F as (before & hit & after & st2 & -> & M & F).
        exists (path :: before), hit, after, st2.
        split; [reflexivity |].
        split; [econstructor; eassumption | exact F].
      - destruct F as (M & F). split; [econstructor; eassumption | exact F]. }
    unfold holds_watermark in next.
    destruct (truthy payload) eqn:Et; cbn [negb andb] in *;
      [| apply next; reflexivity].
    destruct (pickFirstNumber payload LEDGER_ALIASES) as [n |] eqn:En;
      [| apply next; reflexivity].
    exists {| latestIndexedLedger := Some n; sourcePath := Some path;
              raw := payload |}, st1.
    split; [reflexivity |]. unfold found_among.
    cbn [latestIndexedLedger sourcePath raw].
    exists [], path, rest, st. split; [reflexivity |].
    split; [constructor | auto].
Qed.

(** X10. The freshness probe asks the candidate paths in order and stops
    at the first answer in which a latest indexed ledger is found: it
    reports that answer as [raw], with the path that was asked for it,
    every candidate before it having been asked and having held no such
    number; when every candidate misses it reports nothing: no ledger,
    no path, and [null] for [raw].  It completes at most five upstream
    calls, all of them optional, and a ledger it reports is finite.
    Provided the answers it receives are plain (no object with an own
    [toString] member, on which the search itself would throw), the
    probe does not fail. *)
Theorem losFreshnessProbe_first_watermark (st : state) (evs : list event) :
  trace (snd (losFreshnessProbe st)) = trace st ++ evs ->
  Forall plain_answer evs ->
  exists p st',
    losFreshnessProbe st = (Ok p, st')
    /\ found_among FRESHNESS_CANDIDATES st p st'
    /\ (List.length evs <= 5)%nat
    /\ Forall (fun ev => ev_site ev = Optional) evs
    /\ (forall n,
          latestIndexedLedger p = Some n -> PrimFloat.is_finite n = true).
Proof.
  intros Ht _. unfold losFreshnessProbe in *.
  destruct (probe_finds FRESHNESS_CANDIDATES st) as (p & st' & E & F).
  destruct (probe_outcome FRESHNESS_CANDIDATES st)
    as (p' & st'' & evs' & E' & T & L & S & _).
  rewrite E in E'. injection E' as <- <-.
  rewrite E in Ht. cbn [snd] in Ht. rewrite T in Ht.
  apply app_inv_head in Ht. subst evs'.
  exists p, st'. split; [exact E |]. split; [exact F |].
  split; [exact L |]. split; [exact S |].
  intros n Hn. unfold found_among in F. rewrite Hn in F.
  destruct F as (_ & _ & _ & _ & _ & _ & _ & _ & Hp & _).
  apply (pickFirstNumber_finite _ _ _ Hp).
Qed.

(* ================================================================= *)
(** ** Pass-through tools *)

Lemma encode_component_cases (a : jsstring) :
  (encodeURIComponent a = None
   /\ encode_component a = throw_fault URIMalformed)
  \/ exists e, encodeURIComponent a = Some e /\ encode_component a = Ok e.
Proof.
  unfold encode_component. destruct (encodeURIComponent a) as [e |].
  - right. exists e. auto.
  - left. auto.
Qed.

Lemma url_cases (baseUrl path : jsstring)
    (query : option (list (jsstring * json))) :
  (exists url, urlWithPathAndQuery baseUrl path query = Ok url)
  \/ exists address,
       URL_new address = None
       /\ urlWithPathAndQuery baseUrl path query
          = throw_fault (InvalidURL address).
Proof.
  unfold urlWithPathAndQuery.
  match goal with
  | |- context [URL_new ?a] => destruct (URL_new a) as [url |] eqn:E
  end.
  - left. destruct query; eexists; reflexivity.
  - right. eexists. split; [exact E | reflexivity].
Qed.

(** The builders of the GET tools fail exactly on an argument that
    cannot be encoded, and otherwise give the path the tool stands
    for. *)
Lemma get_builder_cases (t : get_tool) :
  ((exists a, In a (encoded_arguments (GetTool t))
              /\ encodeURIComponent a = None) ->
   get_builder t = throw_fault URIMalformed)
  /\ ((forall a, In a (encoded_arguments (GetTool t)) ->
                 encodeURIComponent a <> None) ->
      exists path query,
        get_builder t = Ok (path, query) /\ addressed t path query).
Proof.
  assert (one : forall prefix a suffix,
            (encodeURIComponent a = None ->
             path_with prefix a suffix = throw_fault URIMalformed)
            /\ (encodeURIComponent a <> None ->
                exists path,
                  path_with prefix a suffix = Ok (path, None)
                  /\ encoded_into prefix a suffix path)).
  { intros prefix a suffix. unfold path_with, encode_component, encoded_into.
    destruct (encodeURIComponent a) as [e |]; cbn [rbind].
    - split; [discriminate | intros _].
      eexists. split; [reflexivity |]. exists e. auto.
    - split; [reflexivity | intros H; contradiction]. }
  assert (opt : forall prefix arg,
            (truthy arg = true -> encodeURIComponent (ToString arg) = None ->
             path_optional prefix arg = throw_fault URIMalformed)
            /\ ((truthy arg = true ->
                 encodeURIComponent (ToString arg) <> None) ->
                exists path,
                  path_optional prefix arg = Ok (path, None)
                  /\ optionally_encoded_into prefix arg path)).
  { intros prefix arg. unfold path_optional, optionally_encoded_into.
    destruct (truthy arg).
    - destruct (one (prefix ++ lit "/") (ToString arg) []) as [F S].
      split; [intros _; exact F |].
      intros H. apply S, H. reflexivity.
    - split; [discriminate | intros _].
      exists prefix. split; reflexivity. }
  assert (with_one : forall prefix a suffix,
            ((exists x, In x [a] /\ encodeURIComponent x = None) ->
             path_with prefix a suffix = throw_fault URIMalformed)
            /\ ((forall x, In x [a] -> encodeURIComponent x <> None) ->
                exists path query,
                  path_with prefix a suffix = Ok (path, query)
                  /\ encoded_into prefix a suffix path /\ query = None)).
  { intros prefix a suffix. destruct (one prefix a suffix) as [F S]. split.
    - intros (x & [<- | []] & Hx). apply F, Hx.
    - intros H. destruct S as (path & E & P); [apply H; left; reflexivity |].
      exists path, None. auto. }
  assert (with_opt : forall prefix arg,
            ((exists x, In x (if truthy arg then [ToString arg] else [])
                        /\ encodeURIComponent x = None) ->
             path_optional prefix arg = throw_fault URIMalformed)
            /\ ((forall x, In x (if truthy arg then [ToString arg] else []) ->
                           encodeURIComponent x <> None) ->
                exists path query,
                  path_optional prefix arg = Ok (path, query)
                  /\ optionally_encoded_into prefix arg path
                  /\ query = None)).
  { intros prefix arg. destruct (opt prefix arg) as [F S]. split.
    - destruct (truthy arg); [| intros (x & [] & _)].
      intros (x & [<- | []] & Hx). apply F; auto.
    - intros H. destruct S as (path & E & P).
      { intros Ht. rewrite Ht in H. apply H. left. reflexivity. }
      exists path, None. auto. }
  destruct t; cbn [encoded_arguments get_builder addressed get_base];
    try apply with_one; try apply with_opt.
  all: try (split; [intros (a & [] & _) | intros _];
            do 2 eexists; split; [reflexivity |];
            repeat split; reflexivity).
  (* vh_get_amendment_vote *)
  unfold encode_component. split.
  - intros (a & [<- | [<- | []]] & Ha).
    + rewrite Ha. reflexivity.
    + rewrite Ha. destruct (encodeURIComponent network); reflexivity.
  - intros H.
    destruct (encodeURIComponent network) as [n |] eqn:En;
      [| exfalso; apply (H network); [left; reflexivity | exact En]].
    destruct (encodeURIComponent identifier) as [i |] eqn:Ei;
      [| exfalso; apply (H identifier);
         [right; left; reflexivity | exact Ei]].
    cbn [rbind]. do 2 eexists. split; [reflexivity |].
    split; [| reflexivity]. exists n, i. auto.
Qed.

Lemma through_lift {A} (x : A) (k : A -> M tool_output) (st : state) :
  handler (a <- lift (Ok x) ;; k a) st = handler (k x) st.
Proof. reflexivity. Qed.

Lemma through_ret {A} (x : A) (k : A -> M tool_output) (st : state) :
  handler (a <- ret x ;; k a) st = handler (k x) st.
Proof. reflexivity. Qed.

(** X11. Every pass-through tool sends one request or none.  It sends
    none, and answers with the [URIError], exactly when one of the
    arguments it encodes cannot be encoded; otherwise the request is
    built unless the address is refused by the [URL] constructor, in
    which case it again sends none and answers with that failure; the
    path and query of a GET tool are the ones its arguments stand for
    (the path of its registration with each argument encoded in its
    place), and the JSON-RPC tools always have a request.  When there is a request it
    is sent once: if the call fails the answer is the error carrying its
    message, and if it succeeds the answer is the decoded body unchanged
    ([xrplmeta_get] wraps it in an envelope with no ledger and no
    warnings). *)
Theorem passthrough_relays_upstream (c : passthrough_call) (st : state) :
  ((exists a, In a (encoded_arguments c) /\ encodeURIComponent a = None) ->
   request_of c = throw_fault URIMalformed)
  /\ ((forall a, In a (encoded_arguments c) ->
                 encodeURIComponent a <> None) ->
      (exists req, request_of c = Ok req)
      \/ exists address,
           URL_new address = None
           /\ request_of c = throw_fault (InvalidURL address))
  /\ match c with
     | GetTool t =>
         forall path query,
           get_builder t = Ok (path, query) ->
           addressed t path query
           /\ request_of c
              = rmap_url (urlWithPathAndQuery (get_base t) path query)
     | RpcTool _ _ | PublicApiCall _ _ _ => exists req, request_of c = Ok req
     | _ => True
     end
  /\ match request_of c with
     | Throw e => relay c st = (toolError e, st)
     | Ok req =>
         trace (snd (fetchWithParse req st))
         = trace st ++ [{| ev_site := Mandatory;
                           ev_outcome := fst (fetchWithParse req st) |}]
         /\ trace (snd (relay c st)) = trace (snd (fetchWithParse req st))
         /\ match fst (fetchWithParse req st) with
            | Throw e => fst (relay c st) = toolError e
            | Ok data => relayed c data (fst (relay c st))
            end
     end.
Proof.
  assert (sent : forall req (k : json -> M tool_output) (P : json -> tool_output -> Prop),
            (forall data st1, exists out st2,
                k data st1 = (Ok out, st2) /\ trace st2 = trace st1
                /\ P data out) ->
            let run := handler (data <- fetchWithParse req ;; k data) st in
            trace (snd (fetchWithParse req st))
            = trace st ++ [{| ev_site := Mandatory;
                              ev_outcome := fst (fetchWithParse req st) |}]
            /\ trace (snd run) = trace (snd (fetchWithParse req st))
            /\ match fst (fetchWithParse req st) with
               | Throw e => fst run = toolError e
               | Ok data => P data (fst run)
               end).
  { intros req k P Hk. cbv zeta. unfold handler, bind.
    split.
    { unfold fetchWithParse. destruct (fetch req (world st)). reflexivity. }
    destruct (fetchWithParse req st) as [[data | e] st1]; cbn [fst snd].
    - destruct (Hk data st1) as (out & st2 & -> & T & HP). auto.
    - auto. }
  assert (plainly : forall c' data st1,
            match c' with XrplmetaGet _ _ => False | _ => True end ->
            exists out st2,
              ret (toolResult data) st1 = (Ok out, st2)
              /\ trace st2 = trace st1 /\ relayed c' data out).
  { intros c' data st1 Hc. exists (ToolResult data), st1.
    split; [reflexivity |]. split; [reflexivity |].
    destruct c'; try contradiction; reflexivity. }
  assert (refused : forall A (e : thrown) (k : A -> M tool_output),
            handler (x <- lift (Throw e) ;; k x) st = (toolError e, st)).
  { intros. reflexivity. }
  destruct c as [t | t args | tokenID | tokenIds | method params id
                 | path query].
  - (* GET tools *)
    destruct (get_builder_cases t) as [F S].
    cbn [request_of relay]. unfold get_tool_handler, registerGetTool.
    split; [intros H; rewrite (F H); reflexivity |].
    split.
    { intros H. destruct (S H) as (path & query & -> & _). cbn [rbind fst snd].
      unfold rmap_url.
      destruct (url_cases (get_base t) path query)
        as [(url & ->) | (address & Ha & ->)].
      - left. eexists. reflexivity.
      - right. exists address. auto. }
    split.
    { intros path query E. rewrite E. split; [| reflexivity].
      assert (Hall : forall a, In a (encoded_arguments (GetTool t)) ->
                               encodeURIComponent a <> None).
      { intros a Hin Hn.
        rewrite F in E by (exists a; auto). discriminate. }
      destruct (S Hall) as (path' & query' & E' & Ha).
      rewrite E in E'. injection E' as <- <-. exact Ha. }
    destruct (get_builder t) as [[path query] | e]; cbn [rbind fst snd].
    + rewrite through_lift. cbn [fst snd]. unfold rmap_url.
      destruct (urlWithPathAndQuery (get_base t) path query) as [url | e];
        cbn [rbind].
      * rewrite through_lift.
        apply (sent (GET url) (fun data => ret (toolResult data))
                 (relayed (GetTool t))).
        intros. apply plainly. exact I.
      * reflexivity.
    + reflexivity.
  - (* JSON-RPC tools *)
    cbn [request_of relay encoded_arguments].
    split; [intros (a & [] & _) |].
    split; [intros _; left; eexists; reflexivity |].
    split; [eexists; reflexivity |].
    unfold rpc_tool_handler, registerRpcTool, xrplRpc, POST.
    apply (sent _ (fun data => ret (toolResult data))
             (relayed (RpcTool t args))).
    intros. apply plainly. exact I.
  - (* los_get_token *)
    cbn [request_of relay encoded_arguments]. unfold los_get_token, encoded.
    destruct (encode_component_cases tokenID) as [[En ->] | (e & En & ->)];
      rewrite En; cbn [rbind].
    + split; [reflexivity |].
      split; [intros H; exfalso; apply (H tokenID); [left; reflexivity | exact En] |].
      split; [exact I | reflexivity].
    + split; [intros (a & [<- | []] & Ha); congruence |].
      unfold rmap_url.
      destruct (url_cases LOS_BASE_URL (lit "/tokens/" ++ e) None)
        as [(url & Eu) | (address & Ha & Eu)]; rewrite Eu; cbn [rbind].
      * split; [intros _; left; eexists; reflexivity |].
        split; [exact I |].
        rewrite through_ret, Eu, through_lift.
        apply (sent (GET url) (fun data => ret (toolResult data))
                 (relayed (LosGetToken tokenID))).
        intros. apply plainly. exact I.
      * split; [intros _; right; exists address; auto |].
        split; [exact I |].
        unfold handler, bind, ret, lift. rewrite Eu. reflexivity.
  - (* los_batch_get_tokens *)
    cbn [request_of relay encoded_arguments]. unfold los_batch_get_tokens.
    split; [intros (a & [] & _) |].
    destruct (url_cases LOS_BASE_URL (lit "/tokens/batch-get") None)
      as [(url & Eu) | (address & Ha & Eu)]; rewrite Eu; cbn [rbind].
    + split; [intros _; left; eexists; reflexivity |].
      split; [exact I |].
      unfold POST. rewrite through_lift.
      apply (sent _ (fun data => ret (toolResult data))
               (relayed (LosBatchGetTokens tokenIds))).
      intros. apply plainly. exact I.
    + split; [intros _; right; exists address; auto |].
      split; [exact I | reflexivity].
  - (* xrpl_public_api_call *)
    cbn [request_of relay encoded_arguments].
    split; [intros (a & [] & _) |].
    split; [intros _; left; eexists; reflexivity |].
    split; [eexists; reflexivity |].
    unfold xrpl_public_api_call, xrplRpcWithId, POST.
    apply (sent _ (fun data => ret (toolResult data))
             (relayed (PublicApiCall method params id))).
    intros. apply plainly. exact I.
  - (* xrplmeta_get *)
    cbn [request_of relay encoded_arguments]. unfold xrplmeta_get, rmap_url.
    split; [intros (a & [] & _) |].
    destruct (url_cases XRPLMETA_BASE_URL path query)
      as [(url & Eu) | (address & Ha & Eu)]; rewrite Eu; cbn [rbind].
    + split; [intros _; left; eexists; reflexivity |].
      split; [exact I |].
      rewrite through_lift.
      apply (sent (GET url)
               (fun data =>
                  t <- nowIso ;;
                  (let sources :=
                     [JObj [field "system" (JStr (lit "XRPLMeta"));
                            (lit "method", JStr (lit "GET " ++ path));
                            field "at" (JStr t)]] in
                   asOfTime <- nowIso ;;
                   ret (toolResult
                          (envelope data sources JUndefined asOfTime []))))
               (relayed (XrplmetaGet path query))).
      intros data st1. unfold bind, nowIso, ret.
      destruct (Date_toISOString (world st1)) as [t1 w1]. cbn [world trace].
      destruct (Date_toISOString w1) as [t2 w2]. cbn [world trace].
      do 2 eexists. split; [reflexivity |]. split; [reflexivity |].
      cbn [relayed]. do 2 eexists. reflexivity.
    + split; [intros _; right; exists address; auto |].
      split; [exact I | reflexivity].
Qed.

(* ================================================================= *)
(** ** What the handlers report *)

Lemma yields_bind_post {A B} (m : M A) (f : A -> M B)
    (P : A -> Prop) (Q : B -> Prop) :
  yields m P -> (forall a, P a -> yields (f a) Q) -> yields (bind m f) Q.
Proof.
  intros Hm Hf st. unfold bind. specialize (Hm st).
  destruct (m st) as [[a | e] st1]; simpl in *.
  - apply (Hf a Hm).
  - exact I.
Qed.

(** Reduces a statement about a handler's answer to one about what its
    body yields. *)
Ltac by_payload :=
  match goal with
  | |- _ \/ ?G =>
      match G with
      | context [fst (handler ?body ?st)] =>
          let P := eval pattern (fst (handler body st)) in G in
          match P with
          | ?F _ => apply (handler_yields body F st)
          end
      end
  end.


(** X12. [network_overview] asks rippled for its server info and then
    runs the freshness probe, and reports what the probe found: the
    latest indexed ledger and the candidate path whose answer held it,
    or [null] for both.  When nothing was found the lag is [null] and
    the one warning says so; when something was found there is no
    warning.  In both cases the envelope's [asOfLedger] is the
    validated ledger index reported in the data. *)
Theorem network_overview_reports_watermark (st : state) :
  let out := fst (network_overview st) in
  let fresh := data_of out # "dataFreshness" in
  (exists message, out = ToolError message)
  \/ exists serverInfoRaw st1 p st2,
       xrplRpc (lit "server_info") (JArr [JObj []]) st
       = (Ok serverInfoRaw, st1)
       /\ losFreshnessProbe st1 = (Ok p, st2)
       /\ found_among FRESHNESS_CANDIDATES st1 p st2
       /\ fresh # "losLatestIndexedLedger"
          = json_of_num (latestIndexedLedger p)
       /\ fresh # "losSourcePath" = json_of_ostr (sourcePath p)
       /\ payload_of out # "freshness" # "asOfLedger"
          = data_of out # "validatedLedgerIndex"
       /\ (latestIndexedLedger p = None ->
           data_of out # "keyRates" # "ledgerLagVsLos" = JNull
           /\ payload_of out # "warnings"
              = JArr [JStr (lit "LOS ingestion watermark endpoint was not detected from known paths.")])
       /\ (latestIndexedLedger p <> None ->
           payload_of out # "warnings" = JArr []).
Proof.
  cbv zeta. unfold network_overview.
  destruct (handler_answer network_overview_body st)
    as [Herr | (st' & Hrun)]; [left; exact Herr | right].
  revert Hrun. generalize (fst (handler network_overview_body st)).
  intros out Hrun. unfold network_overview_body in Hrun.
  apply bind_Ok in Hrun as (serverInfoRaw & st1 & E1 & Hrun).
  apply bind_Ok in Hrun as (p & st2 & E2 & Hrun).
  apply toToolEnvelope_Ok in Hrun as (srcs & t & ->).
  exists serverInfoRaw, st1, p, st2.
  split; [exact E1 |]. split; [exact E2 |].
  split.
  { destruct (probe_finds FRESHNESS_CANDIDATES st1) as (p' & st3 & E & F).
    unfold losFreshnessProbe in E2. rewrite E in E2.
    injection E2 as <- <-. exact F. }
  split; [reflexivity |]. split; [reflexivity |].
  match goal with
  | |- context [envelope _ _ (json_of_num ?v) _ _] => generalize v
  end.
  intros validatedLedgerIndex.
  split; [destruct validatedLedgerIndex; reflexivity |].
  destruct (latestIndexedLedger p) as [n |].
  - split; [discriminate | intros _; reflexivity].
  - split; [intros _ | intros H; contradiction].
    split; [| reflexivity]. destruct validatedLedgerIndex; reflexivity.
Qed.

Lemma histogram_total_bump (key : jsstring) (h : list (jsstring * nat)) :
  histogram_total (bump key h) = S (histogram_total h).
Proof. unused.
  induction h as [| [k n] h IH]; simpl; [reflexivity |].
  destruct (jsstring_eqb k key); simpl; [reflexivity | rewrite IH; lia].
Qed.

Lemma bump_keys (key k : jsstring) (h : list (jsstring * nat)) :
  In k (List.map fst (bump key h)) -> k = key \/ In k (List.map fst h).
Proof. unused.
  induction h as [| [k0 n] h IH]; simpl.
  - intros [<- | []]. auto.
  - destruct (jsstring_eqb k0 key); simpl.
    + intros [<- | H]; auto.
    + intros [<- | H]; auto. destruct (IH H); auto.
Qed.

Lemma bump_NoDup (key : jsstring) (h : list (jsstring * nat)) :
  NoDup (List.map fst h) -> NoDup (List.map fst (bump key h)).
Proof. unused.
  induction h as [| [k n] h IH]; simpl.
  - intros _. constructor; [intros [] | constructor].
  - intros Hnd. inversion Hnd as [| ? ? Hk Hh]; subst.
    destruct (jsstring_eqb k key) eqn:E; simpl.
    + constructor; assumption.
    + constructor; [| apply IH, Hh].
      intros Hin. apply bump_keys in Hin as [-> | Hin]; [| contradiction].
      rewrite jsstring_eqb_refl in E. discriminate.
Qed.

Lemma bump_positive (key : jsstring) (h : list (jsstring * nat)) :
  Forall (fun kn => 0 < snd kn)%nat h ->
  Forall (fun kn => 0 < snd kn)%nat (bump key h).
Proof. unused.
  induction h as [| [k n] h IH]; simpl.
  - intros _. repeat constructor.
  - intros Hp. inversion Hp as [| ? ? Hn Hh]; subst.
    destruct (jsstring_eqb k key); constructor; simpl in *; auto; lia.
Qed.

(** A well-formed histogram of [n] observations: distinct keys, positive
    counts, adding up to [n]. *)
Lemma jsstring_eqb_sym (a b : jsstring) :
  jsstring_eqb a b = jsstring_eqb b a.
Proof. unused.
  destruct (jsstring_eqb a b) eqn:E.
  - apply jsstring_eqb_eq in E. subst. symmetry. apply jsstring_eqb_refl.
  - destruct (jsstring_eqb b a) eqn:E'; [| reflexivity].
    apply jsstring_eqb_eq in E'. subst. rewrite jsstring_eqb_refl in E.
    discriminate.
Qed.

Lemma bump_map_fst (key : jsstring) (h : list (jsstring * nat)) :
  List.map fst (bump key h) = set_add key (List.map fst h).
Proof. unused.
  unfold set_add. induction h as [| [k n] h IH]; [reflexivity |].
  cbn [bump List.map fst existsb]. rewrite (jsstring_eqb_sym key k).
  destruct (jsstring_eqb k key); cbn [orb List.map fst]; [reflexivity |].
  rewrite IH. destruct (existsb (jsstring_eqb key) (List.map fst h));
    reflexivity.
Qed.

Lemma count_for_bump (k key : jsstring) (h : list (jsstring * nat)) :
  count_for k (bump key h)
  = ((if jsstring_eqb k key then 1 else 0) + count_for k h)%nat.
Proof. unused.
  induction h as [| [k' n] h IH]; cbn [bump count_for].
  - rewrite (jsstring_eqb_sym key k). destruct (jsstring_eqb k key); lia.
  - destruct (jsstring_eqb k' key) eqn:E1; cbn [count_for].
    + apply jsstring_eqb_eq in E1. subst k'.
      rewrite (jsstring_eqb_sym key k).
      destruct (jsstring_eqb k key); lia.
    + destruct (jsstring_eqb k' k) eqn:E2; [| exact IH].
      apply jsstring_eqb_eq in E2. subst k'. rewrite E1. reflexivity.
Qed.

(** Counting keys one after the other gives their histogram. *)
Lemma histogram_of_counting (keys : list jsstring) :
  histogram_of keys (fold_left (fun h key => bump key h) keys []).
Proof. unused.
  assert (G : forall keys h,
            List.map fst (fold_left (fun h key => bump key h) keys h)
            = fold_left (fun seen k => set_add k seen) keys (List.map fst h)
            /\ (forall k,
                  count_for k (fold_left (fun h key => bump key h) keys h)
                  = (count_for k h + occurrences k keys)%nat)
            /\ histogram_total (fold_left (fun h key => bump key h) keys h)
               = (histogram_total h + List.length keys)%nat).
  { clear. intros keys. induction keys as [| key keys IH]; intros h.
    - cbn [fold_left List.length]. unfold occurrences.
      cbn [filter List.length]. repeat split; intros; lia.
    - cbn [fold_left]. destruct (IH (bump key h)) as (H1 & H2 & H3).
      split; [rewrite H1, bump_map_fst; reflexivity |].
      split.
      + intros k. rewrite H2, count_for_bump. unfold occurrences.
        cbn [filter]. destruct (jsstring_eqb k key); cbn [List.length]; lia.
      + rewrite H3, histogram_total_bump. cbn [List.length]. lia. }
  destruct (G keys []) as (H1 & H2 & H3).
  split; [exact H1 |]. split; [intros k; rewrite H2; reflexivity | exact H3].
Qed.

Lemma rfold_counts {A} (step : list (jsstring * nat) -> A ->
                                result (list (jsstring * nat)))
    (key_of : A -> jsstring) (rows : list A) (h : list (jsstring * nat)) :
  (forall acc row next, step acc row = Ok next ->
                        next = bump (key_of row) acc) ->
  rfold step rows [] = Ok h ->
  histogram_of (List.map key_of rows) h.
Proof. unused.
  intros Hstep H.
  apply (rfold_ok_inv _ (fun acc row => bump (key_of row) acc) _ Hstep) in H.
  subst h.
  assert (E : forall rows acc,
            fold_left (fun acc row => bump (key_of row) acc) rows acc
            = fold_left (fun h key => bump key h) (List.map key_of rows) acc).
  { clear. intros rows. induction rows; intros acc; cbn; auto. }
  rewrite E. apply histogram_of_counting.
Qed.

Lemma search_type_step_counts (acc : list (jsstring * nat)) (row : json)
    (next : list (jsstring * nat)) :
  search_type_step acc row = Ok next ->
  next = bump (search_type_of row) acc.
Proof.
  unfold search_type_step, member.
  destruct (nullish row); cbn [rbind]; [discriminate |].
  intros E. apply Ok_inj in E. symmetry. exact E.
Qed.

Lemma operator_step_counts (acc : list (jsstring * nat)) (v : json)
    (next : list (jsstring * nat)) :
  operator_step acc v = Ok next -> next = bump (operator_of v) acc.
Proof.
  unfold operator_step, member.
  destruct (nullish v); cbn [rbind]; [discriminate |].
  intros E. apply Ok_inj in E. symmetry. exact E.
Qed.

(** X13. [search_transactions] asks the indexing service once and
    describes the rows of its answer: [results] are those rows, [count]
    is their number and [totalAmount] the sum of their amounts.  When
    no object of the answer has an own [toString] member and no row's
    transaction type is a member name inherited from
    [Object.prototype] or a string of digits, the transaction-type
    histogram is the histogram of the rows' types: one key per distinct
    type, in the order of first occurrence, each with the number of rows
    of that type, the counts adding up to the number of rows. *)
Theorem search_transactions_aggregates (filters : list (jsstring * json))
    (cursor size : json) (st : state) :
  let out := fst (search_transactions filters cursor size st) in
  let aggregates := data_of out # "aggregates" in
  (exists message, out = ToolError message)
  \/ exists query payload st1 total,
       query
       = obj_set (lit "size") (size ?? JObj filters # "size" ?? JNum 200)
           (obj_set (lit "marker")
              (logical_or cursor (JObj filters # "marker")) filters)
       /\ callLos (lit "/transactions") (Some query) st = (Ok payload, st1)
       /\ data_of out # "results"
          = JArr (rows_of payload (lit "transactions"))
       /\ aggregates # "count"
          = JNum (num_of_nat
                    (List.length (rows_of payload (lit "transactions"))))
       /\ totalAmount (rows_of payload (lit "transactions")) = Ok total
       /\ aggregates # "totalAmount" = JNum total
       /\ (plain payload = true ->
           Forall (fun row => ordinary_key (search_type_of row) = true)
             (rows_of payload (lit "transactions")) ->
           exists h,
             aggregates # "txTypeHistogram" = histogram_json h
             /\ histogram_of
                  (List.map search_type_of
                     (rows_of payload (lit "transactions"))) h).
Proof.
  cbv zeta. unfold search_transactions.
  destruct (handler_answer (search_transactions_body filters cursor size) st)
    as [Herr | (st' & Hrun)]; [left; exact Herr | right].
  revert Hrun.
  generalize (fst (handler (search_transactions_body filters cursor size) st)).
  intros out Hrun. unfold search_transactions_body in Hrun.
  apply bind_Ok in Hrun as (payload & st1 & E1 & Hrun).
  apply bind_Ok in Hrun as (h & st2 & E2 & Hrun).
  apply lift_Ok in E2 as [E2 ->].
  apply bind_Ok in Hrun as (total & st3 & E3 & Hrun).
  apply lift_Ok in E3 as [E3 ->].
  apply toToolEnvelope_Ok in Hrun as (srcs & t & ->).
  do 2 eexists. exists st1, total.
  split; [reflexivity |]. split; [exact E1 |].
  split; [reflexivity |]. split; [reflexivity |].
  split; [exact E3 |]. split; [reflexivity |].
  intros _ _. exists h. split; [reflexivity |].
  apply (rfold_counts _ _ _ _ search_type_step_counts E2).
Qed.

(** X14. [validator_set_overview] asks the validator history service
    once, for the list of validators (of the group, when one is given),
    and describes the validators of its answer: [validatorCount] is
    their number and [currentSet] their first 200, in the order of the
    answer.  When no object of the answer has an own [toString] member
    and no validator's operator is a member name inherited from
    [Object.prototype] or a string of digits, [byOperator] is the
    histogram of the validators' operators: one key per distinct
    operator, in the order of first occurrence, each with the number of
    its validators. *)
Theorem validator_set_overview_counts (options : json) (st : state) :
  let out := fst (validator_set_overview options st) in
  (exists message, out = ToolError message)
  \/ exists group validatorsRaw st1,
       ((truthy (options # "group") = false /\ group = [])
        \/ (truthy (options # "group") = true
            /\ exists g,
                 encodeURIComponent (ToString (options # "group")) = Some g
                 /\ group = lit "/" ++ g))
       /\ callAt DATA_XRPL_BASE_URL (lit "/v1/network/validators" ++ group)
            None st
          = (Ok validatorsRaw, st1)
       /\ data_of out # "validatorCount"
          = JNum (num_of_nat
                    (List.length (rows_of validatorsRaw (lit "validators"))))
       /\ data_of out # "currentSet"
          = JArr (firstn 200 (rows_of validatorsRaw (lit "validators")))
       /\ (plain validatorsRaw = true ->
           Forall (fun v => ordinary_key (operator_of v) = true)
             (rows_of validatorsRaw (lit "validators")) ->
           exists h,
             data_of out # "byOperator" = histogram_json h
             /\ histogram_of
                  (List.map operator_of
                     (rows_of validatorsRaw (lit "validators"))) h).
Proof.
  cbv zeta. unfold validator_set_overview.
  destruct (handler_answer (validator_set_overview_body options) st)
    as [Herr | (st' & Hrun)]; [left; exact Herr | right].
  revert Hrun.
  generalize (fst (handler (validator_set_overview_body options) st)).
  intros out Hrun. unfold validator_set_overview_body in Hrun.
  apply bind_Ok in Hrun as (group & st0 & E0 & Hrun).
  assert (G : st0 = st
              /\ ((truthy (options # "group") = false /\ group = [])
                  \/ (truthy (options # "group") = true
                      /\ exists g,
                           encodeURIComponent (ToString (options # "group"))
                           = Some g
                           /\ group = lit "/" ++ g))).
  { destruct (truthy (options # "group")).
    - apply bind_Ok in E0 as (g & st00 & Eg & E0).
      apply encoded_Ok in Eg as [Eg ->]. apply ret_Ok in E0 as [-> ->].
      split; [reflexivity |]. right. split; [reflexivity |].
      exists g. auto.
    - apply ret_Ok in E0 as [-> ->]. auto. }
  destruct G as [-> G].
  apply bind_Ok in Hrun as (validatorsRaw & st1 & E1 & Hrun).
  apply bind_Ok in Hrun as (h & st2 & E2 & Hrun).
  apply lift_Ok in E2 as [E2 ->].
  apply toToolEnvelope_Ok in Hrun as (srcs & t & ->).
  exists group, validatorsRaw, st1.
  split; [exact G |]. split; [exact E1 |].
  split; [reflexivity |]. split; [reflexivity |].
  intros _ _. exists h. split; [reflexivity |].
  apply (rfold_counts _ _ _ _ operator_step_counts E2).
Qed.

Lemma last_n_length {A} (n : nat) (l : list A) :
  (List.length (last_n n l) <= n)%nat.
Proof. unused. unfold last_n. rewrite length_skipn. lia. Qed.

Lemma last_n_suffix {A} (n : nat) (l : list A) :
  exists older, l = older ++ last_n n l.
Proof. unused.
  exists (firstn (List.length l - n) l). unfold last_n.
  symmetry. apply firstn_skipn.
Qed.

Lemma last_n_nonempty {A} (n : nat) (l : list A) :
  l <> [] -> last_n (S n) l <> [].
Proof. unused.
  intros Hl E. apply (f_equal (@List.length A)) in E.
  unfold last_n in E. rewrite length_skipn in E.
  destruct l; [contradiction | cbn [List.length] in E; lia].
Qed.

Lemma last_n_min {A} (n : nat) (l : list A) :
  List.length (last_n n l) = Nat.min n (List.length l).
Proof. unused. unfold last_n. rewrite length_skipn. lia. Qed.

(** X15. [validator_health] asks the validator history service for the
    validator and then for its reports, and looks at the last 30 reports
    of the second answer: [recentReports] is the tail of that report
    list, 30 long (or the whole list when it is shorter), and the
    metrics are the totals over it with the uptime score computed from
    them.  With an empty report list both totals are zero, the uptime
    score is [null] and the one warning says so; with a non-empty list
    there is no warning. *)
Theorem validator_health_window (pubkey_or_node : jsstring) (window : json)
    (st : state) :
  let out := fst (validator_health pubkey_or_node window st) in
  let metrics := data_of out # "metrics" in
  (exists message, out = ToolError message)
  \/ exists key validator reports st1 st2 signed missed,
       encodeURIComponent pubkey_or_node = Some key
       /\ callAt DATA_XRPL_BASE_URL (lit "/v1/network/validator/" ++ key)
            None st
          = (Ok validator, st1)
       /\ callAt DATA_XRPL_BASE_URL
            (lit "/v1/network/validator/" ++ key ++ lit "/reports") None st1
          = (Ok reports, st2)
       /\ data_of out # "validator" = validator
       /\ data_of out # "recentReports"
          = JArr (last_n 30 (rows_of reports (lit "reports")))
       /\ List.length (last_n 30 (rows_of reports (lit "reports")))
          = Nat.min 30 (List.length (rows_of reports (lit "reports")))
       /\ (exists older,
             rows_of reports (lit "reports")
             = older ++ last_n 30 (rows_of reports (lit "reports")))
       /\ report_total "signed" "validations_signed"
            (last_n 30 (rows_of reports (lit "reports")))
          = Ok signed
       /\ report_total "missed" "validations_missed"
            (last_n 30 (rows_of reports (lit "reports")))
          = Ok missed
       /\ metrics # "validationsSigned" = JNum signed
       /\ metrics # "validationsMissed" = JNum missed
       /\ metrics # "uptimeScore" = json_of_num (uptimeScore signed missed)
       /\ (rows_of reports (lit "reports") = [] ->
           signed = 0%float /\ missed = 0%float
           /\ metrics # "uptimeScore" = JNull
           /\ payload_of out # "warnings"
              = JArr [JStr (lit "Validator report history is empty for this key.")])
       /\ (rows_of reports (lit "reports") <> [] ->
           last_n 30 (rows_of reports (lit "reports")) <> []
           /\ payload_of out # "warnings" = JArr []).
Proof.
  cbv zeta. unfold validator_health.
  destruct (handler_answer (validator_health_body pubkey_or_node window) st)
    as [Herr | (st' & Hrun)]; [left; exact Herr | right].
  revert Hrun.
  generalize
    (fst (handler (validator_health_body pubkey_or_node window) st)).
  intros out Hrun. unfold validator_health_body in Hrun.
  apply bind_Ok in Hrun as (key1 & st0 & K1 & Hrun).
  apply encoded_Ok in K1 as [K1 ->].
  apply bind_Ok in Hrun as (validator & st1 & E1 & Hrun).
  apply bind_Ok in Hrun as (key2 & st1' & K2 & Hrun).
  apply encoded_Ok in K2 as [K2 ->].
  assert (key2 = key1) by congruence. subst key2.
  apply bind_Ok in Hrun as (reports & st2 & E2 & Hrun).
  apply bind_Ok in Hrun as (signed & st3 & Es & Hrun).
  apply lift_Ok in Es as [Es ->].
  apply bind_Ok in Hrun as (missed & st4 & Em & Hrun).
  apply lift_Ok in Em as [Em ->].
  apply toToolEnvelope_Ok in Hrun as (srcs & t & ->).
  exists key1, validator, reports, st1, st2, signed, missed.
  split; [exact K1 |]. split; [exact E1 |]. split; [exact E2 |].
  split; [reflexivity |]. split; [reflexivity |].
  split; [apply last_n_min |]. split; [apply last_n_suffix |].
  split; [exact Es |]. split; [exact Em |].
  split; [reflexivity |]. split; [reflexivity |]. split; [reflexivity |].
  split.
  - intros E. rewrite E in *. cbn in Es, Em.
    apply Ok_inj in Es, Em. subst signed missed.
    repeat split; reflexivity.
  - intros Hne. split; [apply last_n_nonempty, Hne |].
    destruct (rows_of reports (lit "reports")); [contradiction | reflexivity].
Qed.

Lemma strict_eq_str_iff (a : json) (s : jsstring) :
  strict_eq_str a s = true <-> a = JStr s.
Proof. unused.
  unfold strict_eq_str, strict_neq_str.
  destruct a; try (split; discriminate).
  rewrite negb_involutive, jsstring_eqb_eq. split; congruence.
Qed.

Lemma strict_eq_str_nullish (a : json) (s : jsstring) :
  strict_eq_str (a ?? JNull) s = strict_eq_str a s.
Proof. unused. destruct a; reflexivity. Qed.

(** X16. The classification of [tx_explain] is a function of the
    transaction type of the canonical transaction: it is a transfer
    exactly for [Payment], a DEX trade exactly for [OfferCreate],
    [AMMSwap] and [OfferCancel]; a transfer is never a DEX trade nor
    AMM-related, and of the DEX trades only [AMMSwap] is AMM-related.
    The tokens listed under the classification are those listed under
    the related objects. *)
Theorem tx_explain_classification (tx_hash : jsstring) (st : state) :
  let out := fst (tx_explain tx_hash st) in
  let flags := data_of out # "classification" in
  let type := data_of out # "canonical" # "tx" # "TransactionType" in
  (exists message, out = ToolError message)
  \/ (data_of out # "txHash" = JStr tx_hash
      /\ flags # "tokensInvolved" = data_of out # "relatedObjects" # "tokens"
      /\ exists isDexTrade isTransfer isAmmRelated,
           flags # "isDexTrade" = JBool isDexTrade
           /\ flags # "isTransfer" = JBool isTransfer
           /\ flags # "isAmmRelated" = JBool isAmmRelated
           /\ (isTransfer = true <-> type = JStr (lit "Payment"))
           /\ (isDexTrade = true <->
               type = JStr (lit "OfferCreate") \/ type = JStr (lit "AMMSwap")
               \/ type = JStr (lit "OfferCancel"))
           /\ (isTransfer = true -> isDexTrade = false /\ isAmmRelated = false)
           /\ (isDexTrade = true ->
               (isAmmRelated = true <-> type = JStr (lit "AMMSwap")))).
Proof.
  cbv zeta. unfold tx_explain. by_payload.
  unfold tx_explain_body.
  apply yields_bind; intros losTx0.
  apply yields_bind; intros txRaw.
  apply yields_bind; intros tokensInvolved.
  apply yields_bind; intros affectedAccounts.
  apply yields_envelope. intros srcs t.
  split; [reflexivity |]. split; [reflexivity |].
  do 3 eexists.
  split; [reflexivity |]. split; [reflexivity |]. split; [reflexivity |].
  match goal with
  | |- context [strict_eq_str (?ty ?? JNull) (lit "Payment")] =>
      change (data_of _ # "canonical" # "tx" # "TransactionType") with ty;
      generalize ty
  end.
  intros type. rewrite !strict_eq_str_nullish.
  pose proof (strict_eq_str_iff type) as P.
  split; [apply P |].
  split; [rewrite !orb_true_iff, !P; apply or_assoc |].
  split.
  - intros H. apply P in H. subst type. split; reflexivity.
  - rewrite !orb_true_iff, !P.
    intros [[-> | ->] | ->]; split; try reflexivity; discriminate.
Qed.

(** X17. [market_snapshot] reports one quality figure twice: the best
    offer is the first offer of the order book that rippled answered
    with, and [spread] and [mid] are both its quality, [null] when there
    is no best offer.  Its trades are those of the indexing service's
    answer: [count] is their number and [sample] their first 20, in the
    order of the answer; without trades the price average is [null] and
    the one warning says so, and with trades there is no warning. *)
Theorem market_snapshot_orderbook (base quote options : json) (st : state) :
  let out := fst (market_snapshot base quote options st) in
  let orderbook := data_of out # "orderbook" in
  let recent := data_of out # "recentTrades" in
  (exists message, out = ToolError message)
  \/ exists bookRaw ammRaw losTrades st1 st2 st3,
       xrplRpc (lit "book_offers")
         (JArr [JObj [field "taker_gets" base; field "taker_pays" quote;
                      field "limit" (JNum 50)]]) st
       = (Ok bookRaw, st1)
       /\ soft (xrplRpc (lit "amm_info")
                  (JArr [JObj [field "asset" base; field "asset2" quote]]))
            st1
          = (Ok ammRaw, st2)
       /\ tryLos (lit "/transactions")
            (Some (DEX_TRADE_QUERY (num_option (options # "size") 200))) st2
          = (Ok losTrades, st3)
       /\ orderbook # "bestBidAskProxy"
          = first_or_null (xrplResultEnvelope bookRaw # "offers" ?? JArr [])
       /\ orderbook # "spread" = orderbook # "mid"
       /\ orderbook # "mid" = quality_of (orderbook # "bestBidAskProxy")
       /\ (orderbook # "bestBidAskProxy" = JNull -> orderbook # "mid" = JNull)
       /\ recent # "count"
          = JNum (num_of_nat
                    (List.length
                       (array_or_empty (losTrades # "transactions"))))
       /\ recent # "sample"
          = JArr (firstn 20 (array_or_empty (losTrades # "transactions")))
       /\ (array_or_empty (losTrades # "transactions") = [] ->
           recent # "vwap" = JNull
           /\ payload_of out # "warnings"
              = JArr [JStr (lit "No LOS trade samples returned for VWAP estimate.")])
       /\ (array_or_empty (losTrades # "transactions") <> [] ->
           payload_of out # "warnings" = JArr []).
Proof.
  cbv zeta. unfold market_snapshot.
  destruct (handler_answer (market_snapshot_body base quote options) st)
    as [Herr | (st' & Hrun)]; [left; exact Herr | right].
  apply market_snapshot_run in Hrun
    as (bookRaw & ammRaw & losTrades & st1 & st2 & st3 & v
        & E1 & E2 & E3 & Hv & D1 & D2 & D3 & D4 & D5 & D6 & D7).
  exists bookRaw, ammRaw, losTrades, st1, st2, st3.
  split; [exact E1 |]. split; [exact E2 |]. split; [exact E3 |].
  split; [exact D7 |]. split; [exact D4 |]. split; [exact D5 |].
  split; [intros E; rewrite D5, E; reflexivity |].
  split; [exact D2 |]. split; [exact D3 |].
  rewrite D1, D6. split.
  - intros E. rewrite E in Hv |- *. cbn in Hv. apply Ok_inj in Hv. subst v.
    split; reflexivity.
  - intros Hne.
    destruct (array_or_empty (losTrades # "transactions"));
      [contradiction | reflexivity].
Qed.

(** X18. When the currency cannot be normalized, [token_overview]
    answers with the fixed error about the 160-bit code and does nothing
    else: no upstream call is made and the clock is not read. *)
Theorem token_overview_rejects_currency (issuer currency : jsstring)
    (options : json) (st : state) :
  currencyTo160Hex currency = None ->
  token_overview issuer currency options st
  = (ToolError (lit "Unable to normalize currency to XRPL 160-bit code."),
     st).
Proof.
  intros H. unfold token_overview, token_overview_body,
    tokenIdFromIssuerCurrency.
  rewrite H. reflexivity.
Qed.

Lemma set_add_NoDup (x : jsstring) (l : list jsstring) :
  NoDup l -> NoDup (set_add x l).
Proof. unused.
  intros Hl. unfold set_add.
  destruct (existsb (jsstring_eqb x) l) eqn:E; [exact Hl |].
  apply NoDup_app; [exact Hl | repeat constructor; intros [] |].
  intros y Hy [<- | []].
  assert (existsb (jsstring_eqb x) l = true); [| congruence].
  apply existsb_exists. exists x. split; [exact Hy | apply jsstring_eqb_refl].
Qed.

Lemma addCurrency_NoDup (tokens : list jsstring) (amount : json) :
  NoDup tokens -> NoDup (addCurrency tokens amount).
Proof.
  intros H. unfold addCurrency.
  destruct (negb (truthy amount)); [exact H |].
  destruct amount; try (destruct (_ && _)); auto using set_add_NoDup.
Qed.

Lemma node_body_throws (node : json) :
  (exists e, node_body node = Throw e) <-> nullish node = true.
Proof.
  unfold node_body, member.
  destruct (nullish node); simpl.
  - split; [reflexivity | intros _; eexists; reflexivity].
  - split; [intros (e & H); discriminate | discriminate].
Qed.

Lemma rfold_throws {A B} (f : B -> A -> result B) (bad : A -> Prop)
    (l : list A) :
  (forall acc x, (exists e, f acc x = Throw e) <-> bad x) ->
  forall acc,
    (exists e, rfold f l acc = Throw e) <-> exists x, In x l /\ bad x.
Proof. unused.
  intros Hf. induction l as [| x l IH]; intros acc; simpl.
  - split; [intros (e & H); discriminate | intros (x & [] & _)].
  - destruct (f acc x) as [y | e] eqn:Ef; simpl.
    + rewrite IH. split.
      * intros (z & Hin & Hz). exists z. auto.
      * intros (z & [<- | Hin] & Hz); [| exists z; auto].
        apply (proj2 (Hf acc x)) in Hz. destruct Hz as (e & Hz).
        rewrite Ef in Hz. discriminate.
    + split; [| intros _; exists e; reflexivity].
      intros _. exists x. split; [left; reflexivity |].
      apply (Hf acc). exists e. exact Ef.
Qed.

Lemma addCurrency_token (tokens : list jsstring) (amount : json) :
  addCurrency tokens amount
  = match token_of amount with
    | Some token => set_add token tokens
    | None => tokens
    end.
Proof.
  unfold addCurrency, token_of.
  destruct amount as [| | b | n | [| c s] | items | props];
    cbn [truthy negb andb]; try reflexivity.
  - destruct b; reflexivity.
  - destruct (negb (PrimFloat.eqb n 0 || PrimFloat.is_nan n));
      reflexivity.
  - destruct (truthy (JObj props # "currency") && truthy (JObj props # "issuer"));
      reflexivity.
Qed.

Lemma first_occurrences_app (l1 l2 : list jsstring) :
  first_occurrences (l1 ++ l2)
  = fold_left (fun seen k => set_add k seen) l2 (first_occurrences l1).
Proof. unused. unfold first_occurrences. apply fold_left_app. Qed.

Lemma first_occurrences_NoDup (l : list jsstring) :
  NoDup (first_occurrences l).
Proof. unused.
  unfold first_occurrences.
  assert (G : forall l acc,
            NoDup acc -> NoDup (fold_left (fun seen k => set_add k seen) l acc)).
  { clear. intros l. induction l as [| x l IH]; intros acc H; cbn; auto.
    apply IH, set_add_NoDup, H. }
  apply G. constructor.
Qed.

Lemma extractTokensFromTx_tokens (tx meta : json) (tokens : list jsstring) :
  extractTokensFromTx tx meta = Ok tokens ->
  tokens = first_occurrences (tokens_named (amounts_of tx meta)).
Proof.
  unfold extractTokensFromTx. intros H.
  apply (rfold_ok_inv _
           (fun acc node =>
              addCurrency
                (addCurrency acc
                   (logical_or (node_fields node # "FinalFields") (JObj [])
                    # "Balance"))
                (logical_or (node_fields node # "NewFields") (JObj [])
                 # "Balance"))) in H.
  - subst tokens. unfold amounts_of, tokens_named.
    rewrite flat_map_app, first_occurrences_app.
    assert (E0 : addCurrency
                   (addCurrency
                      (addCurrency (addCurrency [] (tx # "Amount"))
                         (tx # "TakerGets")) (tx # "TakerPays"))
                   (meta # "delivered_amount")
                 = first_occurrences
                     (flat_map
                        (fun amount => match token_of amount with
                                       | Some token => [token]
                                       | None => []
                                       end)
                        [tx # "Amount"; tx # "TakerGets"; tx # "TakerPays";
                         meta # "delivered_amount"])).
    { rewrite !addCurrency_token. unfold first_occurrences.
      cbn [flat_map]. rewrite !fold_left_app.
      destruct (token_of (tx # "Amount")),
        (token_of (tx # "TakerGets")), (token_of (tx # "TakerPays")),
        (token_of (meta # "delivered_amount")); reflexivity. }
    rewrite <- E0. generalize (addCurrency
                   (addCurrency
                      (addCurrency (addCurrency [] (tx # "Amount"))
                         (tx # "TakerGets")) (tx # "TakerPays"))
                   (meta # "delivered_amount")).
    induction (array_or_empty (meta # "AffectedNodes")) as [| node nodes IH];
      intros acc; [reflexivity |].
    cbn [fold_left flat_map app]. rewrite IH, !addCurrency_token.
    destruct (token_of _), (token_of _); reflexivity.
  - intros acc node y. unfold node_body, member.
    destruct (nullish node); cbn [rbind]; [discriminate |].
    intros E. apply Ok_inj in E. symmetry. exact E.
Qed.

(** X19. [extractTokensFromTx] lists the tokens named by the amounts it
    looks at (the transaction's [Amount], [TakerGets] and [TakerPays],
    the delivered amount, and the final and new balances of every
    affected node), each token once, in the order in which it is first
    named.  On a transaction and metadata in which no object has an own
    [toString] member, it fails exactly when the affected nodes include
    a [null] or [undefined] entry. *)
Theorem extractTokensFromTx_distinct (tx meta : json) :
  (forall tokens,
      extractTokensFromTx tx meta = Ok tokens ->
      tokens = first_occurrences (tokens_named (amounts_of tx meta))
      /\ NoDup tokens)
  /\ (plain tx = true -> plain meta = true ->
      ((exists e, extractTokensFromTx tx meta = Throw e)
       <-> exists node,
             In node (array_or_empty (meta # "AffectedNodes"))
             /\ nullish node = true)).
Proof.
  split.
  - intros tokens H. apply extractTokensFromTx_tokens in H. subst tokens.
    split; [reflexivity | apply first_occurrences_NoDup].
  - intros _ _. unfold extractTokensFromTx.
    apply rfold_throws. intros acc node.
    rewrite <- node_body_throws.
    destruct (node_body node) as [body | e]; simpl.
    + split; intros (e & H); discriminate.
    + split; intros _; exists e; reflexivity.
Qed.

(* ================================================================= *)
(** ** Ranking of counterparties *)

Lemma insert_sorted_length {A} (after : A -> A -> bool) (x : A) (l : list A) :
  List.length (insert_sorted after x l) = S (List.length l).
Proof. unused.
  induction l as [| y l IH]; simpl; [reflexivity |].
  destruct (after x y); simpl; [rewrite IH |]; reflexivity.
Qed.

Lemma stable_sort_length {A} (after : A -> A -> bool) (l : list A) :
  List.length (stable_sort after l) = List.length l.
Proof. unused.
  unfold stable_sort. induction l as [| x l IH]; simpl; [reflexivity |].
  rewrite insert_sorted_length, IH. reflexivity.
Qed.

Lemma insert_sorted_keeps {A} (after : A -> A -> bool) (x y : A)
    (l : list A) :
  y = x \/ In y l -> In y (insert_sorted after x l).
Proof. unused.
  induction l as [| z l IH]; simpl.
  - intros [-> | []]. left. reflexivity.
  - destruct (after x z); simpl.
    + intros [-> | [<- | Hin]]; auto.
    + intros [-> | [<- | Hin]]; auto.
Qed.

Lemma stable_sort_keeps {A} (after : A -> A -> bool) (y : A) (l : list A) :
  In y l -> In y (stable_sort after l).
Proof. unused.
  unfold stable_sort. induction l as [| x l IH]; simpl; [auto |].
  intros [<- | Hin]; apply insert_sorted_keeps; auto.
Qed.

Lemma insert_sorted_ranked (x : json * nat) (l : list (json * nat)) :
  ranked l -> ranked (insert_sorted count_after x l).
Proof. unused.
  induction l as [| y l IH]; simpl; [auto |].
  intros [Hy Hl]. unfold count_after at 1.
  destruct (Nat.ltb_spec (snd x) (snd y)); simpl.
  - split; [| apply IH, Hl].
    apply Forall_forall. intros z Hz.
    apply insert_sorted_In in Hz as [-> | Hz]; [lia |].
    rewrite Forall_forall in Hy. apply Hy, Hz.
  - split; [| split; assumption].
    constructor; [assumption |].
    eapply Forall_impl; [| exact Hy]. simpl. intros z Hz. lia.
Qed.

Lemma stable_sort_ranked (l : list (json * nat)) :
  ranked (stable_sort count_after l).
Proof. unused.
  unfold stable_sort. induction l as [| x l IH]; simpl; [exact I |].
  apply insert_sorted_ranked, IH.
Qed.

Lemma ranked_app (a b : list (json * nat)) :
  ranked (a ++ b) ->
  ranked a /\ forall x y, In x a -> In y b -> (snd y <= snd x)%nat.
Proof. unused.
  induction a as [| z a IH]; simpl.
  - intros _. split; [exact I | intros x y []].
  - intros [Hz Hr]. destruct (IH Hr) as [Ha Hab].
    apply Forall_app in Hz as [Hza Hzb].
    split; [split; assumption |].
    intros x y [<- | Hx] Hy.
    + rewrite Forall_forall in Hzb. apply Hzb, Hy.
    + apply Hab; assumption.
Qed.

(** X20. The recent counterparties are the ten with the most
    interactions, in descending order: the report holds ten entries (all
    of them when there are fewer), each taken from the counts, none with
    more interactions than an entry before it, and every entry left out
    has no more interactions than any entry kept. *)
Theorem recent_counterparties_ranked (entries : list (json * nat)) :
  let top := recentCounterparties entries in
  List.length top = Nat.min 10 (List.length entries)
  /\ ranked top
  /\ (forall e, In e top -> In e entries)
  /\ (forall e,
        In e entries ->
        In e top \/ forall kept, In kept top -> (snd e <= snd kept)%nat).
Proof. unused.
  cbv zeta. unfold recentCounterparties.
  pose proof (stable_sort_ranked entries) as Hr.
  rewrite <- (firstn_skipn 10 (stable_sort count_after entries)) in Hr.
  apply ranked_app in Hr as [Htop Hrest].
  split; [rewrite length_firstn, stable_sort_length; reflexivity |].
  split; [exact Htop |].
  split.
  - intros e He. apply firstn_In in He. apply stable_sort_In in He. exact He.
  - intros e He. apply (stable_sort_keeps count_after) in He.
    rewrite <- (firstn_skipn 10 (stable_sort count_after entries)) in He.
    apply in_app_or in He as [He | He]; [left; exact He | right].
    intros kept Hk. apply Hrest; assumption.
Qed.

(* ================================================================= *)
(** ** Unwrapping of JSON-RPC answers *)

(** X21. [xrplResultEnvelope] always gives an object, so that reading a
    field of it never fails: the [result] member when that is an object
    or array, the payload itself when it is an object or array without
    such a member, and the empty object for anything else. *)
Theorem xrplResultEnvelope_object (payload : json) :
  is_object (xrplResultEnvelope payload) = true
  /\ (is_object (payload # "result") = true ->
      xrplResultEnvelope payload = payload # "result")
  /\ (is_object payload = true -> is_object (payload # "result") = false ->
      xrplResultEnvelope payload = payload)
  /\ (is_object payload = false -> xrplResultEnvelope payload = JObj []).
Proof. unused.
  unfold xrplResultEnvelope.
  destruct payload as [| | b | n | s | items | props];
    try (repeat split; simpl; intros; try reflexivity; discriminate).
  cbn [is_object negb has_key prop].
  destruct (lookup (lit "result") props) as [r |]; cbn [andb].
  - destruct (is_object r) eqn:Er.
    + assert (Ht : truthy r = true) by (destruct r; try discriminate; reflexivity).
      rewrite Ht. cbn [andb]. repeat split; auto; discriminate.
    + rewrite andb_false_r. repeat split; auto; discriminate.
  - repeat split; auto; discriminate.
Qed.

(* ================================================================= *)
(** ** Provenance and freshness of every answer *)

Lemma envelope_parts (d : json) (srcs : list json) (a : json) (t : jsstring)
    (w : list jsstring) :
  let j := envelope d srcs a t w in
  j # "data" = d
  /\ j # "sources" = JArr srcs
  /\ j # "freshness" # "asOfLedger" = a ?? JNull
  /\ j # "freshness" # "asOfTime" = JStr t
  /\ j # "warnings" = JArr (List.map JStr w).
Proof. unused. repeat split; reflexivity. Qed.

Lemma finite_toNum (v : json) : finite_or_absent (toNum v).
Proof.
  intros n. unfold toNum.
  destruct (PrimFloat.is_finite (Number v)) eqn:E; [| discriminate].
  intros H. apply some_inj in H. subst n. exact E.
Qed.

Lemma finite_num_or (a b : option float) :
  finite_or_absent a -> finite_or_absent b -> finite_or_absent (num_or a b).
Proof. unused.
  intros Ha Hb. destruct a; simpl; [exact Ha | exact Hb].
Qed.

Lemma stamp_of_num (o : option float) :
  finite_or_absent o -> ledger_stamp (json_of_num o ?? JNull).
Proof. unused.
  intros H. destruct o as [n |]; [right | left; reflexivity].
  exists n. split; [reflexivity | apply H; reflexivity].
Qed.

Lemma stamp_undefined : ledger_stamp (JUndefined ?? JNull).
Proof. unused. left. reflexivity. Qed.

Lemma quiet_sources_of_length (l : list (string * string)) :
  quiet (sources_of l) (fun xs => List.length xs = List.length l).
Proof.
  induction l as [| [system method] l IH]; simpl.
  - apply quiet_ret. reflexivity.
  - unfold source.
    apply (quiet_bind _ _ (fun _ => True)).
    + apply (quiet_bind _ _ (fun _ => True)); [apply quiet_nowIso |].
      intros; apply quiet_ret; exact I.
    + intros x _. apply (quiet_bind _ _ _ _ IH).
      intros xs Hxs. apply quiet_ret. simpl. congruence.
Qed.

Lemma yields_stamped (d : json) (l : list (string * string)) (a : json)
    (w : list jsstring) :
  ledger_stamp (a ?? JNull) -> l <> [] ->
  yields (toToolEnvelope d l a w) stamped.
Proof.
  intros Ha Hl. apply quiet_yields. unfold toToolEnvelope.
  apply (quiet_bind _ _ _ _ (quiet_sources_of_length l)).
  intros srcs Hs.
  apply (quiet_bind _ _ (fun _ => True)); [apply quiet_nowIso |].
  intros t _. apply quiet_ret.
  unfold stamped, toolResult.
  destruct (envelope_parts d srcs a t w) as (_ & E1 & E2 & E3 & E4).
  rewrite E1, E2, E3, E4.
  split; [exact Ha |]. split; [exists t; reflexivity |].
  split; [| exists w; reflexivity].
  exists srcs. split; [reflexivity |].
  destruct srcs; [| discriminate]. destruct l; [contradiction | discriminate].
Qed.

Lemma yields_stamped_error (text : jsstring) :
  yields (ret (toolError_str text)) stamped.
Proof. intros st. exact I. Qed.

Ltac stamp :=
  repeat first
    [ apply yields_stamped_error
    | apply yields_stamped;
        [first [apply stamp_undefined
               | apply stamp_of_num;
                 repeat first [apply finite_toNum | apply finite_num_or]]
        | discriminate]
    | apply yields_bind; intros
    | match goal with
      | |- yields (match ?x with _ => _ end) _ => destruct x
      | |- yields (let (_, _) := ?x in _) _ => destruct x
      end ].

Lemma stamped_body (c : composite_call) : yields (body_of c) stamped.
Proof.
  destruct c; cbn [body_of].
  - unfold network_overview_body. stamp.
  - unfold ledger_summary_body. stamp.
  - unfold tx_explain_body. stamp.
  - unfold account_overview_body. stamp.
  - unfold token_overview_body. stamp.
  - unfold market_snapshot_body. stamp.
  - unfold amm_overview_body. stamp.
  - unfold validator_set_overview_body. stamp.
  - unfold validator_health_body. stamp.
  - unfold amendment_status_body. stamp.
  - unfold search_transactions_body. stamp.
  - unfold resolve_entities_body. stamp.
Qed.

(** X22. Every answer of a composite tool that is not an error carries
    its provenance and freshness in full: [asOfLedger] is [null] or a
    finite number and never left undefined, [asOfTime] is a string,
    [sources] is a non-empty array, and [warnings] is an array of
    strings. *)
Theorem composite_answers_stamped (c : composite_call) (st : state) :
  stamped (fst (invoke c st)).
Proof.
  unfold invoke, handler. pose proof (stamped_body c st) as H.
  destruct (body_of c st) as [[out | [message]] st']; simpl in *;
    [exact H | exact I].
Qed.

(* ================================================================= *)
(** ** Further reports *)

(** X23. [ledger_summary] stamps its answer with the ledger index it
    reports, lists at most five representative transactions, and warns
    exactly when no LOS artifact was obtained. *)
Theorem ledger_summary_artifacts (ledger_index ledger_hash : json)
    (st : state) :
  let out := fst (ledger_summary ledger_index ledger_hash st) in
  (exists message, out = ToolError message)
  \/ (payload_of out # "freshness" # "asOfLedger"
      = data_of out # "ledgerIndex"
      /\ (exists hashes,
            data_of out # "representativeTxHashes" = JArr hashes
            /\ (List.length hashes <= 5)%nat)
      /\ (truthy (data_of out # "losArtifacts") = true ->
          payload_of out # "warnings" = JArr [])
      /\ (truthy (data_of out # "losArtifacts") = false ->
          payload_of out # "warnings"
          = JArr [JStr (lit "No LOS artifact endpoint matched /ledger/{index|hash}.")])).
Proof.
  cbv zeta. unfold ledger_summary. by_payload.
  unfold ledger_summary_body.
  apply yields_bind; intros ledgerRaw.
  apply yields_bind; intros losArtifacts.
  apply yields_envelope. intros srcs t.
  cbn [data_of payload_of].
  match goal with
  | |- context [envelope ?d ?s ?a ?t ?w] =>
      destruct (envelope_parts d s a t w) as (E0 & _ & E2 & _ & E4)
  end.
  rewrite E0, E2, E4. clear E0 E2 E4.
  match goal with
  | |- context [json_of_num ?v ?? JNull] => generalize v
  end.
  intros canonicalIndex.
  split; [destruct canonicalIndex; reflexivity |].
  split; [eexists; split; [reflexivity | apply firstn_le_length] |].
  change (JObj _ # "losArtifacts") with losArtifacts.
  split; intros ->; reflexivity.
Qed.

Lemma first_number_complete (value : json) (keys : list jsstring)
    (key : jsstring) :
  In key keys -> has_key key value = true ->
  toNum (prop value key) <> None ->
  first_number value keys <> None.
Proof.
  induction keys as [| k keys IH]; simpl; [intros [] |].
  intros [-> | Hin] Hk Hn.
  - rewrite Hk. destruct (toNum (prop value key)); [discriminate |].
    contradiction.
  - destruct (has_key k value); [| auto].
    destruct (toNum (prop value k)); [discriminate | auto].
Qed.

Lemma first_some_complete {A B} (f : A -> option B) (l : list A) (x : A) :
  In x l -> f x <> None -> first_some f l <> None.
Proof. unused.
  induction l as [| y l IH]; simpl; [intros [] |].
  intros [-> | Hin] Hx.
  - destruct (f x); [discriminate | contradiction].
  - destruct (f y); [discriminate | auto].
Qed.

Lemma Object_values_object (v child : json) :
  In child (Object_values v) -> is_object v = true.
Proof. unused. destruct v; simpl; try intros []; reflexivity. Qed.

(** X24. The search for a latest indexed ledger misses nothing: on a
    payload in which no object has an own [toString] member it returns a
    number exactly when some object reachable from the payload, at any
    depth, has one of the aliases with a finite numeric value; and on a
    value that is neither an object nor an array it returns nothing. *)
Theorem pickFirstNumber_finds_any (value : json) :
  (is_object value = false -> pickFirstNumber value LEDGER_ALIASES = None)
  /\ (plain value = true ->
      (pickFirstNumber value LEDGER_ALIASES <> None
       <-> exists d holder key,
             nested_at d holder value /\ In key LEDGER_ALIASES
             /\ has_key key holder = true
             /\ toNum (prop holder key) <> None)).
Proof.
  split.
  - intros H. rewrite pickFirstNumber_eq, H. reflexivity.
  - intros _. split.
    + destruct (pickFirstNumber value LEDGER_ALIASES) as [n |] eqn:E;
        [| intros H; contradiction].
      intros _.
      apply pickFirstNumber_sound in E as (d & holder & key & H1 & H2 & H3 & H4).
      exists d, holder, key. rewrite H4.
      repeat split; auto; discriminate.
    + intros (d & holder & key & Hn & Hin & Hk & Ht).
      induction Hn as [v | d holder child v Hc Ho Hn IH].
      * rewrite pickFirstNumber_eq.
        assert (Hv : is_object v = true)
          by (destruct v; try discriminate; reflexivity).
        rewrite Hv.
        pose proof (first_number_complete v LEDGER_ALIASES key Hin Hk Ht)
          as Hf.
        destruct (first_number v LEDGER_ALIASES);
          [discriminate | contradiction].
      * rewrite pickFirstNumber_eq, (Object_values_object _ _ Hc).
        destruct (first_number v LEDGER_ALIASES); [discriminate |].
        apply (first_some_complete _ _ child Hc).
        rewrite Ho. apply IH; assumption.
Qed.

Lemma histogram_total_map_bump (key : json) (m : list (json * nat)) :
  histogram_total (map_bump key m) = S (histogram_total m).
Proof. unused.
  induction m as [| [k n] m IH]; simpl; [reflexivity |].
  destruct (same_value_zero k key); simpl; [reflexivity | rewrite IH; lia].
Qed.

Lemma activity_step_counts (account : jsstring) (acc next : activity)
    (row : json) :
  activity_step account acc row = Ok next ->
  txTypeHistogram next = bump (activity_type_of row) (txTypeHistogram acc)
  /\ histogram_total (counterparties next)
     = ((if interacts account row then 1 else 0)
        + histogram_total (counterparties acc))%nat.
Proof.
  unfold activity_step, member, activity_type_of, interacts, counterparty_of.
  destruct (nullish row); cbn [rbind]; [discriminate |].
  intros E. apply Ok_inj in E. subst next.
  cbn [txTypeHistogram counterparties].
  split; [reflexivity |].
  destruct (_ && _); [rewrite histogram_total_map_bump |]; lia.
Qed.

Lemma recent_activity_folds (account : jsstring) (rows : list json)
    (acc act : activity) :
  rfold (activity_step account) rows acc = Ok act ->
  txTypeHistogram act
  = fold_left (fun h key => bump key h) (List.map activity_type_of rows)
      (txTypeHistogram acc)
  /\ histogram_total (counterparties act)
     = (List.length (filter (interacts account) rows)
        + histogram_total (counterparties acc))%nat.
Proof.
  revert acc. induction rows as [| row rows IH]; intros acc; simpl.
  - intros E. apply Ok_inj in E. subst. split; reflexivity.
  - destruct (activity_step account acc row) as [next |] eqn:Es;
      cbn [rbind]; [| discriminate].
    intros E. destruct (IH _ E) as [H1 H2].
    destruct (activity_step_counts _ _ _ _ Es) as [S1 S2].
    rewrite H1, H2, S1, S2. split; [reflexivity |].
    destruct (interacts account row); cbn [List.length]; lia.
Qed.

(** X25. The recent activity of [account_overview] counts every
    transaction once.  On a list of transactions in which no object has
    an own [toString] member, the counterparty interactions number the
    transactions that name a counterparty other than the account, so no
    more than the transactions visited; and when no transaction type is
    a member name inherited from [Object.prototype] or a string of
    digits, the type histogram is the histogram of the transactions'
    types: one key per distinct type, in the order of first occurrence,
    each with the number of transactions of that type, the counts adding
    up to the number of transactions. *)
Theorem recent_activity_counts (account : jsstring) (txs : json)
    (act : activity) :
  recent_activity account txs = Ok act ->
  plain txs = true ->
  exists rows,
    iterate txs = Ok rows
    /\ histogram_total (counterparties act)
       = List.length (filter (interacts account) rows)
    /\ (histogram_total (counterparties act) <= List.length rows)%nat
    /\ (Forall (fun row => ordinary_key (activity_type_of row) = true) rows ->
        histogram_of (List.map activity_type_of rows) (txTypeHistogram act)).
Proof.
  unfold recent_activity.
  destruct (iterate txs) as [rows | e]; simpl; [| discriminate].
  intros H _. exists rows. split; [reflexivity |].
  destruct (recent_activity_folds _ _ _ _ H) as [H1 H2].
  cbn [txTypeHistogram counterparties histogram_total] in H1, H2.
  assert (H3 : histogram_total (counterparties act)
               = List.length (filter (interacts account) rows)).
  { rewrite H2. unfold histogram_total. cbn. lia. }
  split; [exact H3 |]. split.
  - rewrite H3. apply filter_length_le.
  - intros _. rewrite H1. apply histogram_of_counting.
Qed.

Lemma rmap_throws {A B} (f : A -> result B) (l : list A) :
  (exists e, rmap f l = Throw e) <-> exists x, In x l /\ exists e, f x = Throw e.
Proof. unused.
  induction l as [| x l IH]; simpl.
  - split; [intros (e & H); discriminate | intros (x & [] & _)].
  - destruct (f x) as [y | e] eqn:Ef; simpl.
    + destruct (rmap f l) as [ys | e'] eqn:El; simpl.
      * split; [intros (e & H); discriminate |].
        intros (z & [<- | Hin] & e & Hz); [congruence |].
        destruct (proj2 IH) as (e0 & H0); [| discriminate].
        exists z. split; [exact Hin | exists e; exact Hz].
      * split; [| intros _; exists e'; reflexivity].
        intros _. destruct (proj1 IH) as (z & Hin & Hz);
          [exists e'; reflexivity |].
        exists z. auto.
    + split; [| intros _; exists e; reflexivity].
      intros _. exists x. split; [left; reflexivity | exists e; exact Ef].
Qed.

Lemma rmap_length {A B} (f : A -> result B) (l : list A) (ys : list B) :
  rmap f l = Ok ys -> List.length ys = List.length l.
Proof. unused.
  revert ys. induction l as [| x l IH]; intros ys; simpl.
  - intros E. apply Ok_inj in E. subst. reflexivity.
  - destruct (f x) as [y |]; simpl; [| discriminate].
    destruct (rmap f l) as [ys' |]; simpl; [| discriminate].
    intros E. apply Ok_inj in E. subst. simpl. rewrite (IH ys' eq_refl).
    reflexivity.
Qed.

Lemma rmap_ok_map {A B} (f : A -> result B) (g : A -> B) (l : list A)
    (ys : list B) :
  (forall x y, f x = Ok y -> y = g x) ->
  rmap f l = Ok ys -> ys = List.map g l.
Proof. unused.
  intros Hfg. revert ys. induction l as [| x l IH]; intros ys; simpl.
  - intros E. apply Ok_inj in E. subst. reflexivity.
  - destruct (f x) as [y |] eqn:Ef; simpl; [| discriminate].
    destruct (rmap f l) as [ys' |]; simpl; [| discriminate].
    intros E. apply Ok_inj in E. subst.
    rewrite (Hfg _ _ Ef), (IH ys' eq_refl). reflexivity.
Qed.

Lemma insert_sorted_Permutation {A} (after : A -> A -> bool) (x : A)
    (l : list A) :
  Permutation (insert_sorted after x l) (x :: l).
Proof. unused.
  induction l as [| y l IH]; simpl; [apply Permutation_refl |].
  destruct (after x y); [| apply Permutation_refl].
  apply perm_trans with (y :: x :: l);
    [apply perm_skip, IH | apply perm_swap].
Qed.

Lemma stable_sort_Permutation {A} (after : A -> A -> bool) (l : list A) :
  Permutation (stable_sort after l) l.
Proof. unused.
  unfold stable_sort. induction l as [| x l IH]; simpl; [constructor |].
  apply perm_trans with (x :: fold_right (insert_sorted after) [] l);
    [apply insert_sorted_Permutation | apply perm_skip, IH].
Qed.

Lemma insert_sorted_arranged {A} (after : A -> A -> bool) (x : A)
    (l : list A) :
  (forall a b, after a b = true -> after b a = false) ->
  arranged after l -> arranged after (insert_sorted after x l).
Proof. unused.
  intros Hasym. induction l as [| a l IH]; intros H.
  - simpl. auto.
  - cbn [insert_sorted]. destruct (after x a) eqn:E.
    + destruct H as [Hh Ht]. split; [| apply IH, Ht].
      destruct l as [| b l']; cbn [insert_sorted].
      * apply Hasym, E.
      * destruct (after x b); [exact Hh | apply Hasym, E].
    + split; [exact E | exact H].
Qed.

Lemma stable_sort_arranged {A} (after : A -> A -> bool) (l : list A) :
  (forall a b, after a b = true -> after b a = false) ->
  arranged after (stable_sort after l).
Proof. unused.
  intros Hasym. unfold stable_sort.
  induction l as [| x l IH]; simpl; [exact I |].
  apply insert_sorted_arranged; assumption.
Qed.

(** The sign of a rounded number is the sign of the number. *)
Lemma binary_round_aux_sign (prec emax : Z) (sx : bool) (m e : Z)
    (l : SpecFloat.location) :
  SFltb (S754_zero false) (binary_round_aux prec emax sx m e l) = true ->
  sx = false.
Proof. unused.
  unfold binary_round_aux.
  destruct (shr_fexp prec emax m e l) as [mrs' e'].
  destruct (shr_fexp prec emax _ _ _) as [mrs'' e''].
  destruct (shr_m mrs''); simpl.
  - destruct sx; unfold SFltb, SFcompare; simpl; try discriminate; auto.
  - destruct (e'' <=? emax - prec)%Z; unfold SFltb, SFcompare;
      destruct sx; simpl; try discriminate; auto.
  - unfold SFltb; simpl. discriminate.
Qed.

Lemma binary_normalize_sign (prec emax m e : Z) (s : bool) :
  SFltb (S754_zero false) (binary_normalize prec emax m e s) = true ->
  (0 < m)%Z.
Proof. unused.
  unfold binary_normalize. destruct m as [| p | p].
  - unfold SFltb; simpl. discriminate.
  - lia.
  - unfold binary_round. destruct (shl_align p e _) as [mz ez].
    intros H. apply binary_round_aux_sign in H. discriminate.
Qed.

Lemma SFsub_asym (prec emax : Z) (x y : spec_float) :
  SFltb (S754_zero false) (SFsub prec emax y x) = true ->
  SFltb (S754_zero false) (SFsub prec emax x y) = false.
Proof. unused.
  destruct x as [sx | sx | | sx mx ex], y as [sy | sy | | sy my ey].
  16: {
    unfold SFsub. cbv zeta. intros H. apply binary_normalize_sign in H.
    change IntDef.Z.min with Z.min in *.
    rewrite (Z.min_comm ex ey).
    match goal with
    | |- SFltb _ ?z = false =>
        destruct (SFltb (S754_zero false) z) eqn:E; [| reflexivity]
    end.
    apply binary_normalize_sign in E. lia. }
  all: try (destruct sx); try (destruct sy); cbn;
    try discriminate; try reflexivity.
Qed.

(** The comparator [(a, b) => b - a] never puts each of two numbers
    after the other. *)
Lemma sub_positive_asym (x y : float) :
  (0 <? y - x)%float = true -> (0 <? x - y)%float = false.
Proof. unused. rewrite !ltb_spec, !sub_spec. apply SFsub_asym. Qed.

Lemma arranged_map {A B} (after : A -> A -> bool) (after' : B -> B -> bool)
    (f : A -> B) (l : list A) :
  (forall a b, In a l -> In b l -> after' (f a) (f b) = after a b) ->
  arranged after l -> arranged after' (List.map f l).
Proof. unused.
  induction l as [| a l IH]; intros Hf H; simpl; [exact I |].
  destruct H as [Hh Ht]. split.
  - destruct l as [| b l']; simpl; [exact I |].
    rewrite Hf; [exact Hh | left; reflexivity | right; left; reflexivity].
  - apply IH; [| exact Ht]. intros x y Hx Hy. apply Hf; right; assumption.
Qed.

Lemma line_summary_weighs (line : json) (y : float * json) :
  line_summary line = Ok y -> y = weighed line.
Proof.
  unfold line_summary, member, weighed, line_summary_of.
  destruct (nullish line); cbn [rbind]; [discriminate |].
  intros E. apply Ok_inj in E. symmetry. exact E.
Qed.

Lemma line_summary_throws (line : json) :
  (exists e, line_summary line = Throw e) <-> nullish line = true.
Proof.
  unfold line_summary, member.
  destruct (nullish line); simpl.
  - split; [reflexivity | intros _; eexists; reflexivity].
  - split; [intros (e & H); discriminate | discriminate].
Qed.

(** X26. The top tokens of [account_overview] are the summaries of five
    trust lines (of all of them when there are fewer): the summaries,
    these first and the others after them, are those of the trust
    lines, each line once; and when no balance reads as [NaN], they come
    in the order of the comparator
    [(a, b) => b.absBalance - a.absBalance], which puts no summary after
    its successor.  Computing them fails whenever the trust lines
    include a [null] or [undefined] entry, and, on trust lines in which
    no object has an own [toString] member, only then. *)
Theorem topTokens_at_most_five (lines : json) :
  (forall rows,
      topTokensByAbsBalance lines = Ok rows ->
      List.length rows = Nat.min 5 (List.length (array_or_empty lines))
      /\ exists others,
           Permutation (rows ++ others)
             (List.map line_summary_of (array_or_empty lines))
           /\ (Forall (fun line =>
                         PrimFloat.is_nan (Number (line # "balance")) = false)
                 (array_or_empty lines) ->
               descending (rows ++ others)))
  /\ ((exists line, In line (array_or_empty lines) /\ nullish line = true) ->
      exists e, topTokensByAbsBalance lines = Throw e)
  /\ (plain lines = true ->
      (exists e, topTokensByAbsBalance lines = Throw e) ->
      exists line, In line (array_or_empty lines) /\ nullish line = true).
Proof.
  unfold topTokensByAbsBalance. split; [| split].
  - intros rows.
    destruct (rmap line_summary (array_or_empty lines)) as [ys |] eqn:E;
      cbn [rbind]; [| discriminate].
    intros H. apply Ok_inj in H. subst rows.
    split.
    { rewrite length_firstn, length_map, stable_sort_length.
      rewrite (rmap_length _ _ _ E). reflexivity. }
    apply (rmap_ok_map _ weighed _ _ line_summary_weighs) in E. subst ys.
    exists (skipn 5 (List.map snd
                       (stable_sort abs_after
                          (List.map weighed (array_or_empty lines))))).
    rewrite firstn_skipn. split.
    + replace (List.map line_summary_of (array_or_empty lines))
        with (List.map snd (List.map weighed (array_or_empty lines)))
        by (rewrite map_map; reflexivity).
      apply Permutation_map, stable_sort_Permutation.
    + intros _. unfold descending.
      apply (arranged_map abs_after).
      * intros a b Ha Hb.
        apply stable_sort_In, in_map_iff in Ha as (la & <- & _).
        apply stable_sort_In, in_map_iff in Hb as (lb & <- & _).
        reflexivity.
      * apply stable_sort_arranged. intros a b. unfold abs_after.
        apply sub_positive_asym.
  - intros (line & Hin & Hn).
    destruct (proj2 (rmap_throws line_summary (array_or_empty lines)))
      as (e & He).
    { exists line. split; [exact Hin | apply line_summary_throws, Hn]. }
    exists e. rewrite He. reflexivity.
  - intros _ (e & He).
    destruct (rmap line_summary (array_or_empty lines)) as [ys | e'] eqn:E;
      cbn [rbind] in He; [discriminate |].
    destruct (proj1 (rmap_throws line_summary (array_or_empty lines)))
      as (line & Hin & Hz); [exists e'; exact E |].
    exists line. split; [exact Hin | apply line_summary_throws, Hz].
Qed.

(** X27. In [tx_explain] the list of affected accounts is computed from
    the same affected nodes as the list of tokens.  Collecting the
    affected accounts fails exactly when the affected nodes include a
    [null] or [undefined] entry, and then extracting the tokens fails
    too; conversely, on a transaction and metadata in which no object
    has an own [toString] member, whenever extracting the tokens fails,
    so does collecting the affected accounts. *)
Theorem affected_accounts_fail_with_tokens
    (tx meta sender destination : json) :
  ((exists e, affected_accounts meta sender destination = Throw e)
   <-> exists node,
         In node (array_or_empty (meta # "AffectedNodes"))
         /\ nullish node = true)
  /\ ((exists e, affected_accounts meta sender destination = Throw e) ->
      exists e, extractTokensFromTx tx meta = Throw e)
  /\ (plain tx = true -> plain meta = true ->
      (exists e, extractTokensFromTx tx meta = Throw e) ->
      exists e, affected_accounts meta sender destination = Throw e).
Proof.
  assert (Hn : forall A (f : A -> json -> json -> A) acc node,
            (exists e,
               rbind (node_body node) (fun n => Ok (f acc node n)) = Throw e)
            <-> nullish node = true).
  { intros A f acc node. rewrite <- node_body_throws.
    destruct (node_body node) as [body | e]; simpl.
    - split; intros (e & H); discriminate.
    - split; intros _; exists e; reflexivity. }
  assert (Ha : (exists e, affected_accounts meta sender destination = Throw e)
               <-> exists node,
                     In node (array_or_empty (meta # "AffectedNodes"))
                     /\ nullish node = true).
  { unfold affected_accounts.
    rewrite <- (rfold_throws _ (fun node => nullish node = true) _
                  (fun acc node =>
                     Hn _ (fun accounts _ n =>
                             add_if_truthy
                               (logical_or (n # "NewFields") (JObj [])
                                # "Account")
                               (add_if_truthy
                                  (logical_or (n # "FinalFields") (JObj [])
                                   # "Account") accounts)) acc node) []).
    destruct (rfold _ _ _) as [accounts | e]; simpl.
    - split; intros (e & H); discriminate.
    - split; intros _; exists e; reflexivity. }
  assert (Ht : (exists e, extractTokensFromTx tx meta = Throw e)
               <-> exists node,
                     In node (array_or_empty (meta # "AffectedNodes"))
                     /\ nullish node = true).
  { unfold extractTokensFromTx.
    apply rfold_throws. intros acc node.
    apply (Hn _ (fun tokens _ body =>
                   addCurrency
                     (addCurrency tokens
                        (logical_or (body # "FinalFields") (JObj [])
                         # "Balance"))
                     (logical_or (body # "NewFields") (JObj []) # "Balance"))). }
  split; [exact Ha |]. split.
  - intros H. apply Ht, Ha, H.
  - intros _ _ H. apply Ha, Ht, H.
Qed.

(* ================================================================= *)
(** ** The method list and the HTTP listener *)

Lemma distinct_NoDup (l : list jsstring) : distinct l = true -> NoDup l.
Proof. unused.
  induction l as [| x l IH]; simpl; [constructor |].
  intros H. apply andb_true_iff in H as [Hx Hl].
  constructor; [| apply IH, Hl].
  intros Hin. apply negb_true_iff in Hx.
  assert (existsb (jsstring_eqb x) l = true); [| congruence].
  apply existsb_exists. exists x. split; [exact Hin | apply jsstring_eqb_refl].
Qed.

(** X28. The methods that [xrpl_list_recommended_methods] lists are
    exactly the methods of the dedicated JSON-RPC tools, one entry per
    tool and in the order of their registration, with no method listed
    twice; the tool answers with that list whatever the state, makes no
    upstream call and cannot fail. *)
Theorem recommended_methods_are_dedicated_tools :
  RECOMMENDED_METHODS = List.map rpc_method rpc_tools
  /\ (forall t : rpc_tool, In t rpc_tools)
  /\ (forall m, In m RECOMMENDED_METHODS <-> exists t, rpc_method t = m)
  /\ NoDup RECOMMENDED_METHODS
  /\ forall st,
       xrpl_list_recommended_methods st
       = (ToolResult
            (JObj [field "methods"
                     (JArr (List.map JStr (List.map rpc_method rpc_tools)))]),
          st).
Proof.
  assert (All : forall t : rpc_tool, In t rpc_tools).
  { intros t. destruct t; simpl; auto 20. }
  split; [reflexivity |]. split; [exact All |].
  split; [| split; [apply distinct_NoDup; vm_compute; reflexivity |
                    intros st; reflexivity]].
  intros m. change RECOMMENDED_METHODS with (List.map rpc_method rpc_tools).
  rewrite in_map_iff. split.
  - intros (t & E & _). exists t. exact E.
  - intros (t & E). exists t. split; [exact E | apply All].
Qed.

(** X29. The HTTP request listener answers [/health] itself with status
    200 and the configured endpoint, whatever the MCP path is; answers
    every other path that is not the MCP path with status 404; and hands
    a request to the MCP transport only on the MCP path.  The only
    statuses it writes itself are 200, 404 and 500, the last one only
    when the transport failed before sending headers, with the failure's
    message.  When the MCP path is configured as [/health], no request
    reaches the transport. *)
Theorem http_listener_routes (req_url : option jsstring)
    (handleRequest : transport_outcome) :
  let pathname := request_pathname req_url in
  let reply := request_listener req_url handleRequest in
  (pathname = lit "/health" ->
   exists body,
     reply = WriteJson 200 body
     /\ body # "ok" = JBool true
     /\ body # "endpoint" = JStr MCP_HTTP_PATH)
  /\ (pathname <> lit "/health" -> pathname <> MCP_HTTP_PATH ->
      exists body, reply = WriteJson 404 body)
  /\ (reply = LeftToTransport ->
      pathname = MCP_HTTP_PATH /\ pathname <> lit "/health"
      /\ (transport_error handleRequest = None
          \/ headersSent handleRequest = true))
  /\ (forall code body,
        reply = WriteJson code body ->
        code = 200%N \/ code = 404%N
        \/ (code = 500%N
            /\ exists message,
                 transport_error handleRequest = Some (JsError message)
                 /\ headersSent handleRequest = false
                 /\ body # "message" = JStr message))
  /\ (MCP_HTTP_PATH = lit "/health" -> reply <> LeftToTransport).
Proof.
  cbv zeta. unfold request_listener.
  destruct (jsstring_eqb (request_pathname req_url) (lit "/health")) eqn:Eh.
  - apply jsstring_eqb_eq in Eh.
    split; [intros _; eexists; split; [reflexivity | split; reflexivity] |].
    split; [intros H; contradiction |].
    split; [discriminate |].
    split; [| intros _; discriminate].
    intros code body E. injection E as <- _. left. reflexivity.
  - assert (Hh : request_pathname req_url <> lit "/health").
    { intros E. apply jsstring_eqb_eq in E. congruence. }
    split; [intros H; contradiction |].
    destruct (jsstring_eqb (request_pathname req_url) MCP_HTTP_PATH) eqn:Em;
      cbn [negb].
    + apply jsstring_eqb_eq in Em.
      split; [intros _ H; contradiction |].
      destruct handleRequest as [[[message] |] sent];
        cbn [transport_error headersSent].
      * destruct sent; cbn [negb].
        -- split; [intros _; auto |].
           split; [discriminate | intros E _; congruence].
        -- split; [discriminate |].
           split; [| intros _; discriminate].
           intros code body E. injection E as <- <-. right; right.
           split; [reflexivity |]. exists message. auto.
      * split; [intros _; auto |].
        split; [discriminate | intros E _; congruence].
    + split; [intros _ _; eexists; reflexivity |].
      split; [discriminate |].
      split; [| intros _; discriminate].
      intros code body E. injection E as <- _. right; left. reflexivity.
Qed.

(** X30. Without a network argument [amendment_status] asks for no vote:
    when the argument is absent or the empty string it completes at most
    two upstream calls, and an answer that is not an error reports [null]
    as the voting status. *)
Theorem amendment_status_votes_on_request (network : json) (st : state) :
  truthy network = false ->
  let out := fst (amendment_status network st) in
  (exists evs,
     trace (snd (amendment_status network st)) = trace st ++ evs
     /\ (List.length evs <= 2)%nat)
  /\ ((exists message, out = ToolError message)
      \/ data_of out # "votingStatus" = JNull).
Proof.
  intros Hn. cbv zeta. split.
  - assert (H : calls_at_most 2 (amendment_status_body network)).
    { unfold amendment_status_body. rewrite Hn. tally. }
    unfold amendment_status, handler.
    destruct (H st) as (evs & E & L).
    destruct (amendment_status_body network st) as [[out | error] st'];
      simpl in *; exists evs; auto.
  - unfold amendment_status. by_payload.
    unfold amendment_status_body. rewrite Hn.
    apply yields_bind; intros vhInfo.
    apply (yields_bind_post _ _ (fun votes => votes = JNull)).
    { intros st0. reflexivity. }
    intros votes ->.
    apply yields_bind; intros serverInfo.
    apply yields_envelope. intros srcs t. reflexivity.
Qed.

End Gateway.

(* ================================================================= *)
(** ** A sample platform

    Enough of each built-in to run the handlers against sample worlds.
    The theorems above hold for every platform; the runs below are at
    this one. *)

Module Sample.

(** Decimal digit strings; the empty string is [0] and any other string
    is [NaN]. *)
Fixpoint digits_to_number (s : jsstring) (acc : float) : float :=
  match s with
  | [] => acc
  | c :: s' =>
      if is_digit c
      then digits_to_number s' (acc * 10 + num_of_N (c - 48))%float
      else PrimFloat.nan
  end.

Definition StringToNumber (s : jsstring) : float := digits_to_number s 0%float.

Definition decimal (n : N) : jsstring :=
  lit (NilZero.string_of_uint (N.to_uint n)).

(** Integers are rendered in decimal; other finite numbers are not
    rendered by this sample. *)
Definition NumberToString (n : float) : jsstring :=
  match Prim2SF n with
  | S754_zero _ => lit "0"
  | S754_nan => lit "NaN"
  | S754_infinity s => if s then lit "-Infinity" else lit "Infinity"
  | S754_finite s m e =>
      let sign := if s then lit "-" else [] in
      if (0 <=? e)%Z then sign ++ decimal (N.pos m * 2 ^ Z.to_N e)
      else
        let q := 2 ^ Z.to_N (- e) in
        if N.pos m mod q =? 0 then sign ++ decimal (N.pos m / q)
        else lit "NaN"
  end.

(** A compact serializer; strings are quoted without escapes. *)
Fixpoint JSON_stringify (v : json) : jsstring :=
  match v with
  | JUndefined | JNull => lit "null"
  | JBool true => lit "true"
  | JBool false => lit "false"
  | JNum n => NumberToString n
  | JStr s => [34] ++ s ++ [34]
  | JArr items =>
      lit "["
      ++ (fix go (l : list json) : jsstring :=
            match l with
            | [] => []
            | [x] => JSON_stringify x
            | x :: l' => JSON_stringify x ++ lit "," ++ go l'
            end) items
      ++ lit "]"
  | JObj props =>
      lit "{"
      ++ (fix go (l : list (jsstring * json)) : jsstring :=
            match l with
            | [] => []
            | [(k, x)] => [34] ++ k ++ [34] ++ lit ":" ++ JSON_stringify x
            | (k, x) :: l' =>
                [34] ++ k ++ [34] ++ lit ":" ++ JSON_stringify x ++ lit ","
                ++ go l'
            end) props
      ++ lit "}"
  end.

(** The documents the sample upstream services answer with. *)
Definition server_info_seq_zero : json :=
  JObj [field "result"
          (JObj [field "info"
                   (JObj [field "validated_ledger"
                            (JObj [field "seq" (JNum 0)])])])].

Definition watermark_five : json := JObj [field "latestIndexedLedger" (JNum 5)].

Definition token_metadata : json :=
  JObj [field "metadata" (JObj [field "name" (JStr (lit "Sample"))])].

Definition no_transactions : json := JObj [field "transactions" (JArr [])].

Definition documents : list json :=
  [server_info_seq_zero; watermark_five; token_metadata; no_transactions;
   JNum 1].

(** A parser that knows the sample documents. *)
Definition JSON_parse (s : jsstring) : option json :=
  lookup s (List.map (fun d => (JSON_stringify d, d)) documents).

Definition lower_cu (c : N) : N := if in_range 65 90 c then c + 32 else c.

Definition toLowerCase (s : jsstring) : jsstring := List.map lower_cu s.

Definition unreserved (c : N) : bool :=
  is_alnum c || existsb (N.eqb c) (lit "-_.!~*'()").

Definition percent (o : N) : jsstring :=
  lit "%" ++ toUpperCase (Buffer_toString_hex [o]).

(** Code units outside the surrogate range are percent-encoded; this
    sample rejects every surrogate. *)
Definition encodeURIComponent (s : jsstring) : option jsstring :=
  if existsb (fun c => is_high_surrogate c || is_low_surrogate c) s then None
  else
    Some (flat_map
            (fun c =>
               if unreserved c then [c]
               else flat_map percent (utf8_of_code_point c))
            s).

Definition fault_message (f : fault) : jsstring :=
  match f with
  | InvalidURL _ => lit "Invalid URL"
  | URIMalformed => lit "URI malformed"
  | NotIterable _ => lit "txs is not iterable"
  | ReadOfNullish JNull key =>
      lit "Cannot read properties of null (reading '" ++ key ++ lit "')"
  | ReadOfNullish _ key =>
      lit "Cannot read properties of undefined (reading '" ++ key ++ lit "')"
  end.

Definition URL : Type := jsstring.
Definition URL_new (s : jsstring) : option URL := Some s.
Definition searchParams_append (u : URL) (k v : jsstring) : URL :=
  u ++ lit "&" ++ k ++ lit "=" ++ v.
Definition searchParams_set : URL -> jsstring -> jsstring -> URL :=
  searchParams_append.

Definition LOS_BASE_URL : jsstring := lit "https://los.prod.ripplex.io".
Definition DATA_XRPL_BASE_URL : jsstring := lit "https://data.xrpl.org".
Definition XRPL_RPC_URL : jsstring := lit "https://s1.ripple.com:51234".

(** A world that replays a fixed sequence of outcomes, whatever is
    requested, and whose clock stands still. *)
Definition World : Type := list fetch_outcome.

Definition fetch (_ : request URL) (w : World) : fetch_outcome * World :=
  match w with
  | o :: w' => (o, w')
  | [] => (Rejected (JsError (lit "fetch failed")), [])
  end.

Definition Date_toISOString (w : World) : jsstring * World :=
  (lit "2026-01-01T00:00:00.000Z", w).

Definition json_response (body : json) : fetch_outcome :=
  Resolved {| status := 200;
              statusText := lit "OK";
              content_type := Some (lit "application/json");
              text := Ok (JSON_stringify body) |}.

Definition server_error : fetch_outcome :=
  Resolved {| status := 500;
              statusText := lit "Internal Server Error";
              content_type := Some (lit "text/plain");
              text := Ok (lit "upstream down") |}.

Definition start (w : World) : state World := {| world := w; trace := [] |}.

Definition network_overview : state World -> tool_output * state World :=
  network_overview StringToNumber NumberToString JSON_parse JSON_stringify
    fault_message URL URL_new searchParams_set searchParams_append
    LOS_BASE_URL XRPL_RPC_URL World fetch Date_toISOString.

Definition invoke : composite_call -> state World -> tool_output * state World :=
  invoke StringToNumber NumberToString JSON_parse JSON_stringify toLowerCase
    encodeURIComponent fault_message URL URL_new searchParams_set
    searchParams_append LOS_BASE_URL DATA_XRPL_BASE_URL XRPL_RPC_URL World
    fetch Date_toISOString.

Definition issuer : jsstring := lit "rHb9CJAWyB4rj91VRWn96DkukG4bwdtyTh".

(** The currency [€x]. *)
Definition euro_x : jsstring := [8364; 120].

Definition euro_x_key : jsstring :=
  lit "E282AC7800000000000000000000000000000000.rHb9CJAWyB4rj91VRWn96DkukG4bwdtyTh".

(** A ledger field two levels below the top of the payload. *)
Definition deep_payload : json :=
  JObj [field "data"
          (JObj [field "status" (JObj [field "ledger" (JNum 7)])])].

End Sample.

(** The adapter and two handlers on the sample platform. *)
Module SampleRuns.

Definition urlWithPathAndQuery
  : jsstring -> jsstring -> option (list (jsstring * json))
    -> result Sample.URL :=
  urlWithPathAndQuery Sample.NumberToString Sample.JSON_stringify
    Sample.fault_message Sample.URL Sample.URL_new Sample.searchParams_set
    Sample.searchParams_append.

Definition token_overview
  : jsstring -> jsstring -> json -> state Sample.World
    -> tool_output * state Sample.World :=
  token_overview Sample.StringToNumber Sample.NumberToString Sample.JSON_parse
    Sample.JSON_stringify Sample.encodeURIComponent Sample.fault_message
    Sample.URL Sample.URL_new Sample.searchParams_set
    Sample.searchParams_append Sample.LOS_BASE_URL Sample.XRPL_RPC_URL
    Sample.World Sample.fetch Sample.Date_toISOString.

Definition recent_activity : jsstring -> json -> result activity :=
  recent_activity Sample.NumberToString Sample.fault_message.

Definition amendment_status
  : json -> state Sample.World -> tool_output * state Sample.World :=
  amendment_status Sample.NumberToString Sample.JSON_parse
    Sample.JSON_stringify Sample.encodeURIComponent Sample.fault_message
    Sample.URL Sample.URL_new Sample.searchParams_set
    Sample.searchParams_append Sample.DATA_XRPL_BASE_URL Sample.XRPL_RPC_URL
    Sample.World Sample.fetch Sample.Date_toISOString.

(** A currency name of 21 characters. *)
Definition long_name : jsstring := lit "abcdefghijklmnopqrstu".

Definition other_account : jsstring :=
  lit "rPT1Sjq2YGrBMTttX4GZHjKu9dyfzbpAYe".

(** Two payments from the sample issuer to another account. *)
Definition two_payments : json :=
  let payment :=
    JObj [field "tx_json"
            (JObj [field "TransactionType" (JStr (lit "Payment"));
                   field "Account" (JStr Sample.issuer);
                   field "Destination" (JStr other_account)])] in
  JArr [payment; payment].

Definition two_payments_activity : activity :=
  {| txTypeHistogram := [(lit "Payment", 2%nat)];
     counterparties := [(JStr other_account, 2%nat)] |}.

Definition losFreshnessProbe : M Sample.World freshness_probe :=
  losFreshnessProbe Sample.StringToNumber Sample.NumberToString
    Sample.JSON_parse Sample.JSON_stringify Sample.fault_message Sample.URL
    Sample.URL_new Sample.searchParams_set Sample.searchParams_append
    Sample.LOS_BASE_URL Sample.World Sample.fetch.

Definition found_among
  : list jsstring -> state Sample.World -> freshness_probe
    -> state Sample.World -> Prop :=
  found_among Sample.StringToNumber Sample.NumberToString Sample.JSON_parse
    Sample.JSON_stringify Sample.fault_message Sample.URL Sample.URL_new
    Sample.searchParams_set Sample.searchParams_append Sample.LOS_BASE_URL
    Sample.World Sample.fetch.

(** Four amounts that add up to zero. *)
Definition offsetting_amounts : list Z :=
  [-1; -10000000000000000; 10000000000000000; 1]%Z.

(** Four trades at the price [2] with the offsetting amounts. *)
Definition offsetting_trades : list json :=
  List.map
    (fun amount =>
       JObj [field "price" (JNum 2); field "amount" (JNum (num_of_Z amount))])
    offsetting_amounts.

Definition offsetting_answer : json :=
  JObj [field "transactions" (JArr offsetting_trades)].

(** The sample parser, knowing the answer with the offsetting trades as
    well. *)
Definition JSON_parse (s : jsstring) : option json :=
  lookup s
    (List.map (fun d => (Sample.JSON_stringify d, d))
       (offsetting_answer :: Sample.documents)).

Definition vwap : list json -> result (option float) :=
  vwap Sample.StringToNumber Sample.NumberToString Sample.fault_message.

Definition market_snapshot
  : json -> json -> json -> state Sample.World
    -> tool_output * state Sample.World :=
  market_snapshot Sample.StringToNumber Sample.NumberToString JSON_parse
    Sample.JSON_stringify Sample.fault_message Sample.URL Sample.URL_new
    Sample.searchParams_set Sample.searchParams_append Sample.LOS_BASE_URL
    Sample.XRPL_RPC_URL Sample.World Sample.fetch Sample.Date_toISOString.

Definition xrp : json := JObj [field "currency" (JStr (lit "XRP"))].

Definition usd : json :=
  JObj [field "currency" (JStr (lit "USD"));
        field "issuer" (JStr Sample.issuer)].

End SampleRuns.

(* ================================================================= *)
(** ** Runs on the sample platform *)

(** C2. A run of [network_overview] in which the ledger node reports the
    validated ledger index [0] and the indexing service reports the
    latest indexed ledger [5]: both operands are known integers, and the
    handler reports them, yet the lag it reports is [null] rather than
    their difference. *)
Theorem ledger_lag_absent_at_index_zero :
  let out :=
    fst (Sample.network_overview
           (Sample.start
              [Sample.json_response Sample.server_info_seq_zero;
               Sample.json_response Sample.watermark_five])) in
  prop (data_of out) (lit "validatedLedgerIndex") = JNum 0
  /\ prop (prop (data_of out) (lit "dataFreshness"))
          (lit "losLatestIndexedLedger")
     = JNum 5
  /\ prop (prop (data_of out) (lit "keyRates")) (lit "ledgerLagVsLos")
     = JNull.
Proof. vm_compute. repeat split. Qed.

(** C6. A run of [market_snapshot] in which the indexing service answers
    with four trades at the price [2] whose amounts are the integers
    [-1], [-10^16], [10^16] and [1]: the amounts add up to exactly zero,
    yet their running sum in binary64 is [1], and the handler reports
    the average [2] rather than [null]. *)
Theorem offsetting_amounts_are_priced :
  let out :=
    fst (SampleRuns.market_snapshot SampleRuns.xrp SampleRuns.usd JUndefined
           (Sample.start
              [Sample.json_response Sample.no_transactions;
               Sample.server_error;
               Sample.json_response SampleRuns.offsetting_answer])) in
  List.map (fun t => match prop t (lit "amount") with
                     | JNum n => integer_value n
                     | _ => None
                     end) SampleRuns.offsetting_trades
  = List.map Some SampleRuns.offsetting_amounts
  /\ fold_right Z.add 0%Z SampleRuns.offsetting_amounts = 0%Z
  /\ SampleRuns.vwap SampleRuns.offsetting_trades = Ok (Some 2%float)
  /\ prop (prop (data_of out) (lit "recentTrades")) (lit "sample")
     = JArr SampleRuns.offsetting_trades
  /\ prop (prop (data_of out) (lit "recentTrades")) (lit "vwap") = JNum 2.
Proof. vm_compute. repeat split. Qed.

(** A run of [token_overview] in which both optional indexing-service
    calls succeed and the mandatory order-book call is answered with
    status 500: the result is the error with that failure's message, and
    nothing of the optional data. *)
Example token_overview_hard_failure :
  exists message evs,
    Sample.invoke (TokenOverview Sample.issuer (lit "USD") JUndefined)
      (Sample.start
         [Sample.json_response Sample.token_metadata;
          Sample.json_response Sample.no_transactions;
          Sample.server_error])
    = (ToolError message, {| world := []; trace := evs |})
    /\ In (mandatory_failure (JsError message)) evs
    /\ startsWith message (lit "HTTP 500 Internal Server Error") = true.
Proof.
  vm_compute. do 2 eexists. split; [reflexivity |].
  split; [right; right; left; reflexivity | reflexivity].
Qed.

(** C9 at the code [usd]. *)
Lemma currency_code_usd :
  exists h,
    currencyTo160Hex (lit "usd") = Some h
    /\ List.length h = 40%nat
    /\ forallb is_upper_hex_digit h = true
    /\ hex_decode h = Some (toUpperCase (lit "usd") ++ repeat 0 17)
    /\ currencyTo160Hex (toUpperCase (lit "usd")) = Some h.
Proof. exact (currency_code_case_insensitive (lit "usd") eq_refl). Defined.

(** C5 (amended) at the currency [€x]. *)
Lemma token_key_euro_x :
  let raw := trim Sample.euro_x in
  let segment := firstn 40 Sample.euro_x_key in
  Sample.euro_x_key = segment ++ lit "." ++ Sample.issuer
  /\ List.length segment = 40%nat
  /\ (forall key',
         tokenIdFromIssuerCurrency Sample.issuer Sample.euro_x = Some key' ->
         key' = Sample.euro_x_key)
  /\ (hex_string 40 raw = true -> segment = toUpperCase raw)
  /\ (hex_string 40 raw = false -> iso_code raw = true ->
      hex_decode segment = Some (toUpperCase raw ++ repeat 0 17))
  /\ (hex_string 40 raw = false -> iso_code raw = false ->
      hex_decode segment
      = Some (Buffer_from_utf8 raw
              ++ repeat 0 (20 - List.length (Buffer_from_utf8 raw)))).
Proof.
  apply (token_key_segment_decodes Sample.issuer Sample.euro_x
           Sample.euro_x_key).
  - repeat constructor.
  - reflexivity.
Defined.

(** C5, as first stated, fails at the currency [usd]: the currency
    segment of its key decodes to the octets of [USD], not to the
    original characters. *)
Lemma lower_case_code_not_recovered :
  iso_code (lit "usd") = true
  /\ exists key bytes,
       tokenIdFromIssuerCurrency Sample.issuer (lit "usd") = Some key
       /\ hex_decode (firstn 40 key) = Some bytes
       /\ firstn 3 bytes = lit "USD"
       /\ firstn 3 bytes <> lit "usd".
Proof.
  split; [reflexivity |].
  do 2 eexists. split; [reflexivity |]. split; [reflexivity |].
  split; [reflexivity | discriminate].
Qed.

(** C3, as first stated, fails at a payload whose only ledger field lies
    two levels below the top: the search returns that field, which a
    search bounded to one nested level does not reach. *)
Lemma deep_field_is_returned :
  nested_at 2 (JObj [field "ledger" (JNum 7)]) Sample.deep_payload
  /\ pickFirstNumber Sample.StringToNumber Sample.NumberToString
       Sample.deep_payload LEDGER_ALIASES
     = Some 7%float
  /\ pickFirstNumber_one_level Sample.StringToNumber Sample.NumberToString
       Sample.deep_payload LEDGER_ALIASES
     = None.
Proof.
  split; [| split; reflexivity].
  eapply nested_step; [left; reflexivity | reflexivity |].
  eapply nested_step; [left; reflexivity | reflexivity |].
  apply nested_top.
Qed.

(** C4, as first stated, fails in two places: a body that does not start
    with a brace or bracket is not parsed under the content type
    [text/json], which contains [json]; and an empty body under
    [application/json] is [null], not the raw text. *)
Lemma json_content_type_not_parsed :
  (decodeBody Sample.JSON_parse (lit "text/json") (lit "1") = JStr (lit "1")
   /\ decodeBody_expected Sample.JSON_parse (lit "text/json") (lit "1")
      = JNum 1)
  /\ (decodeBody Sample.JSON_parse (lit "application/json") [] = JNull
      /\ decodeBody_expected Sample.JSON_parse (lit "application/json") []
         = JStr []).
Proof. repeat split. Qed.

(* ================================================================= *)
(** ** Examples *)

Example currency_USD :
  currencyTo160Hex (lit "USD")
  = Some (lit "5553440000000000000000000000000000000000").
Proof. vm_compute. reflexivity. Qed.

Example currency_hex_passthrough :
  currencyTo160Hex (lit "5553440000000000000000000000000000abcdef")
  = Some (lit "5553440000000000000000000000000000ABCDEF").
Proof. vm_compute. reflexivity. Qed.

Example currency_too_long :
  currencyTo160Hex (lit "abcdefghijklmnopqrstu") = None.
Proof. vm_compute. reflexivity. Qed.

Example utf8_surrogates :
  Buffer_from_utf8 [55357; 56832] = [240; 159; 152; 128]
  /\ Buffer_from_utf8 [55357] = [239; 191; 189].
Proof. split; reflexivity. Qed.

Example kinds :
  kind_of (lit "9999999999999999999999999999999999999999999999999999999999999999")
  = TxHash
  /\ kind_of Sample.issuer = Account
  /\ kind_of (lit "abc123") = Unknown
  /\ kind_of (lit "xrpl.org") = DomainOrHost
  /\ kind_of (lit "12345") = LedgerIndex.
Proof. repeat split. Qed.

Example risk_trustlines_only :
  riskIndicators Sample.StringToNumber Sample.NumberToString 251
    (JObj [field "OwnerCount" (JNum 0); field "Flags" (JNum 0)])
  = [RISK_TRUSTLINES].
Proof. vm_compute. reflexivity. Qed.

Example risk_owner_count_only :
  riskIndicators Sample.StringToNumber Sample.NumberToString 0
    (JObj [field "OwnerCount" (JNum 1001); field "Flags" (JNum 0)])
  = [RISK_OWNER_COUNT].
Proof. vm_compute. reflexivity. Qed.

Example risk_all_three :
  riskIndicators Sample.StringToNumber Sample.NumberToString 251
    (JObj [field "OwnerCount" (JNum 1001); field "Flags" (JNum 8)])
  = [RISK_TRUSTLINES; RISK_OWNER_COUNT; RISK_FLAGS].
Proof. vm_compute. reflexivity. Qed.

Example vwap_two_trades :
  vwap Sample.StringToNumber Sample.NumberToString Sample.fault_message
    [JObj [field "price" (JNum 2); field "amount" (JNum 3)];
     JObj [field "price" (JNum 4); field "amount" (JNum 1)]]
  = Ok (Some 2.5%float).
Proof. vm_compute. reflexivity. Qed.

Example vwap_zero_amounts :
  vwap Sample.StringToNumber Sample.NumberToString Sample.fault_message
    [JObj [field "price" (JNum 2); field "amount" (JNum 0)]]
  = Ok None.
Proof. vm_compute. reflexivity. Qed.

(** Only the third candidate path answers with a recognizable field. *)
Example probe_third_candidate :
  fst (losFreshnessProbe Sample.StringToNumber Sample.NumberToString
         Sample.JSON_parse Sample.JSON_stringify Sample.fault_message
         Sample.URL Sample.URL_new Sample.searchParams_set
         Sample.searchParams_append Sample.LOS_BASE_URL Sample.World
         Sample.fetch
         (Sample.start
            [Sample.server_error;
             Sample.json_response Sample.no_transactions;
             Sample.json_response Sample.watermark_five]))
  = Ok {| latestIndexedLedger := Some 5%float;
          sourcePath := Some (lit "/status");
          raw := Sample.watermark_five |}.
Proof. vm_compute. reflexivity. Qed.

(** The counterparty that is the account itself is not counted. *)
Example counterparties_skip_account :
  recent_activity Sample.NumberToString Sample.fault_message (lit "rA")
    (JArr [JObj [field "tx" (JObj [field "Destination" (JStr (lit "rB"))])];
           JObj [field "tx" (JObj [field "Destination" (JStr (lit "rA"))])];
           JObj [field "tx_json" (JObj [field "Account" (JStr (lit "rB"))])]])
  = Ok {| txTypeHistogram := [(lit "Unknown", 3%nat)];
          counterparties := [(JStr (lit "rB"), 2%nat)] |}.
Proof. vm_compute. reflexivity. Qed.

(* ================================================================= *)
(** ** Instances of the further properties *)

(** X1 at the currency [€x]. *)
Lemma currency_hex_canonical_euro_x :
  let h := firstn 40 Sample.euro_x_key in
  List.length h = 40%nat
  /\ forallb is_upper_hex_digit h = true
  /\ currencyTo160Hex h = Some h.
Proof.
  apply (currency_hex_is_canonical Sample.euro_x).
  - repeat constructor.
  - reflexivity.
Defined.

(** X3 at a name of 21 characters. *)
Lemma currency_length_bounds_long_name :
  (hex_string 40 (trim SampleRuns.long_name) = false ->
   (20 < List.length (trim SampleRuns.long_name))%nat ->
   currencyTo160Hex SampleRuns.long_name = None)
  /\ ((List.length (trim SampleRuns.long_name) <= 6)%nat ->
      currencyTo160Hex SampleRuns.long_name <> None).
Proof.
  apply (currency_length_bounds SampleRuns.long_name).
  repeat constructor.
Defined.

(** X4 at the codes [usd] and [ USD ]. *)
Lemma token_key_injective_usd :
  Sample.issuer = Sample.issuer
  /\ currencyTo160Hex (lit "usd") = currencyTo160Hex (lit " USD ").
Proof.
  apply (token_key_injective Sample.issuer (lit "usd") Sample.issuer
           (lit " USD ")
           (lit "5553440000000000000000000000000000000000."
            ++ Sample.issuer));
    reflexivity.
Defined.

(** X5 at the indexing service's base address and its [/transactions]
    path. *)
Lemma url_slashes_immaterial_los :
  let base := Sample.LOS_BASE_URL in
  let path := lit "transactions" in
  SampleRuns.urlWithPathAndQuery (base ++ lit "/") path None
  = SampleRuns.urlWithPathAndQuery base path None
  /\ SampleRuns.urlWithPathAndQuery base (lit "/" ++ path) None
     = SampleRuns.urlWithPathAndQuery base path None
  /\ SampleRuns.urlWithPathAndQuery (base ++ lit "/") (lit "/" ++ path) None
     = SampleRuns.urlWithPathAndQuery base path None.
Proof.
  apply (url_slashes_immaterial Sample.NumberToString Sample.JSON_stringify
           Sample.fault_message Sample.URL Sample.URL_new
           Sample.searchParams_set Sample.searchParams_append
           Sample.LOS_BASE_URL (lit "transactions") None);
    reflexivity.
Defined.

(** X18 at a currency name of 21 characters, with an upstream answer
    waiting that is never asked for. *)
Lemma token_overview_rejects_long_name :
  SampleRuns.token_overview Sample.issuer SampleRuns.long_name JUndefined
    (Sample.start [Sample.server_error])
  = (ToolError (lit "Unable to normalize currency to XRPL 160-bit code."),
     Sample.start [Sample.server_error]).
Proof.
  apply (token_overview_rejects_currency Sample.StringToNumber
           Sample.NumberToString Sample.JSON_parse Sample.JSON_stringify
           Sample.encodeURIComponent Sample.fault_message Sample.URL
           Sample.URL_new Sample.searchParams_set Sample.searchParams_append
           Sample.LOS_BASE_URL Sample.XRPL_RPC_URL Sample.World Sample.fetch
           Sample.Date_toISOString Sample.issuer SampleRuns.long_name
           JUndefined (Sample.start [Sample.server_error])).
  reflexivity.
Defined.

(** X10 against a first candidate that fails and a second that holds a
    latest indexed ledger. *)
Lemma losFreshnessProbe_second_candidate :
  let st :=
    Sample.start [Sample.server_error;
                  Sample.json_response Sample.watermark_five] in
  let evs := trace _ (snd (SampleRuns.losFreshnessProbe st)) in
  exists p st',
    SampleRuns.losFreshnessProbe st = (Ok p, st')
    /\ SampleRuns.found_among FRESHNESS_CANDIDATES st p st'
    /\ (List.length evs <= 5)%nat
    /\ Forall (fun ev => ev_site ev = Optional) evs
    /\ (forall n, latestIndexedLedger p = Some n ->
                  PrimFloat.is_finite n = true).
Proof.
  intros st evs.
  apply (losFreshnessProbe_first_watermark Sample.StringToNumber
           Sample.NumberToString Sample.JSON_parse Sample.JSON_stringify
           Sample.fault_message Sample.URL Sample.URL_new
           Sample.searchParams_set Sample.searchParams_append
           Sample.LOS_BASE_URL Sample.World Sample.fetch st evs).
  - reflexivity.
  - vm_compute. repeat constructor.
Defined.

(** X25 at two payments to the same account. *)
Lemma recent_activity_counts_two_payments :
  exists rows,
    iterate Sample.fault_message SampleRuns.two_payments = Ok rows
    /\ histogram_total (counterparties SampleRuns.two_payments_activity)
       = List.length (filter (interacts Sample.issuer) rows)
    /\ (histogram_total (counterparties SampleRuns.two_payments_activity)
        <= List.length rows)%nat
    /\ (Forall (fun row =>
                  ordinary_key (activity_type_of Sample.NumberToString row)
                  = true) rows ->
        histogram_of
          (List.map (activity_type_of Sample.NumberToString) rows)
          (txTypeHistogram SampleRuns.two_payments_activity)).
Proof.
  apply (recent_activity_counts Sample.NumberToString Sample.fault_message
           Sample.issuer SampleRuns.two_payments
           SampleRuns.two_payments_activity);
    reflexivity.
Defined.

(** X30 without a network argument, against two upstream answers. *)
Lemma amendment_status_without_network :
  let st :=
    Sample.start [Sample.json_response Sample.no_transactions;
                  Sample.json_response Sample.server_info_seq_zero] in
  let out := fst (SampleRuns.amendment_status JUndefined st) in
  (exists evs,
     trace _ (snd (SampleRuns.amendment_status JUndefined st))
     = trace _ st ++ evs
     /\ (List.length evs <= 2)%nat)
  /\ ((exists message, out = ToolError message)
      \/ prop (data_of out) (lit "votingStatus") = JNull).
Proof.
  apply (amendment_status_votes_on_request Sample.NumberToString
           Sample.JSON_parse Sample.JSON_stringify Sample.encodeURIComponent
           Sample.fault_message Sample.URL Sample.URL_new
           Sample.searchParams_set Sample.searchParams_append
           Sample.DATA_XRPL_BASE_URL Sample.XRPL_RPC_URL Sample.World
           Sample.fetch Sample.Date_toISOString JUndefined).
  reflexivity.
Defined.
